(* ===== verification/_CoqProject ===== *)
-Q . S2P
Prelude.v
Float64.v
Number.v
JsValue.v
Json.v
Regex.v
Markdown.v
Dom.v
Controller.v
Protocol.v
Wire.v
