(* ===== verification/Prelude.v ===== *)
(** * MediGate chat client: a verification development of [src/static/script.js]

    The repository's client is one script, [src/static/script.js], run by
    the browser when the page is loaded ([DOMContentLoaded], lines 1-124).
    It keeps one piece of conversation state ([let context], line 7),
    turns user input into POST requests to [/chat] ([sendMessage], lines
    25-56), renders every message into the chat window ([addMessage],
    lines 59-82, with a two-step Markdown rewrite at lines 71-73), shows
    and removes a "typing" placeholder ([showTypingIndicator],
    [removeTypingIndicator], lines 85-110), keeps the window scrolled to
    the bottom ([scrollToBottom], lines 112-114), toggles a dark theme
    (lines 10-13), and wires the start button, the send button and the
    Enter key to [sendMessage] (lines 16-22, 117-123).

    ** Files, in dependency order

    - [Prelude] (this file): JavaScript strings as lists of UTF-16 code
      units ([jsstr]), the conversion from ASCII literals ([js]), decimal
      printing of numbers ([dec_N], the [+ Date.now()] of line 86),
      [remove_first] (the search-and-remove of [getElementById(..).remove()]),
      the development's tactics and its hint database [medigate].
    - [Float64]: JavaScript numbers as IEEE 754 binary64 values
      ([spec_float] of the Standard Library, 53-bit mantissa, [emax =
      1024]) and the correctly rounded conversion of a rational, ties to
      even ([round_ratio]), which is how [JSON.parse] reads a decimal
      literal ([round_dec], ECMA-262 RoundMVResult).
    - [Number]: [Number::toString] (the least number of significant
      digits that reads back as the double, laid out by steps 6-10 of
      ECMA-262), used by [JSON.stringify] for every number, and the JSON
      number grammar with its reading as a double, used by [JSON.parse].
    - [JsValue]: the JavaScript values the client handles (parsed JSON
      replies, the opaque [context]), property reads that throw on
      [null]/[undefined], and the request body built by [JSON.stringify]
      at lines 39-42; the exceptions the [try] block can throw
      ([js_error]) and [get_prop_exn], the read that throws one.
    - [Json]: the JSON text of the wire: [JSON.stringify]
      (SerializeJSONProperty with QuoteJSONString's escapes, lines 39-42)
      and [JSON.parse] (the body read by [response.json()], line 45), with
      JavaScript's property order (array-index keys first, in numeric
      order; a repeated key keeps its place and takes the last value),
      numbers written and read by [Number].
    - [Regex]: a backtracking matcher for the fragment of ECMAScript
      regular expressions the source uses (literal characters, [.],
      lazy and greedy [*], capture groups, sequencing) and
      [String.prototype.replace] with a global regex and a replacement
      template ([$1], [$$], [$&], ...), with its termination (fuel) lemmas.
    - [Markdown]: the two rewrites of lines 71-73 as instances of the
      regex model, a direct scanner for the bold rule and the theorem that
      the two agree, and the properties of the formatted text.
    - [Dom]: the chat window as a list of elements built exactly as
      [addMessage] and [showTypingIndicator] build them, the removal by id
      and the scroll position; the renderer interface ([Renderer], a
      typeclass with laws) and its instance for this DOM model.
    - [Controller]: the page state (the [context], the window, the input
      field, the start button, the theme, the clock, the in-flight
      requests, the errors logged by [console.error]), [sendMessage] split at its [await] into a synchronous
      dispatch and a completion handler, the event handlers, and one
      [step] function over events; proved against the [Renderer] laws.
    - [Protocol]: reachability by rule induction, the placeholder
      invariant, the single-flight discipline, the interleavings the code
      allows on any reached page, and the refinement of the client by an
      abstract atomic-turn specification ([turns_reach], [spec_run]).
      Its witnesses run concrete executions on the DOM model.
    - [Wire]: the composition of the controller with the JSON text: the
      network answers with a body text, [response_json] is [await
      response.json()] on it (lines 36-45), and [request_text] is the text
      [JSON.stringify] puts on the wire for a request in flight; an
      example run on texts.

    ** How the parts interact

    [Controller] is written against the typeclass [Renderer] and its laws
    [RendererLaws] ([Dom]): what the controller's theorems use of the
    window is only that a string is rendered as one entry formatted by
    [Markdown.format_text], that any other value makes [addMessage] throw,
    that the placeholder is named [typing-<now>], and that removal takes
    out the first placeholder with that name.  [Dom.dom_renderer_laws]
    proves these laws of the element-level model, so every generic theorem
    holds of the DOM, where [Protocol]'s witnesses run.
    [JsValue] holds numbers as [Float64.double]s; [Json] writes them with
    [Number.number_to_string] and reads them with [Number.parse_number].
    [Controller] takes the outcome of a call as a parsed value; [Wire]
    derives that outcome from the answer's text with [Json.json_parse],
    so its example follows a run of the page down to the texts exchanged.

    ** Correspondence with [src/static/script.js]

    - [Controller.page] is the closure's state: [context] (line 7), the
      chat window (line 2), [userInput.value], the start button, the
      [dark-mode] class and the toggle's text, [Date.now()], and the calls
      of [sendMessage] suspended at [await] ([pg_inflight]), and the
      arguments of [console.error] (line 52, [pg_log]).
    - [sendMessage] (lines 25-56) is [sendMessage_dispatch] (up to the
      [await], lines 26-43) and [sendMessage_complete] (lines 44-55), with
      [sendMessage_catch] the [catch] block.  Its [try] body's exceptions
      are the values of [JsValue.js_error]: a rejected [fetch], the
      [SyntaxError] of [response.json()], the [TypeError]s of
      [data.context] on [null] ([get_prop_exn]) and of [text.replace] on a
      value that is not a string ([Dom.addMessage], an [inl]).
    - [startChat], [onSendClick], [onKeyPress], [onThemeToggle] are the
      listeners of lines 16-22, 117, 119-123 and 10-13; [Controller.step]
      runs one event, [EvResponse i o] resuming the [i]-th suspended call
      with the settlement [o] of its [fetch]/[response.json()].
    - [Dom.addMessage], [showTypingIndicator], [removeTypingIndicator],
      [scrollToBottom] are lines 59-114, building the same elements.
    - [Markdown.format_text] is lines 71-73, two calls of [Regex.replace_all].

    ** What is proved

    The claims are about the script; the lemmas about the built-ins only
    justify their models.
    - Refinement ([Protocol.client_refines_spec]): [turns_reach] follows
      a run under the specification's discipline (single flight,
      well-formed replies) and records its turns: the message each send
      submits and the reply the network gives it.  On every such run the
      page shows exactly [spec_run] of those turns (the atomic-turn
      conversation of [spec_turn]): the context is the last reply's
      [context], a failure keeps it, and the entries are the users'
      messages and the formatted replies in turn order.
    - Invariants by rule induction over [reach allowed]: the placeholders
      are exactly those of the suspended calls when no two sends share a
      millisecond ([placeholder_invariant]); at most one request and one
      placeholder under single flight ([single_flight]).
    - Every branch of [sendMessage]: the guard, the user entry, the request
      body; success at any HTTP status, each failure with the exact error
      logged, the reply whose [response] is not a string (which still
      overwrites the context); the context round trip, and a reply without
      a context dropping the field from the next request.
    - Liveness ([pending_calls_complete]): resuming the suspended calls in
      turn, whatever their outcomes, empties the in-flight list and the
      window's placeholders.
    - What the code allows beyond the specification, on every page that
      satisfies the conditions: a second send while a call is pending
      ([send_while_pending]), an orphaned request after two sends in one
      millisecond ([orphan_request]), context updates in arrival order
      ([replies_in_arrival_order]), a start trigger that can be fired again
      ([start_chat_resends]).
    - The formatting: the regex rewrites equal direct scanners
      ([bold_replace_scan], [newline_replace_map]); no line feed is left,
      plain text is unchanged, a bold span is rendered, and the text is
      formatted line by line ([format_text_lines]).
    - The scroll position and the independence of the theme.
    - Models of the built-ins, not claims about the script:
      [JSON.parse (JSON.stringify v)] is the value the text denotes
      ([Json.json_roundtrip]); [JSON.parse] returns JSON values
      ([Json.json_parse_wf]); the rounding is within half a unit in the
      last place ([Float64.round_ratio_error]); an integer below [2^53]
      prints as its plain decimal, which justifies [dec_N] in the typing
      indicator's id ([Number.number_to_string_int]).  A run on texts
      ([Wire.wire_context_numbers]) shows a context's numbers changed by
      the round trip through doubles.

    ** Fuel and bounds

    The only fuel is that of [Regex.replace_loop]: [replace_all] gives it
    [S (length s)], and [Regex.replace_loop_fuel] shows that any fuel above
    the input's length gives the same result, since every round either
    consumes a code unit or stops.  [Markdown.bold_scan] is defined by
    well-founded recursion on the length of its input (Equations).
    [Json.json_parse] gives [parse_value] the fuel [S (length text)]: every
    nested call consumes at least one code unit, and [serialize_parses_back]
    shows the text of a value of size [jsize v] parses with any fuel above
    [jsize v], which its length exceeds.  [dec_digits] gives [digits_rev]
    [S (N.size n)] rounds, more than the number of decimal digits.  Times
    are [N] (a [Date.now()] is a non-negative integer; [dec_N] prints it,
    as [Number::toString] does below [2^53]).  [Number.shortest_search] tries the
    lengths [1, 2, ...] of a decimal with the fuel [L], the number of
    digits of the double's exact decimal: at length [L] the exact value
    itself is a candidate that reads back, so the search always stops
    with a result ([Number.digit_search_spec]).  [Number.strip_zeros] has the
    candidate's digit count as fuel, one more than the zeros it can
    strip.  Integers are [Z] throughout the rounding, with the powers of
    two and ten written out, so no intermediate value wraps.

    ** Not modelled

    The dialogue service (not in the repository: its replies are arbitrary
    [fetch_outcome]s), HTML parsing of [innerHTML] (the source string is
    kept), CSS and layout ([scrollHeight] counts entries), the text
    [console.error] prints for an error (the error value is kept), and
    the decoding of the response bytes into a string (the model's body is
    the decoded JavaScript string).  ECMA-262 lets RoundMVResult choose
    either neighbour beyond the 20th significant digit of a literal; the
    model rounds correctly, as the engines do.  Arithmetic on numbers is
    not modelled: the client never computes with them.  The HTTP status is
    carried but never read, as in the code. *)

From stdpp Require Export base list decidable numbers.
From Stdlib Require Export NArith.
From Stdlib Require Import String Ascii.
Export String.StringSyntax.

(** ** JavaScript strings

    A JavaScript string is a sequence of UTF-16 code units; we keep it as
    a list of [N].  Literals of the source are ASCII, so [js] maps an
    ASCII Rocq string to its code units. *)

Abbreviation jsstr := (list N).

Definition js (s : String.string) : jsstr :=
  map Ascii.N_of_ascii (String.list_ascii_of_string s).

Declare Scope js_scope.
Delimit Scope js_scope with js.
Notation "'‹' s '›'" := (js s%string) (format "‹ s ›") : js_scope.
Open Scope js_scope.

(** The code units the source treats specially. *)
Definition cu_star : N := 42.
Definition cu_lf : N := 10.
Definition cu_cr : N := 13.
Definition cu_ls : N := 8232.   (* U+2028 LINE SEPARATOR *)
Definition cu_ps : N := 8233.   (* U+2029 PARAGRAPH SEPARATOR *)

(** ECMAScript's LineTerminator: the characters [.] does not match
    (no [s] flag on the source's regex). *)
Definition is_line_terminator (c : N) : bool :=
  bool_decide (c = cu_lf \/ c = cu_cr \/ c = cu_ls \/ c = cu_ps).

(** ** Decimal numerals

    Number-to-string for the non-negative integers [Date.now()] returns,
    as [ToString] prints an integral Number: the decimal digits, most
    significant first, without leading zeros.  [digits_rev] peels digits
    off the low end; its fuel, one more than the bit length, is enough
    since every step divides by ten ([digits_rev_spec]). *)
Fixpoint digits_rev (fuel : nat) (n : N) : list N :=
  match fuel with
  | 0 => []
  | S f => if (n <? 10)%N then [n] else (n mod 10)%N :: digits_rev f (n / 10)%N
  end.

Definition dec_digits (n : N) : list N := rev (digits_rev (S (N.to_nat (N.size n))) n).

Definition dec_N (n : N) : jsstr := map (N.add 48) (dec_digits n).

(** The number a digit sequence denotes, read left to right as a parser
    accumulates it. *)
Fixpoint digits_value (acc : N) (ds : list N) : N :=
  match ds with [] => acc | d :: ds' => digits_value (10 * acc + d)%N ds' end.

(** The first element satisfying [P] is removed; nothing happens when
    there is none. *)
Fixpoint remove_first {A} (P : A -> bool) (l : list A) : list A :=
  match l with
  | [] => []
  | x :: l' => if P x then l' else x :: remove_first P l'
  end.

(** A value packed with the equation that names it, to keep a [with]
    clause's scrutinee in the context of a well-founded definition. *)
Definition inspect {A} (a : A) : {b | a = b} := exist _ a eq_refl.
Notation "x 'eqn' ':' p" := (exist _ x p) (only parsing, at level 20).

(** ** Tactics and hints *)

Create HintDb medigate.
Create Rewrite HintDb medigate_rw.

Ltac inv_clear H := inversion H; subst; clear H.

(** Case on every [bool_decide] of the goal, turning it into its [Prop]. *)
Ltac case_bools :=
  repeat match goal with
  | |- context [bool_decide ?P] => destruct (bool_decide_reflect P)
  end.

(** ** Generic lemmas *)

Lemma js_app (s1 s2 : String.string) : js (String.append s1 s2) = js s1 ++ js s2.
Proof.
  induction s1 as [|a s1 IH]; simpl; [done|].
  unfold js in *. simpl. by rewrite IH.
Qed.

Lemma js_inj (s1 s2 : String.string) : js s1 = js s2 -> s1 = s2.
Proof.
  revert s2; induction s1 as [|a s1 IH]; intros [|b s2]; simpl; try done.
  intros [= Hab Hs]. f_equal; [|by apply IH].
  rewrite <- (Ascii.ascii_N_embedding a), <- (Ascii.ascii_N_embedding b). by rewrite Hab.
Qed.

Lemma digits_value_app acc l1 l2 :
  digits_value acc (l1 ++ l2) = digits_value (digits_value acc l1) l2.
Proof. revert acc. induction l1; simpl; auto. Qed.

Lemma digits_rev_spec f n :
  (n < 10 ^ N.of_nat (S f))%N ->
  digits_value 0 (rev (digits_rev (S f) n)) = n
  /\ Forall (fun d => d < 10)%N (digits_rev (S f) n)
  /\ exists d ds, rev (digits_rev (S f) n) = d :: ds /\ (d = 0%N -> n = 0%N /\ ds = []).
Proof.
  revert n. induction f as [|f IH]; intros n Hn;
    cbn [digits_rev]; destruct (N.ltb_spec n 10) as [Hlt|Hge].
  1,3: simpl; split; [lia|]; split; [repeat constructor; lia|]; exists n, []; done.
  - simpl in Hn. lia.
  - assert (n / 10 < 10 ^ N.of_nat (S f))%N as Hq
      by (apply N.Div0.div_lt_upper_bound; rewrite Nat2N.inj_succ, N.pow_succ_r' in Hn; lia).
    destruct (IH (n / 10)%N Hq) as (Hv & Hd & d & ds & Hr & Hz).
    split; [|split].
    + change (digits_value 0 (rev (digits_rev (S f) (n / 10)%N) ++ [(n mod 10)%N]) = n).
      rewrite digits_value_app, Hv. simpl. pose proof (N.div_mod n 10). lia.
    + constructor; [apply N.mod_lt; lia|done].
    + exists d, (ds ++ [(n mod 10)%N]).
      change (rev (digits_rev (S f) (n / 10)%N) ++ [(n mod 10)%N] = d :: ds ++ [(n mod 10)%N]
              /\ (d = 0%N -> n = 0%N /\ ds ++ [(n mod 10)%N] = [])).
      rewrite Hr. split; [done|].
      intros ->. destruct (Hz eq_refl) as [Hq0 _].
      pose proof (N.div_mod n 10). pose proof (N.mod_lt n 10). lia.
Qed.

Lemma size_bound n : (n < 10 ^ N.of_nat (S (N.to_nat (N.size n))))%N.
Proof.
  pose proof (N.size_gt n) as H.
  assert (2 ^ N.size n <= 10 ^ N.size n)%N by (apply N.pow_le_mono_l; lia).
  assert (10 ^ N.size n <= 10 ^ N.of_nat (S (N.to_nat (N.size n))))%N
    by (apply N.pow_le_mono_r; lia).
  lia.
Qed.

(** The digits of [n]: they denote [n], each is below ten, and the first
    is zero only for [0], which has no other. *)
Lemma dec_digits_spec n :
  digits_value 0 (dec_digits n) = n
  /\ Forall (fun d => d < 10)%N (dec_digits n)
  /\ exists d ds, dec_digits n = d :: ds /\ (d = 0%N -> n = 0%N /\ ds = []).
Proof.
  destruct (digits_rev_spec _ n (size_bound n)) as (Hv & Hd & Hh).
  split; [done|]. split; [|done]. by apply Forall_rev.
Qed.

Lemma map_inj_eq {A B} (f : A -> B) (l1 l2 : list A) :
  (forall a b, f a = f b -> a = b) -> map f l1 = map f l2 -> l1 = l2.
Proof.
  intros Hf. revert l2. induction l1 as [|x l1 IH]; intros [|y l2]; simpl; try done.
  intros [= Hxy Hl]. f_equal; auto.
Qed.

Lemma dec_N_inj (n m : N) : dec_N n = dec_N m -> n = m.
Proof.
  unfold dec_N. intros H. apply map_inj_eq in H; [|intros a b; lia].
  rewrite <- (proj1 (dec_digits_spec n)), <- (proj1 (dec_digits_spec m)). by rewrite H.
Qed.

Lemma remove_first_app_l {A} (P : A -> bool) (l1 l2 : list A) :
  Exists (fun x => P x = true) l1 ->
  remove_first P (l1 ++ l2) = remove_first P l1 ++ l2.
Proof.
  induction 1 as [x l Hx|x l _ IH]; simpl; [by rewrite Hx|].
  destruct (P x); [done|]. by rewrite IH.
Qed.

Lemma remove_first_app_r {A} (P : A -> bool) (l1 l2 : list A) :
  Forall (fun x => P x = false) l1 ->
  remove_first P (l1 ++ l2) = l1 ++ remove_first P l2.
Proof. induction 1 as [|x l Hx _ IH]; simpl; [done|]. by rewrite Hx, IH. Qed.

Lemma remove_first_none {A} (P : A -> bool) (l : list A) :
  Forall (fun x => P x = false) l -> remove_first P l = l.
Proof. intros H. rewrite <- (app_nil_r l), remove_first_app_r; done. Qed.

Lemma remove_first_filter {A} (P Q : A -> bool) (l : list A) :
  (forall x, P x = true -> Q x = true) ->
  filter (fun x => Q x = true) (remove_first P l)
  = remove_first P (filter (fun x => Q x = true) l).
Proof.
  intros HPQ. induction l as [|x l IH]; simpl; [done|].
  destruct (P x) eqn:HP.
  - rewrite filter_cons_True; [|by apply HPQ]. simpl. by rewrite HP.
  - rewrite !filter_cons. destruct (decide (Q x = true)); simpl;
      [rewrite HP|]; by rewrite IH.
Qed.

Lemma suffix_take {A} (t t' : list A) :
  t' `suffix_of` t -> take (Datatypes.length t - Datatypes.length t') t ++ t' = t.
Proof.
  intros [u ->]. rewrite length_app, Nat.add_sub, take_app_length. done.
Qed.

Lemma suffix_take_eq {A} (u t' : list A) :
  take (Datatypes.length (u ++ t') - Datatypes.length t') (u ++ t') = u.
Proof. rewrite length_app, Nat.add_sub. apply take_app_length. Qed.

Lemma Forall_remove_first {A} (P : A -> Prop) (Q : A -> bool) (l : list A) :
  Forall P l -> Forall P (remove_first Q l).
Proof.
  induction 1 as [|x l Hx Hl IH]; simpl; [constructor|].
  destruct (Q x); [done|]. by constructor.
Qed.

Lemma remove_first_length {A} (Q : A -> bool) (l : list A) :
  Exists (fun x => Q x = true) l ->
  Datatypes.length (remove_first Q l) = pred (Datatypes.length l).
Proof.
  induction 1 as [x l Hx|x l Hl IH]; simpl; [by rewrite Hx|].
  destruct (Q x); [done|]. simpl. rewrite IH.
  destruct l; [inversion Hl|]. done.
Qed.

Lemma remove_first_length_le {A} (Q : A -> bool) (l : list A) :
  Datatypes.length (remove_first Q l) <= Datatypes.length l.
Proof. induction l as [|x l IH]; simpl; [done|]. destruct (Q x); simpl; lia. Qed.

Lemma filter_nil_Forall {A} (Q : A -> bool) (l : list A) :
  filter (fun x => Q x = true) l = [] -> Forall (fun x => Q x = false) l.
Proof.
  induction l as [|x l IH]; intros H; [constructor|].
  destruct (Q x) eqn:Hx.
  - by rewrite filter_cons_True in H.
  - rewrite filter_cons_False in H by (by rewrite Hx). constructor; auto.
Qed.

(** Removing twice is removing once when at most one element matches. *)
Lemma remove_first_idem {A} (Q : A -> bool) (l : list A) :
  Datatypes.length (filter (fun x => Q x = true) l) <= 1 ->
  remove_first Q (remove_first Q l) = remove_first Q l.
Proof.
  induction l as [|x l IH]; [done|]. cbn [remove_first]. destruct (Q x) eqn:Hx.
  - rewrite filter_cons_True by done. cbn [Datatypes.length]. intros H.
    apply remove_first_none, filter_nil_Forall, nil_length_inv. lia.
  - rewrite filter_cons_False by (by rewrite Hx). intros H.
    cbn [remove_first]. rewrite Hx. by rewrite IH.
Qed.

#[export] Hint Rewrite js_app length_app app_nil_r : medigate_rw.
#[export] Hint Resolve remove_first_app_l remove_first_app_r remove_first_none : medigate.
