(* ===== verification/Float64.v ===== *)
(** * JavaScript numbers: IEEE 754 binary64

    A JavaScript number is a binary64 floating-point value.  The client
    never computes with numbers, but every number of the conversation
    state goes through [JSON.parse] (the reply, [src/static/script.js]
    line 45) and [JSON.stringify] (the next request, lines 39-42), and
    both convert between decimal text and binary64.  This file holds the
    values ([double], the [spec_float] of the Standard Library with
    [prec = 53] and [emax = 1024], valid when [valid_binary] holds) and the
    correctly rounded conversion of a positive rational [p / q] to the
    nearest double, ties to even ([round_ratio]), which is the
    RoundMVResult of ECMA-262 for the decimals [JSON.parse] reads
    ([round_dec]).

    The conversion is written on integers: [flog2 p q] is the binade of
    [p / q], [fexp64] the exponent of its last mantissa bit (the
    subnormals share [emin = -1074]), and the mantissa is [p / q] scaled
    by that power of two, rounded by [rne]; a carry into the next binade
    renormalises, an exponent above [emax - prec] is an infinity, a
    mantissa rounded to zero a signed zero.  The theorems show that the
    result is always a valid double ([round_ratio_valid]), that a value
    that is a double is returned unchanged ([round_ratio_exact]; the
    integers up to [2^53] are such values, [of_int_exact]), that the
    values rounding to one double form an interval
    ([round_ratio_interval]), that the result is within half a unit in its
    last place ([round_ratio_error]), and that scaling numerator and
    denominator together changes nothing ([round_ratio_scale]). *)

From S2P Require Import Prelude.
From Stdlib Require Export Floats.SpecFloat.

Local Open Scope Z_scope.

(** ** Binary64 *)

Definition prec : Z := 53.
Definition emax : Z := 1024.

Abbreviation double := spec_float.

(** The exponent of the last mantissa bit of a value of binade [e]
    ([2^(e-1) <= |x| < 2^e]): [max (e - 53) (-1074)]. *)
Definition fexp64 (e : Z) : Z := fexp prec emax e.

Definition valid (x : double) : bool := valid_binary prec emax x.

Definition is_finite (x : double) : bool :=
  match x with
  | S754_zero _ | S754_finite _ _ _ => true
  | _ => false
  end.

Definition is_nan (x : double) : bool :=
  match x with S754_nan => true | _ => false end.

(** A double with its zero made positive: decimal text has no [-0]
    ([Number::toString] prints both zeros as ["0"]). *)
Definition num_norm (x : double) : double :=
  match x with S754_zero _ => S754_zero false | _ => x end.

(** ** Rounding a positive rational *)

(** [p / q] divided by [2^c], as a fraction of integers. *)
Definition scale2 (c p q : Z) : Z * Z :=
  if 0 <=? c then (p, q * 2 ^ c) else (p * 2 ^ (- c), q).

(** [2^c <= p / q]. *)
Definition geb_pow2 (c p q : Z) : bool :=
  let '(p', q') := scale2 c p q in q' <=? p'.

(** The binade of [p / q]: the [c] with [2^c <= p / q < 2^(c+1)]; the
    difference of the integer logarithms is [c] or [c + 1]. *)
Definition flog2 (p q : Z) : Z :=
  let c := Z.log2 p - Z.log2 q in
  if geb_pow2 c p q then c else c - 1.

(** Round to nearest, ties to even, of [m + r / q] ([0 <= r < q]). *)
Definition rne (m r q : Z) : Z :=
  match Z.compare (2 * r) q with
  | Lt => m
  | Gt => m + 1
  | Eq => if Z.even m then m else m + 1
  end.

(** The mantissa [p / q / 2^ex] rounded, at the exponent [ex] of the
    last bit of the binade of [p / q]. *)
Definition round_bits (p q : Z) : Z * Z :=
  let ex := fexp64 (flog2 p q + 1) in
  let '(p', q') := scale2 ex p q in
  (rne (p' / q') (p' mod q') q', ex).

(** The same, renormalised after a carry into the next binade; the range
    check comes after. *)
Definition round_mant (p q : Z) : Z * Z :=
  let '(m, ex) := round_bits p q in
  if m =? 2 ^ prec then (2 ^ (prec - 1), ex + 1) else (m, ex).

(** The double of sign [s] with mantissa [m] at exponent [ex]: an
    infinity above the range, a zero for a mantissa rounded away. *)
Definition make_double (s : bool) (m ex : Z) : double :=
  match m with
  | Zpos mp => if ex <=? emax - prec then S754_finite s mp ex else S754_infinity s
  | _ => S754_zero s
  end.

(** The double nearest to [p / q] with sign [s] ([0 <= p], [0 < q]). *)
Definition round_ratio (s : bool) (p q : Z) : double :=
  if p <=? 0 then S754_zero s else
  let '(m, ex) := round_mant p q in make_double s m ex.

(** The double nearest to [m * 10^e] with sign [s] ([0 <= m]). *)
Definition round_dec (s : bool) (m e : Z) : double :=
  if 0 <=? e then round_ratio s (m * 10 ^ e) 1 else round_ratio s m (10 ^ (- e)).

(** The number of an integer, as [Number(z)] ([z = round_dec _ |z| 0]). *)
Definition of_Z (z : Z) : double :=
  match z with
  | Z0 => S754_zero false
  | Zpos p => round_ratio false (Zpos p) 1
  | Zneg p => round_ratio true (Zpos p) 1
  end.

(** ** Powers of two *)

Lemma pow2_pos c : 0 <= c -> 0 < 2 ^ c.
Proof. intros; apply Z.pow_pos_nonneg; lia. Qed.

Lemma pow2_add a b : 0 <= a -> 0 <= b -> 2 ^ (a + b) = 2 ^ a * 2 ^ b.
Proof. intros; by apply Z.pow_add_r. Qed.

Lemma pow2_le a b : 0 <= a <= b -> 2 ^ a <= 2 ^ b.
Proof. intros; apply Z.pow_le_mono_r; lia. Qed.

(** A comparison with [2^c] as one inequality of integers, for any shift
    [K] that makes the exponents non-negative. *)
Lemma geb_pow2_iff c p q K :
  0 <= K -> 0 <= c + K -> geb_pow2 c p q = true <-> q * 2 ^ (c + K) <= p * 2 ^ K.
Proof.
  intros HK HcK. unfold geb_pow2, scale2.
  destruct (Z.leb_spec 0 c) as [Hc|Hc]; rewrite Z.leb_le.
  - rewrite pow2_add by lia. rewrite Z.mul_assoc.
    apply Z.mul_le_mono_pos_r, pow2_pos; lia.
  - assert (2 ^ K = 2 ^ (- c) * 2 ^ (c + K)) as ->.
    { rewrite <- pow2_add by lia. f_equal. lia. }
    rewrite Z.mul_assoc. apply Z.mul_le_mono_pos_r, pow2_pos; lia.
Qed.

(** ** The binade of a rational *)

Lemma geb_pow2_anti c c' p q :
  c' <= c -> 0 < q -> geb_pow2 c p q = true -> geb_pow2 c' p q = true.
Proof.
  intros Hcc Hq. rewrite !(geb_pow2_iff _ p q (Z.abs c + Z.abs c')) by lia.
  intros H. etrans; [|exact H]. apply Z.mul_le_mono_nonneg_l; [lia|]. apply pow2_le; lia.
Qed.

Lemma flog2_spec p q :
  0 < p -> 0 < q -> geb_pow2 (flog2 p q) p q = true /\ geb_pow2 (flog2 p q + 1) p q = false.
Proof.
  intros Hp Hq. destruct (Z.log2_spec p Hp) as [Hp1 Hp2]. destruct (Z.log2_spec q Hq) as [Hq1 Hq2].
  pose proof (Z.log2_nonneg p). pose proof (Z.log2_nonneg q).
  unfold flog2. set (a := Z.log2 p) in *. set (b := Z.log2 q) in *.
  rewrite Z.pow_succ_r in Hp2, Hq2 by lia.
  pose proof (pow2_pos a ltac:(lia)). pose proof (pow2_pos b ltac:(lia)).
  destruct (geb_pow2 (a - b) p q) eqn:E.
  - split; [done|]. apply not_true_is_false. rewrite (geb_pow2_iff _ _ _ (b + 1)) by lia.
    replace (a - b + 1 + (b + 1)) with (a + 2) by lia.
    rewrite !pow2_add by lia. change (2 ^ 2) with 4. change (2 ^ 1) with 2.
    generalize dependent (2 ^ a); generalize dependent (2 ^ b); intros B HB1 HB2 HB A HA1 HA2 HA Hc.
    pose proof (Z.mul_le_mono_nonneg_r B q A ltac:(lia) HB1).
    pose proof (proj1 (Z.mul_lt_mono_pos_r B p (2 * A) HB) HA2). nia.
  - replace (a - b - 1 + 1) with (a - b) by lia. split; [|done].
    rewrite (geb_pow2_iff _ _ _ (b + 1)) by lia.
    replace (a - b - 1 + (b + 1)) with a by lia.
    rewrite pow2_add by lia. change (2 ^ 1) with 2.
    generalize dependent (2 ^ a); generalize dependent (2 ^ b); intros B ? ? ? A ? ? ?. nia.
Qed.

Lemma flog2_unique c p q :
  0 < p -> 0 < q -> geb_pow2 c p q = true -> geb_pow2 (c + 1) p q = false -> flog2 p q = c.
Proof.
  intros Hp Hq H1 H2. destruct (flog2_spec p q Hp Hq) as [F1 F2].
  destruct (Z.lt_trichotomy (flog2 p q) c) as [Hl|[He|Hl]]; [|done|].
  - rewrite (geb_pow2_anti c (flog2 p q + 1)) in F2 by (done || lia). discriminate.
  - rewrite (geb_pow2_anti (flog2 p q) (c + 1) p q ltac:(lia) Hq F1) in H2. discriminate.
Qed.

Lemma scale2_pos ex p q :
  0 < p -> 0 < q -> 0 < (scale2 ex p q).1 /\ 0 < (scale2 ex p q).2.
Proof.
  intros Hp Hq. unfold scale2. destruct (Z.leb_spec 0 ex); simpl.
  - pose proof (pow2_pos ex ltac:(lia)). lia.
  - pose proof (pow2_pos (- ex) ltac:(lia)). lia.
Qed.

(** Dividing by [2^ex] shifts the binade by [ex]. *)
Lemma geb_pow2_scale c ex p q :
  0 < q -> geb_pow2 c p q = geb_pow2 (c - ex) (scale2 ex p q).1 (scale2 ex p q).2.
Proof.
  intros Hq. apply Bool.eq_iff_eq_true. set (K := Z.abs c + Z.abs ex).
  rewrite (geb_pow2_iff c p q K) by lia.
  unfold scale2. destruct (Z.leb_spec 0 ex) as [He|He]; simpl.
  - rewrite (geb_pow2_iff _ _ _ (K + ex)) by lia.
    replace (c - ex + (K + ex)) with (c + K) by lia. rewrite (pow2_add K ex) by lia.
    pose proof (pow2_pos ex ltac:(lia)). pose proof (pow2_pos K ltac:(lia)).
    generalize dependent (2 ^ ex); generalize dependent (2 ^ K); generalize (2 ^ (c + K)).
    intros; split; intros; nia.
  - rewrite (geb_pow2_iff _ _ _ K) by lia.
    replace (c - ex + K) with (c + K + - ex) by lia. rewrite (pow2_add (c + K)) by lia.
    pose proof (pow2_pos (- ex) ltac:(lia)).
    generalize dependent (2 ^ (- ex)); generalize (2 ^ K); generalize (2 ^ (c + K)).
    intros; split; intros; nia.
Qed.

Lemma div_of_geb j p q :
  0 <= j -> 0 < q -> geb_pow2 j p q = true -> geb_pow2 (j + 1) p q = false ->
  2 ^ j <= p / q < 2 ^ (j + 1).
Proof.
  intros Hj Hq. unfold geb_pow2, scale2.
  rewrite (proj2 (Z.leb_le 0 j) Hj), (proj2 (Z.leb_le 0 (j + 1))) by lia.
  rewrite Z.leb_le, Z.leb_gt. intros H1 H2. split.
  - apply Z.div_le_lower_bound; lia.
  - apply Z.div_lt_upper_bound; lia.
Qed.

(** Below [2^0] the integer part is [0]. *)
Lemma div_of_geb_neg j p q :
  j < 0 -> 0 <= p -> 0 < q -> geb_pow2 (j + 1) p q = false -> p / q = 0.
Proof.
  intros Hj Hp Hq H. apply not_true_iff_false in H.
  rewrite (geb_pow2_iff _ _ _ (- (j + 1))) in H by lia.
  replace (j + 1 + - (j + 1)) with 0 in H by lia.
  pose proof (pow2_pos (- (j + 1)) ltac:(lia)). apply Z.div_small. nia.
Qed.

Lemma rne_bounds m r q : m <= rne m r q <= m + 1.
Proof. unfold rne. destruct (Z.compare _ _); [destruct (Z.even m)| |]; lia. Qed.

Lemma rne_lt m r q : 2 * r < q -> rne m r q = m.
Proof. intros H. unfold rne. by rewrite (proj2 (Z.compare_lt_iff _ _) H). Qed.

(** ** Canonical mantissas *)

Lemma digits2_size m : digits2_pos m = Pos.size m.
Proof. induction m; simpl; by rewrite ?IHm. Qed.

Lemma log2_size m : Z.log2 (Zpos m) = Zpos (Pos.size m) - 1.
Proof. destruct m; simpl; lia. Qed.

Lemma fexp64_eq e : fexp64 e = Z.max (e - 53) (-1074).
Proof. reflexivity. Qed.

(** A mantissa below [2^53] is canonical at a normal exponent when it has
    53 bits, and at the subnormal exponent always. *)
Lemma canonical_range m e :
  0 < m < 2 ^ prec -> (2 ^ (prec - 1) <= m /\ -1074 <= e) \/ e = -1074 ->
  canonical_mantissa prec emax (Z.to_pos m) e = true.
Proof.
  intros Hm Hc. unfold canonical_mantissa. apply Z.eqb_eq. rewrite digits2_size.
  assert (Zpos (Pos.size (Z.to_pos m)) = Z.log2 m + 1) as ->.
  { rewrite <- (Z2Pos.id m) at 2 by lia. rewrite log2_size. lia. }
  assert (Z.log2 m < 53) by (apply Z.log2_lt_pow2; [lia|exact (proj2 Hm)]).
  pose proof (Z.log2_nonneg m). change (fexp prec emax) with fexp64. rewrite fexp64_eq.
  destruct Hc as [[Hm2 He]| ->].
  - assert (52 <= Z.log2 m) by (apply Z.log2_le_pow2; [lia|exact Hm2]). lia.
  - lia.
Qed.

(** The digits of a canonical mantissa. *)
Lemma canonical_log2 m e :
  canonical_mantissa prec emax m e = true ->
  fexp64 (Z.log2 (Zpos m) + 1 + e) = e /\ Z.log2 (Zpos m) <= 52.
Proof.
  unfold canonical_mantissa. rewrite Z.eqb_eq, digits2_size, log2_size.
  change (fexp prec emax) with fexp64. rewrite !fexp64_eq. lia.
Qed.

(** ** The rounded mantissa *)

(** The scaled value [p / q / 2^ex] lies in the binade [j = flog2 p q - ex]. *)
Lemma round_mant_scaled p q :
  0 < p -> 0 < q ->
  let f := flog2 p q in let ex := fexp64 (f + 1) in
  let p' := (scale2 ex p q).1 in let q' := (scale2 ex p q).2 in
  0 < p' /\ 0 < q' /\ ex = Z.max (f - 52) (-1074) /\
  geb_pow2 (f - ex) p' q' = true /\ geb_pow2 (f - ex + 1) p' q' = false.
Proof.
  intros Hp Hq f ex p' q'. destruct (flog2_spec p q Hp Hq) as [F1 F2].
  destruct (scale2_pos ex p q Hp Hq) as [Hp' Hq'].
  rewrite (geb_pow2_scale _ ex) in F1 by done. rewrite (geb_pow2_scale _ ex) in F2 by done.
  replace (flog2 p q + 1 - ex) with (flog2 p q - ex + 1) in F2 by lia.
  repeat split; try done. unfold ex. rewrite fexp64_eq. lia.
Qed.

Lemma round_mant_range p q :
  0 < p -> 0 < q ->
  let '(m, ex) := round_mant p q in
  0 <= m < 2 ^ prec /\ ((2 ^ (prec - 1) <= m /\ -1074 <= ex) \/ ex = -1074).
Proof.
  intros Hp Hq. pose proof (round_mant_scaled p q Hp Hq) as (Hp' & Hq' & Hex & F1 & F2).
  unfold round_mant, round_bits. set (f := flog2 p q) in *. set (ex := fexp64 (f + 1)) in *.
  destruct (scale2 ex p q) as [p' q'] eqn:Es. cbn [fst snd] in *.
  pose proof (rne_bounds (p' / q') (p' mod q') q') as Hr.
  set (m := rne (p' / q') (p' mod q') q') in *.
  change (2 ^ prec) with (2 ^ 52 * 2). change (2 ^ (prec - 1)) with (2 ^ 52).
  pose proof (pow2_pos 52 ltac:(lia)).
  destruct (Z.leb_spec 0 (f - ex)) as [Hj|Hj].
  - pose proof (div_of_geb _ p' q' Hj Hq' F1 F2) as [D1 D2].
    assert (2 ^ (f - ex + 1) <= 2 ^ 52 * 2).
    { rewrite Z.mul_comm, <- Z.pow_succ_r by lia. apply pow2_le; lia. }
    destruct (Z.eqb_spec m (2 ^ 52 * 2)) as [Hm|Hm].
    + assert (f - ex = 52).
      { destruct (Z.eq_dec (f - ex) 52) as [|Hn]; [done|].
        assert (2 ^ (f - ex + 1) <= 2 ^ 52) by (apply pow2_le; lia). lia. }
      split; [lia|]. left. lia.
    + split; [lia|]. destruct (Z.eq_dec ex (-1074)) as [|Hn]; [by right|left].
      assert (f - ex = 52) as Hj52 by lia. rewrite Hj52 in D1. lia.
  - rewrite (div_of_geb_neg _ p' q' Hj ltac:(lia) Hq' F2) in Hr.
    rewrite (proj2 (Z.eqb_neq m _)) by lia. split; [lia|]. right. lia.
Qed.

(** ** Validity *)

(** Every rounded value is a valid double, never NaN. *)
Lemma round_ratio_valid s p q :
  0 < q -> valid (round_ratio s p q) = true /\ is_nan (round_ratio s p q) = false.
Proof.
  intros Hq. unfold round_ratio. destruct (Z.leb_spec p 0); [done|].
  pose proof (round_mant_range p q ltac:(lia) Hq) as Hr.
  destruct (round_mant p q) as [m ex]. destruct Hr as [Hm Hc]. unfold make_double.
  destruct m as [|mp|mp]; [done| |done].
  destruct (Z.leb_spec ex (emax - prec)) as [He|He]; [|done].
  split; [|done]. unfold valid, valid_binary, bounded. apply andb_true_intro. split.
  - apply (canonical_range (Zpos mp)); [lia|done].
  - by apply Z.leb_le.
Qed.

(** ** Exactness *)

(** A value [m * 2^e] that is a double is its own rounding; [K] shifts
    both sides to integers. *)
Lemma round_mant_exact p q m e K :
  0 < q -> 0 <= K -> 0 <= e + K ->
  p * 2 ^ K = Zpos m * 2 ^ (e + K) * q ->
  canonical_mantissa prec emax m e = true ->
  round_mant p q = (Zpos m, e).
Proof.
  intros Hq HK HeK Hv Hc. destruct (canonical_log2 m e Hc) as [Hf Ha].
  pose proof (pow2_pos K HK). pose proof (pow2_pos (e + K) HeK).
  assert (Hp : 0 < p) by nia.
  destruct (Z.log2_spec (Zpos m) ltac:(lia)) as [Hm1 Hm2].
  pose proof (Z.log2_nonneg (Zpos m)). set (a := Z.log2 (Zpos m)) in *.
  pose proof (pow2_pos a ltac:(lia)).
  assert (Hfl : flog2 p q = a + e).
  { apply flog2_unique; [done|done| |].
    - rewrite (geb_pow2_iff _ _ _ K) by lia. rewrite Hv.
      replace (a + e + K) with (a + (e + K)) by lia. rewrite pow2_add by lia. nia.
    - apply not_true_iff_false. rewrite (geb_pow2_iff _ _ _ K) by lia. rewrite Hv.
      replace (a + e + 1 + K) with (a + 1 + (e + K)) by lia. rewrite pow2_add by lia. nia. }
  unfold round_mant, round_bits. rewrite Hfl. replace (a + e + 1) with (a + 1 + e) by lia. rewrite Hf.
  assert (Hs : (scale2 e p q).1 = Zpos m * (scale2 e p q).2).
  { unfold scale2. destruct (Z.leb_spec 0 e); cbn [fst snd].
    - rewrite (pow2_add e K) in Hv by lia. apply (Z.mul_reg_r _ _ (2 ^ K)); [lia|]. lia.
    - assert (2 ^ K = 2 ^ (- e) * 2 ^ (e + K)) as E.
      { rewrite <- pow2_add by lia. f_equal. lia. }
      rewrite E in Hv. apply (Z.mul_reg_r _ _ (2 ^ (e + K))); [lia|]. lia. }
  pose proof (scale2_pos e p q Hp Hq) as [_ Hq'].
  destruct (scale2 e p q) as [p' q'] eqn:Es. cbn [fst snd] in Hs, Hq'. subst p'.
  rewrite Z.div_mul, Z.mod_mul by lia. rewrite rne_lt by lia.
  assert (2 ^ (a + 1) <= 2 ^ prec) by (apply pow2_le; unfold prec; lia).
  by rewrite (proj2 (Z.eqb_neq _ _)) by lia.
Qed.

Lemma round_ratio_exact s p q m e K :
  0 < q -> 0 <= K -> 0 <= e + K ->
  p * 2 ^ K = Zpos m * 2 ^ (e + K) * q ->
  valid (S754_finite s m e) = true ->
  round_ratio s p q = S754_finite s m e.
Proof.
  intros Hq HK HeK Hv Hb. unfold valid, valid_binary, bounded in Hb.
  apply andb_prop in Hb as [Hc He]. apply Z.leb_le in He.
  pose proof (pow2_pos K HK). pose proof (pow2_pos (e + K) HeK).
  unfold round_ratio. rewrite (proj2 (Z.leb_gt p 0)) by nia.
  rewrite (round_mant_exact p q m e K) by done. unfold make_double. by rewrite (proj2 (Z.leb_le e _)).
Qed.

(** ** Monotonicity *)

(** The rounded mantissa before the carry: at most one past the top of
    the binade, at least its bottom. *)
Lemma round_bits_spec p q :
  0 < p -> 0 < q ->
  let f := flog2 p q in let '(n, ex) := round_bits p q in
  ex = Z.max (f - 52) (-1074) /\ 0 <= n /\
  (0 <= f - ex -> 2 ^ (f - ex) <= n <= 2 ^ (f - ex + 1)) /\ (f - ex < 0 -> n <= 1).
Proof.
  intros Hp Hq f. unfold f. pose proof (round_mant_scaled p q Hp Hq) as (Hp' & Hq' & Hex & F1 & F2).
  unfold round_bits. set (f' := flog2 p q) in *. set (ex := fexp64 (f' + 1)) in *.
  destruct (scale2 ex p q) as [p' q'] eqn:Es. cbn [fst snd] in *.
  pose proof (rne_bounds (p' / q') (p' mod q') q') as Hr.
  split; [done|]. split; [|split].
  - pose proof (Z.div_pos p' q' ltac:(lia) Hq'). lia.
  - intros Hj. pose proof (div_of_geb _ p' q' Hj Hq' F1 F2). lia.
  - intros Hj. rewrite (div_of_geb_neg _ p' q' Hj ltac:(lia) Hq' F2) in Hr |- *. lia.
Qed.

Lemma flog2_mono p1 q1 p2 q2 :
  0 < p1 -> 0 < q1 -> 0 < q2 -> p1 * q2 <= p2 * q1 -> flog2 p1 q1 <= flog2 p2 q2.
Proof.
  intros Hp1 Hq1 Hq2 Hle. assert (0 < p2) by nia.
  destruct (flog2_spec p1 q1) as [A1 _]; [done|done|].
  destruct (flog2_spec p2 q2) as [_ B2]; [done|done|].
  destruct (Z.le_gt_cases (flog2 p1 q1) (flog2 p2 q2)) as [|Hlt]; [done|exfalso].
  assert (geb_pow2 (flog2 p1 q1) p2 q2 = true) as C.
  { set (K := Z.abs (flog2 p1 q1)).
    rewrite (geb_pow2_iff _ p1 q1 K) in A1 by lia. rewrite (geb_pow2_iff _ p2 q2 K) by lia.
    pose proof (pow2_pos K ltac:(lia)). pose proof (pow2_pos (flog2 p1 q1 + K) ltac:(lia)).
    generalize dependent (2 ^ K); generalize dependent (2 ^ (flog2 p1 q1 + K)).
    intros X HX Y A1 HY. apply (Z.mul_le_mono_pos_l _ _ q1); [done|].
    pose proof (Z.mul_le_mono_nonneg_l _ _ q2 ltac:(lia) A1).
    pose proof (Z.mul_le_mono_nonneg_r _ _ Y ltac:(lia) Hle). nia. }
  rewrite (geb_pow2_anti (flog2 p1 q1) (flog2 p2 q2 + 1) p2 q2 ltac:(lia) ltac:(lia) C) in B2.
  discriminate.
Qed.

Lemma scale2_le ex p1 q1 p2 q2 :
  p1 * q2 <= p2 * q1 ->
  (scale2 ex p1 q1).1 * (scale2 ex p2 q2).2 <= (scale2 ex p2 q2).1 * (scale2 ex p1 q1).2.
Proof.
  intros H. unfold scale2. destruct (0 <=? ex); cbn [fst snd].
  - pose proof (Z.pow_nonneg 2 ex ltac:(lia)). nia.
  - pose proof (Z.pow_nonneg 2 (- ex) ltac:(lia)). nia.
Qed.

Lemma rne_mono p1 q1 p2 q2 :
  0 <= p1 -> 0 < q1 -> 0 < q2 -> p1 * q2 <= p2 * q1 ->
  rne (p1 / q1) (p1 mod q1) q1 <= rne (p2 / q2) (p2 mod q2) q2.
Proof.
  intros Hp1 Hq1 Hq2 Hle.
  pose proof (Z.div_mod p1 q1 ltac:(lia)). pose proof (Z.mod_pos_bound p1 q1 Hq1).
  pose proof (Z.div_mod p2 q2 ltac:(lia)). pose proof (Z.mod_pos_bound p2 q2 Hq2).
  set (a1 := p1 / q1) in *. set (r1 := p1 mod q1) in *.
  set (a2 := p2 / q2) in *. set (r2 := p2 mod q2) in *.
  pose proof (rne_bounds a1 r1 q1). pose proof (rne_bounds a2 r2 q2).
  assert (a1 <= a2).
  { destruct (Z.le_gt_cases a1 a2) as [|Hc]; [done|exfalso].
    assert (q1 * q2 * (a2 + 1) <= q1 * q2 * a1) by (apply Z.mul_le_mono_nonneg_l; nia).
    nia. }
  destruct (Z.lt_ge_cases a1 a2); [lia|].
  assert (a2 = a1) as Ea by lia. rewrite Ea in *.
  assert (r1 * q2 <= r2 * q1) by nia.
  unfold rne. destruct (Z.compare_spec (2 * r1) q1), (Z.compare_spec (2 * r2) q2);
    try destruct (Z.even a1); nia.
Qed.

(** Values of mantissa-exponent pairs, as integers: every exponent the
    rounding produces is at least [-1074], so [m * 2^(e + 1074)] is the
    value scaled by [2^1074]. *)
Definition mval (me : Z * Z) : Z := me.1 * 2 ^ (me.2 + 1074).

Lemma round_bits_eq p q :
  round_bits p q =
  let ex := fexp64 (flog2 p q + 1) in
  (rne ((scale2 ex p q).1 / (scale2 ex p q).2) ((scale2 ex p q).1 mod (scale2 ex p q).2)
       (scale2 ex p q).2, ex).
Proof. unfold round_bits. by destruct (scale2 _ p q). Qed.

Lemma round_bits_mono p1 q1 p2 q2 :
  0 < p1 -> 0 < q1 -> 0 < q2 -> p1 * q2 <= p2 * q1 ->
  mval (round_bits p1 q1) <= mval (round_bits p2 q2).
Proof.
  intros Hp1 Hq1 Hq2 Hle. assert (Hp2 : 0 < p2) by nia.
  pose proof (flog2_mono p1 q1 p2 q2 Hp1 Hq1 Hq2 Hle) as Hf.
  pose proof (round_bits_spec p1 q1 Hp1 Hq1) as S1. pose proof (round_bits_spec p2 q2 Hp2 Hq2) as S2.
  cbv zeta in S1, S2. pose proof (round_bits_eq p1 q1) as R1. pose proof (round_bits_eq p2 q2) as R2.
  cbv zeta in R1, R2. unfold mval.
  destruct (round_bits p1 q1) as [n1 e1], (round_bits p2 q2) as [n2 e2]. cbn [fst snd].
  injection R1 as Hn1 He1'. injection R2 as Hn2 He2'.
  destruct S1 as (He1 & Hn1p & U1 & L1), S2 as (He2 & Hn2p & U2 & L2).
  set (f1 := flog2 p1 q1) in *. set (f2 := flog2 p2 q2) in *.
  destruct (Z.eq_dec e1 e2) as [Ee|Hne].
  - rewrite <- Ee. apply Z.mul_le_mono_nonneg_r; [apply Z.pow_nonneg; lia|].
    rewrite Hn1, Hn2, <- He1', <- He2', Ee.
    destruct (scale2_pos e2 p1 q1 Hp1 Hq1). destruct (scale2_pos e2 p2 q2 Hp2 Hq2).
    apply rne_mono; [lia|lia|lia|]. by apply scale2_le.
  - assert (e1 < e2) by lia. assert (f2 - e2 = 52) as Hj2 by lia.
    specialize (U2 ltac:(lia)) as [U2 _]. rewrite Hj2 in U2.
    assert (2 ^ (52 + (e2 + 1074)) <= n2 * 2 ^ (e2 + 1074)).
    { rewrite pow2_add by lia. apply Z.mul_le_mono_nonneg_r; [apply Z.pow_nonneg|]; lia. }
    assert (n1 <= 2 ^ (f2 - e1)).
    { destruct (Z.leb_spec 0 (f1 - e1)).
      - etrans; [apply U1; lia|]. apply pow2_le; lia.
      - etrans; [apply L1; lia|]. change 1 with (2 ^ 0). apply pow2_le; lia. }
    assert (n1 * 2 ^ (e1 + 1074) <= 2 ^ (f2 - e1) * 2 ^ (e1 + 1074)).
    { apply Z.mul_le_mono_nonneg_r; [apply Z.pow_nonneg|]; lia. }
    rewrite <- pow2_add in * by lia. replace (f2 - e1 + (e1 + 1074)) with (52 + (e2 + 1074)) in * by lia.
    lia.
Qed.

Definition in_range (me : Z * Z) : Prop :=
  0 <= me.1 < 2 ^ prec /\ ((2 ^ (prec - 1) <= me.1 /\ -1074 <= me.2) \/ me.2 = -1074).

Lemma round_mant_in_range p q : 0 < p -> 0 < q -> in_range (round_mant p q).
Proof. intros Hp Hq. pose proof (round_mant_range p q Hp Hq). by destruct (round_mant p q). Qed.

(** The carry keeps the value. *)
Lemma round_mant_val p q : 0 < p -> 0 < q -> mval (round_mant p q) = mval (round_bits p q).
Proof.
  intros Hp Hq. pose proof (round_bits_spec p q Hp Hq) as Hs. cbv zeta in Hs.
  unfold round_mant. destruct (round_bits p q) as [n ex]. destruct Hs as (He & _).
  unfold mval; cbn [fst snd].
  destruct (Z.eqb_spec n (2 ^ prec)) as [->|]; [|done]. cbn [fst snd].
  replace (ex + 1 + 1074) with (Z.succ (ex + 1074)) by lia. rewrite Z.pow_succ_r by lia.
  change (2 ^ prec) with (2 ^ (prec - 1) * 2). lia.
Qed.

Lemma mval_inj_le me1 me2 :
  in_range me1 -> in_range me2 -> me1.2 <= me2.2 -> mval me1 = mval me2 -> me1 = me2.
Proof.
  destruct me1 as [m1 e1], me2 as [m2 e2]. unfold in_range, mval; cbn [fst snd].
  intros [H1 R1] [H2 R2] Hle Hv. change (2 ^ prec) with (2 ^ (prec - 1) * 2) in *.
  assert (-1074 <= e1) by (destruct R1; lia).
  assert (Hv' : m1 = m2 * 2 ^ (e2 - e1)).
  { apply (Z.mul_reg_r _ _ (2 ^ (e1 + 1074))); [pose proof (pow2_pos (e1 + 1074)); lia|].
    rewrite Hv, <- Z.mul_assoc, <- pow2_add by lia. f_equal. f_equal. lia. }
  destruct (Z.eq_dec e1 e2) as [<-|Hne].
  - rewrite Z.sub_diag, Z.mul_1_r in Hv'. by subst.
  - assert (2 ^ 1 <= 2 ^ (e2 - e1)) by (apply pow2_le; lia).
    assert (2 ^ (prec - 1) <= m2) by (destruct R2; lia). nia.
Qed.

Lemma mval_inj me1 me2 : in_range me1 -> in_range me2 -> mval me1 = mval me2 -> me1 = me2.
Proof.
  intros H1 H2 Hv. destruct (Z.le_ge_cases me1.2 me2.2).
  - by apply mval_inj_le.
  - symmetry. by apply mval_inj_le.
Qed.

(** The range check: an exponent above [emax - prec] is a value of at
    least [2^emax]. *)
Lemma mval_overflow me :
  in_range me -> (emax - prec < me.2 <-> 0 < me.1 /\ 2 ^ (emax + 1074) <= mval me).
Proof.
  destruct me as [m e]. unfold in_range, mval; cbn [fst snd]. intros [Hm R].
  change (2 ^ prec) with (2 ^ 52 * 2) in *. change (2 ^ (prec - 1)) with (2 ^ 52) in *.
  unfold emax, prec in *. split.
  - intros He. destruct R as [[Hm2 _]|]; [|lia].
    split; [pose proof (pow2_pos 52); lia|].
    transitivity (2 ^ 52 * 2 ^ (e + 1074)).
    + rewrite <- pow2_add by lia. apply pow2_le; lia.
    + apply Z.mul_le_mono_nonneg_r; [apply Z.pow_nonneg|]; lia.
  - intros [Hm0 Hv]. destruct (Z.le_gt_cases e 971) as [He|]; [exfalso|lia].
    assert (-1074 <= e) by (destruct R; lia).
    assert (m * 2 ^ (e + 1074) < 2 ^ 53 * 2 ^ (e + 1074)).
    { apply Z.mul_lt_mono_pos_r; [apply pow2_pos; lia|]. change (2 ^ 53) with (2 ^ 52 * 2). lia. }
    rewrite <- pow2_add in * by lia.
    assert (2 ^ (53 + (e + 1074)) <= 2 ^ (1024 + 1074)) by (apply pow2_le; lia). lia.
Qed.

Lemma make_double_cases s me :
  in_range me ->
  (me.1 = 0 /\ make_double s me.1 me.2 = S754_zero s) \/
  (exists mp, me.1 = Zpos mp /\ me.2 <= emax - prec /\
              make_double s me.1 me.2 = S754_finite s mp me.2) \/
  (0 < me.1 /\ emax - prec < me.2 /\ make_double s me.1 me.2 = S754_infinity s).
Proof.
  destruct me as [m e]. intros [Hm _]. cbn [fst snd] in *. unfold make_double.
  destruct m as [|mp|mp]; [by left| |lia]. right.
  destruct (Z.leb_spec e (emax - prec)); [left; by exists mp|right; split; [lia|done]].
Qed.

Lemma round_ratio_mant s p q :
  0 < p -> 0 < q -> round_ratio s p q = make_double s (round_mant p q).1 (round_mant p q).2.
Proof.
  intros Hp Hq. unfold round_ratio. rewrite (proj2 (Z.leb_gt p 0)) by done.
  by destruct (round_mant p q).
Qed.

Lemma mval_pos me : in_range me -> 0 <= mval me.
Proof.
  destruct me as [m e]. unfold in_range, mval; cbn [fst snd]. intros [Hm R].
  assert (-1074 <= e) by (destruct R; lia). pose proof (pow2_pos (e + 1074)). nia.
Qed.

(** The values that round to one double form an interval: a value
    between two that round to [x] rounds to [x]. *)
Theorem round_ratio_interval s p1 q1 p2 q2 p3 q3 :
  0 < p1 -> 0 < q1 -> 0 < q2 -> 0 < q3 ->
  p1 * q2 <= p2 * q1 -> p2 * q3 <= p3 * q2 ->
  round_ratio s p3 q3 = round_ratio s p1 q1 -> round_ratio s p2 q2 = round_ratio s p1 q1.
Proof.
  intros Hp1 Hq1 Hq2 Hq3 H12 H23 E.
  assert (Hp2 : 0 < p2) by nia. assert (Hp3 : 0 < p3) by nia.
  pose proof (round_bits_mono _ _ _ _ Hp1 Hq1 Hq2 H12) as M12.
  pose proof (round_bits_mono _ _ _ _ Hp2 Hq2 Hq3 H23) as M23.
  rewrite <- !round_mant_val in M12, M23 by done.
  pose proof (round_mant_in_range p1 q1 Hp1 Hq1) as I1.
  pose proof (round_mant_in_range p2 q2 Hp2 Hq2) as I2.
  pose proof (round_mant_in_range p3 q3 Hp3 Hq3) as I3.
  rewrite !round_ratio_mant in * by done.
  set (R1 := round_mant p1 q1) in *. set (R2 := round_mant p2 q2) in *.
  set (R3 := round_mant p3 q3) in *.
  pose proof (mval_pos R2 I2).
  destruct (make_double_cases s R1 I1) as [(Hm1 & D1)|[(mp & Hm1 & He1 & D1)|(Hm1 & He1 & D1)]];
    rewrite D1 in E |- *;
    destruct (make_double_cases s R3 I3) as [(Hm3 & D3)|[(mp3 & Hm3 & He3 & D3)|(Hm3 & He3 & D3)]];
    rewrite D3 in E; try discriminate.
  - (* zero: the value of [R3] is zero, hence that of [R2] *)
    assert (mval R2 = 0) as Z2 by (unfold mval in *; rewrite Hm3 in M23; lia).
    destruct (make_double_cases s R2 I2) as [(_ & D2)|[(mp2 & Hm2 & _ & _)|(Hm2 & _)]]; [done| |];
      exfalso; unfold mval in Z2; destruct I2 as [_ R]; assert (-1074 <= R2.2) by (destruct R; lia);
      pose proof (pow2_pos (R2.2 + 1074)); nia.
  - (* finite: [R3 = R1], hence [R2 = R1] *)
    injection E as -> He. assert (R3 = R1) as E31.
    { destruct R3, R1; cbn [fst snd] in *. congruence. }
    rewrite E31 in M23. assert (R2 = R1) as -> by (apply mval_inj; [done|done|lia]).
    by rewrite D1.
  - (* infinite: [R2] is at least [R1] *)
    apply mval_overflow in I1 as I1'. destruct (proj1 I1' He1) as [_ V1].
    destruct (make_double_cases s R2 I2) as [(Hm2 & _)|[(mp2 & Hp2' & He2 & _)|(_ & _ & D2)]]; [| |done];
      exfalso.
    + assert (mval R2 = 0) by (unfold mval; rewrite Hm2; lia).
      pose proof (pow2_pos (emax + 1074) ltac:(unfold emax; lia)). lia.
    + apply mval_overflow in I2. assert (emax - prec < R2.2) by (apply I2; split; lia). lia.
Qed.

(** ** Accuracy *)

(** [rne] is within half a unit of [m + r / q]. *)
Lemma rne_error m r q : 0 <= r < q -> Z.abs (2 * (q * m + r) - 2 * rne m r q * q) <= q.
Proof.
  intros Hr. unfold rne.
  destruct (Z.compare_spec (2 * r) q); [destruct (Z.even m)| |]; nia.
Qed.

(** Half a unit of the scale: [|A| <= Q / 2] is kept by a common factor. *)
Lemma half_unit_scale A Q T : 0 < T -> Z.abs (2 * A) <= Q -> 2 * Z.abs (A * T) <= Q * T.
Proof.
  intros HT HA. rewrite Z.abs_mul, (Z.abs_eq T) by lia.
  rewrite Z.abs_mul in HA. change (Z.abs 2) with 2 in HA. nia.
Qed.

(** The mantissa rounded at the exponent [ex] of the last bit is within
    half a unit of that bit: [|p / q - n * 2^ex| <= 2^ex / 2], written on
    integers scaled by [2^1074 * q]. *)
Lemma round_bits_error p q :
  0 < p -> 0 < q ->
  2 * Z.abs (p * 2 ^ 1074 - mval (round_bits p q) * q) <= 2 ^ ((round_bits p q).2 + 1074) * q.
Proof.
  intros Hp Hq. rewrite round_bits_eq. cbv zeta. unfold mval. cbn [fst snd].
  set (ex := fexp64 (flog2 p q + 1)).
  assert (-1074 <= ex) by (unfold ex; rewrite fexp64_eq; lia).
  destruct (scale2_pos ex p q Hp Hq) as [Hp' Hq'].
  unfold scale2 in *. destruct (Z.leb_spec 0 ex); cbn [fst snd] in *.
  - set (Q := q * 2 ^ ex) in *.
    pose proof (rne_error (p / Q) (p mod Q) Q (Z.mod_pos_bound p Q Hq')) as E.
    rewrite <- Z.div_mod in E by lia. set (n := rne _ _ _) in *.
    rewrite pow2_add by lia.
    replace (p * 2 ^ 1074 - n * (2 ^ ex * 2 ^ 1074) * q) with ((p - n * Q) * 2 ^ 1074) by (unfold Q; ring).
    replace (2 ^ ex * 2 ^ 1074 * q) with (Q * 2 ^ 1074) by (unfold Q; ring).
    apply half_unit_scale; [apply pow2_pos; lia|]. replace (2 * (p - n * Q)) with (2 * p - 2 * n * Q) by ring.
    exact E.
  - set (P := p * 2 ^ (- ex)) in *.
    pose proof (rne_error (P / q) (P mod q) q (Z.mod_pos_bound P q Hq)) as E.
    rewrite <- Z.div_mod in E by lia. set (n := rne _ _ _) in *.
    replace (2 ^ 1074) with (2 ^ (- ex) * 2 ^ (ex + 1074)) by (rewrite <- pow2_add by lia; f_equal; lia).
    replace (p * (2 ^ (- ex) * 2 ^ (ex + 1074)) - n * 2 ^ (ex + 1074) * q)
      with ((P - n * q) * 2 ^ (ex + 1074)) by (unfold P; ring).
    rewrite (Z.mul_comm (2 ^ (ex + 1074)) q). apply half_unit_scale; [apply pow2_pos; lia|]. replace (2 * (P - n * q)) with (2 * P - 2 * n * q) by ring.
    exact E.
Qed.

(** The double nearest to a positive [p / q] is within half a unit
    in its last place: [|p / q - m * 2^e| <= 2^e / 2] for the result
    [m * 2^e], written on integers scaled by [2^1074 * q] (every exponent
    is at least [-1074]).  [JSON.parse] reads every decimal through this
    rounding. *)
Lemma round_ratio_error s p q m e :
  0 < q -> round_ratio s p q = S754_finite s m e ->
  2 * Z.abs (p * 2 ^ 1074 - Zpos m * 2 ^ (e + 1074) * q) <= 2 ^ (e + 1074) * q.
Proof.
  intros Hq H. unfold round_ratio in H. destruct (Z.leb_spec p 0) as [|Hp]; [done|].
  pose proof (round_bits_error p q Hp Hq) as E. rewrite <- round_mant_val in E by done.
  pose proof (round_bits_spec p q Hp Hq) as Hs. cbv zeta in Hs.
  assert (Hex : (round_bits p q).2 <= (round_mant p q).2).
  { unfold round_mant. destruct (round_bits p q) as [n ex]. by destruct (_ =? _); cbn; lia. }
  assert (-1074 <= (round_bits p q).2) by (clear -Hs; destruct (round_bits p q) as [n ex]; destruct Hs as [-> _]; cbn; lia).
  destruct (round_mant p q) as [m' e']. unfold make_double in H. cbn [fst snd] in *.
  destruct m' as [|mp|]; try done. destruct (_ <=? _); [injection H as -> ->|done].
  unfold mval in E. cbn [fst snd] in E.
  etrans; [exact E|]. apply Z.mul_le_mono_nonneg_r; [lia|]. apply pow2_le. lia.
Qed.

(** ** Rounding depends on the value only *)

Lemma geb_pow2_mul c p q t : 0 < t -> geb_pow2 c (p * t) (q * t) = geb_pow2 c p q.
Proof.
  intros Ht. apply Bool.eq_iff_eq_true. set (K := Z.abs c).
  rewrite !(geb_pow2_iff _ _ _ K) by lia.
  rewrite <- !Z.mul_assoc, !(Z.mul_comm t), !Z.mul_assoc.
  split; [apply Z.mul_le_mono_pos_r|apply Z.mul_le_mono_pos_r]; done.
Qed.

Lemma flog2_mul p q t : 0 < p -> 0 < q -> 0 < t -> flog2 (p * t) (q * t) = flog2 p q.
Proof.
  intros Hp Hq Ht. destruct (flog2_spec p q Hp Hq) as [F1 F2].
  apply flog2_unique; [nia|nia| |]; by rewrite geb_pow2_mul.
Qed.

Lemma scale2_mul c p q t :
  scale2 c (p * t) (q * t) = ((scale2 c p q).1 * t, (scale2 c p q).2 * t).
Proof. unfold scale2. destruct (0 <=? c); cbn [fst snd]; f_equal; ring. Qed.

Lemma rne_mul m r q t : 0 < t -> rne m (r * t) (q * t) = rne m r q.
Proof.
  intros Ht. unfold rne.
  destruct (Z.compare_spec (2 * (r * t)) (q * t)), (Z.compare_spec (2 * r) q); try done; nia.
Qed.

Lemma round_mant_mul p q t : 0 < p -> 0 < q -> 0 < t -> round_mant (p * t) (q * t) = round_mant p q.
Proof.
  intros Hp Hq Ht. unfold round_mant. rewrite !round_bits_eq. cbv zeta.
  rewrite flog2_mul, scale2_mul by done. cbn [fst snd].
  destruct (scale2_pos (fexp64 (flog2 p q + 1)) p q Hp Hq) as [_ Hq'].
  rewrite Z.div_mul_cancel_r, Z.mul_mod_distr_r, rne_mul by lia. reflexivity.
Qed.

(** Scaling numerator and denominator changes nothing. *)
Lemma round_ratio_scale s p q t :
  0 < q -> 0 < t -> round_ratio s (p * t) (q * t) = round_ratio s p q.
Proof.
  intros Hq Ht. unfold round_ratio. destruct (Z.leb_spec p 0).
  - by rewrite (proj2 (Z.leb_le (p * t) 0)) by nia.
  - rewrite (proj2 (Z.leb_gt (p * t) 0)) by nia. by rewrite round_mant_mul by lia.
Qed.

Lemma round_dec_shift s c g : round_dec s (c * 10) g = round_dec s c (g + 1).
Proof.
  unfold round_dec. destruct (Z.leb_spec 0 g), (Z.leb_spec 0 (g + 1)); try lia.
  - f_equal. rewrite Z.pow_add_r by lia. ring.
  - assert (g = -1) as -> by lia. cbn -[round_ratio]. rewrite Z.mul_1_r.
    transitivity (round_ratio s (c * 10) (1 * 10)); [reflexivity|]. apply round_ratio_scale; lia.
  - replace (- g) with (- (g + 1) + 1) by lia. rewrite Z.pow_add_r by lia.
    rewrite Z.pow_1_r. apply round_ratio_scale; [apply Z.pow_pos_nonneg|]; lia.
Qed.

Lemma round_dec_valid s m e :
  valid (round_dec s m e) = true /\ is_nan (round_dec s m e) = false.
Proof.
  unfold round_dec. destruct (Z.leb_spec 0 e); apply round_ratio_valid; [lia|].
  apply Z.pow_pos_nonneg; lia.
Qed.

(** ** Decimal expansions of doubles *)

#[export] Instance spec_float_eq_dec : EqDecision double.
Proof. solve_decision. Defined.

(** Every double is a finite decimal: [m * 2^e] is [m * 2^e * 10^0] or,
    for [e < 0], [m * 5^(-e) * 10^e]. *)
Definition exact_decimal (m : positive) (e : Z) : Z * Z :=
  if 0 <=? e then (Zpos m * 2 ^ e, 0) else (Zpos m * 5 ^ (- e), e).

Lemma exact_decimal_round s m e :
  valid (S754_finite s m e) = true ->
  round_dec s (exact_decimal m e).1 (exact_decimal m e).2 = S754_finite s m e.
Proof.
  intros Hv. unfold exact_decimal, round_dec. destruct (Z.leb_spec 0 e); cbn [fst snd].
  - apply (round_ratio_exact _ _ _ _ _ 0); [lia|lia|lia| |done].
    rewrite Z.add_0_r. cbn. ring.
  - rewrite (proj2 (Z.leb_gt 0 e)) by lia.
    apply (round_ratio_exact _ _ _ _ _ (- e)); [apply Z.pow_pos_nonneg; lia|lia|lia| |done].
    replace (e + - e) with 0 by lia. change 10 with (2 * 5). rewrite Z.pow_mul_l. cbn. ring.
Qed.

(** ** Signs *)

Definition with_sign (s : bool) (x : double) : double :=
  match x with
  | S754_zero _ => S754_zero s
  | S754_infinity _ => S754_infinity s
  | S754_finite _ m e => S754_finite s m e
  | S754_nan => S754_nan
  end.

Lemma round_ratio_sign s p q : round_ratio s p q = with_sign s (round_ratio false p q).
Proof.
  unfold round_ratio. destruct (p <=? 0); [done|]. destruct (round_mant p q) as [m ex].
  unfold make_double. destruct m; [done| |done]. by destruct (ex <=? _).
Qed.

Lemma round_dec_sign s m e : round_dec s m e = with_sign s (round_dec false m e).
Proof. unfold round_dec. destruct (0 <=? e); apply round_ratio_sign. Qed.

Lemma of_Z_valid z : valid (of_Z z) = true /\ is_nan (of_Z z) = false.
Proof. destruct z; cbn [of_Z]; [done|apply round_ratio_valid; lia|apply round_ratio_valid; lia]. Qed.

(** ** Integers *)

(** An integer up to [2^53] is a double: its rounding is exact. *)
Lemma of_int_exact z :
  0 < z <= 2 ^ prec ->
  exists m e, round_ratio false z 1 = S754_finite false m e /\ z * 2 ^ 1074 = Zpos m * 2 ^ (e + 1074).
Proof.
  intros Hz. destruct (Z.eq_dec z (2 ^ prec)) as [->|Hne].
  { exists (2 ^ 52)%positive, 1. split; vm_compute; reflexivity. }
  destruct (Z.log2_spec z ltac:(lia)) as [L1 L2]. set (L := Z.log2 z) in *.
  assert (L <= 52) by (enough (L < 53) by lia; apply Z.log2_lt_pow2; [lia|unfold prec in *; lia]).
  pose proof (Z.log2_nonneg z). set (k := 52 - L).
  assert (Ek : 2 ^ L * 2 ^ k = 2 ^ 52) by (rewrite <- pow2_add by lia; f_equal; lia).
  pose proof (pow2_pos k ltac:(lia)). set (m := z * 2 ^ k).
  assert (Hm : 2 ^ 52 <= m < 2 ^ 53).
  { unfold m. split; [nia|]. replace (2 ^ 53) with (2 ^ (L + 1) * 2 ^ k); [nia|].
    rewrite <- pow2_add by lia. f_equal. lia. }
  exists (Z.to_pos m), (- k). rewrite Z2Pos.id by lia. split.
  - apply (round_ratio_exact _ _ _ _ _ k); [lia|lia|lia|rewrite Z2Pos.id by lia|].
    + replace (- k + k) with 0 by lia. unfold m. ring.
    + unfold valid, valid_binary, bounded. apply andb_true_intro. split.
      * apply canonical_range; unfold prec; [lia|left; lia].
      * apply Z.leb_le. unfold emax, prec. lia.
  - replace (2 ^ 1074) with (2 ^ k * 2 ^ (- k + 1074)) by (rewrite <- pow2_add by lia; f_equal; lia).
    unfold m. ring.
Qed.

(** Distinct integers up to [2^53] are distinct doubles. *)
Lemma of_int_inj a b :
  0 < a <= 2 ^ prec -> 0 < b <= 2 ^ prec -> round_ratio false a 1 = round_ratio false b 1 -> a = b.
Proof.
  intros Ha Hb E. destruct (of_int_exact a Ha) as (m & e & Ea & Va).
  destruct (of_int_exact b Hb) as (m' & e' & Eb & Vb). rewrite Ea, Eb in E. injection E as <- <-.
  apply (Z.mul_reg_r _ _ (2 ^ 1074)); [pose proof (pow2_pos 1074); lia|]. lia.
Qed.

