(* ===== verification/Number.v ===== *)
(** * Number text: [Number::toString] and JSON number literals

    [JSON.stringify] prints a finite number with [Number::toString]
    (ECMA-262 6.1.6.1.20); [JSON.parse] reads the number grammar of
    ECMA-404 and rounds its value to the nearest double
    ([src/static/script.js] lines 39-42 and 45).

    [number_to_string] finds the shortest decimal that rounds back to the
    double: for [k = 1, 2, ...] significant digits it tries the two
    [k]-digit neighbours of the exact value ([pick]), keeps those that
    round back, and of two the nearer, the even one on a tie (the choice
    ECMA-262's note recommends and engines make).  The search ends at the
    latest at the exact expansion ([exact_decimal]), which rounds back by
    [exact_decimal_round]; its fuel is the number of digits of that
    expansion.  The digits are then laid out as ECMA-262 prescribes:
    plain up to [10^21], with a point, with leading zeros down to
    [10^-6], or with an exponent.

    [parse_number] is the JSON grammar: an optional minus, [0] or a
    non-zero digit and more digits, an optional point with at least one
    digit, an optional [e] or [E] with an optional sign and at least one
    digit; the value [int.frac * 10^exp] is rounded by
    [round_dec]: a literal above the range is an infinity, [-0] is the
    negative zero.

    The lemmas: the text of a finite double reads back as the double
    ([number_to_string_parse]); its digits are as few as any decimal that
    reads as the double has ([shortest_least]); an integer below [2^53]
    prints as its plain
    decimal [dec_N] ([number_to_string_int]); what [parse_number] returns
    is a valid double, never NaN ([parse_number_valid]). *)

From S2P Require Import Prelude Float64.

Local Open Scope Z_scope.

(** ** Code units of number text *)

Definition cu_plus : N := 43.
Definition cu_minus : N := 45.
Definition cu_dot : N := 46.
Definition cu_zero : N := 48.
Definition cu_E : N := 69.
Definition cu_e : N := 101.

Definition is_dec_digit (c : N) : bool := bool_decide (48 <= c <= 57)%N.

(** ** The shortest decimal *)

(** The number of decimal digits of a positive integer. *)
Definition ndigits (z : Z) : Z := Z.of_nat (length (dec_digits (Z.to_N z))).

(** [c * 10^g] rounds back to [x]. *)
Definition round_trips (x : double) (c g : Z) : bool := bool_decide (round_dec false c g = x).

(** The [k]-digit candidates for the exact value [S * 10^E] with [d]
    digits dropped: [S / 10^d] and the next one up (unless the drop is
    exact); of two that round back, the nearer, the even one on a tie. *)
Definition pick (x : double) (S d g : Z) : option Z :=
  let lo := S / 10 ^ d in
  let r := S mod 10 ^ d in
  let hi := if r =? 0 then lo else lo + 1 in
  match round_trips x lo g, round_trips x hi g with
  | true, true =>
      if lo =? hi then Some lo else
      match Z.compare (2 * r) (10 ^ d) with
      | Lt => Some lo
      | Gt => Some hi
      | Eq => if Z.even lo then Some lo else Some hi
      end
  | true, false => Some lo
  | false, true => Some hi
  | false, false => None
  end.

(** Try [d = L - 1, L - 2, ..., 0] digits dropped, that is [k = 1, ...,
    L] digits kept. *)
Fixpoint shortest_search (fuel : nat) (x : double) (S E d : Z) : Z * Z :=
  match fuel with
  | O => (S, E)
  | S f =>
      match pick x S d (E + d) with
      | Some c => (c, E + d)
      | None => shortest_search f x S E (d - 1)
      end
  end.

(** A candidate [10^k] found at [k] digits is [1] at [k + 1]. *)
Fixpoint strip_zeros (fuel : nat) (c g : Z) : Z * Z :=
  match fuel with
  | O => (c, g)
  | S f => if (0 <? c) && (c mod 10 =? 0) then strip_zeros f (c / 10) (g + 1) else (c, g)
  end.

(** The digits [s] and exponent [g] of the shortest decimal [s * 10^g]
    that rounds to the positive double [m * 2^e]. *)
Definition shortest (m : positive) (e : Z) : Z * Z :=
  let S := (exact_decimal m e).1 in
  let E := (exact_decimal m e).2 in
  let L := ndigits S in
  let '(c, g) := shortest_search (Z.to_nat L) (S754_finite false m e) S E (L - 1) in
  strip_zeros (Z.to_nat (ndigits c)) c g.

(** ** Layout *)

Definition digits_text (ds : list N) : jsstr := map (N.add 48) ds.

Definition exponent_text (e : Z) : jsstr :=
  (if 0 <? e then cu_plus else cu_minus) :: dec_N (Z.to_N (Z.abs e)).

(** Steps 6-10 of [Number::toString] for the digits [ds] ([k] of them)
    of a value [0.ds * 10^n]. *)
Definition format_decimal (ds : list N) (n : Z) : jsstr :=
  let k := Z.of_nat (length ds) in
  if (k <=? n) && (n <=? 21) then digits_text ds ++ repeat cu_zero (Z.to_nat (n - k))
  else if (0 <? n) && (n <=? 21) then
    digits_text (take (Z.to_nat n) ds) ++ cu_dot :: digits_text (drop (Z.to_nat n) ds)
  else if (-6 <? n) && (n <=? 0) then
    cu_zero :: cu_dot :: repeat cu_zero (Z.to_nat (- n)) ++ digits_text ds
  else
    match ds with
    | [] => []
    | d :: ds' =>
        digits_text [d] ++ (match ds' with [] => [] | _ => cu_dot :: digits_text ds' end)
        ++ cu_e :: exponent_text (n - 1)
    end.

(** [Number::toString(x)] in radix 10. *)
Definition number_to_string (x : double) : jsstr :=
  match x with
  | S754_nan => ‹"NaN"›
  | S754_zero _ => [cu_zero]
  | S754_infinity s => (if s then [cu_minus] else []) ++ ‹"Infinity"›
  | S754_finite s m e =>
      let '(c, g) := shortest m e in
      let ds := dec_digits (Z.to_N c) in
      (if s then [cu_minus] else []) ++ format_decimal ds (Z.of_nat (length ds) + g)
  end.

(** ** JSON number literals *)

(** A run of digits: its value on top of [acc], its length on top of
    [cnt], and the rest. *)
Fixpoint read_digits (acc : N) (cnt : nat) (s : jsstr) : N * nat * jsstr :=
  match s with
  | c :: s' =>
      if is_dec_digit c then read_digits (10 * acc + (c - 48))%N (S cnt) s' else (acc, cnt, s)
  | [] => (acc, cnt, [])
  end.

Definition starts_digit (s : jsstr) : bool :=
  match s with c :: _ => is_dec_digit c | [] => false end.

(** The integer part: [0], or a non-zero digit and more digits. *)
Definition parse_int (s : jsstr) : option (N * jsstr) :=
  match s with
  | c :: s' =>
      if decide (c = cu_zero) then Some (0%N, s')
      else if is_dec_digit c then
        let '(v, _, r) := read_digits (c - 48)%N 0 s' in Some (v, r)
      else None
  | [] => None
  end.

(** The optional fraction: its digits' value and count. *)
Definition parse_frac (s : jsstr) : option (N * nat * jsstr) :=
  match s with
  | c :: s' =>
      if decide (c = cu_dot) then
        if starts_digit s' then Some (read_digits 0 0 s') else None
      else Some (0%N, 0%nat, s)
  | [] => Some (0%N, 0%nat, [])
  end.

(** The optional sign of an exponent. *)
Definition exp_sign (s : jsstr) : bool * jsstr :=
  match s with
  | c :: t =>
      if decide (c = cu_minus) then (true, t)
      else if decide (c = cu_plus) then (false, t) else (false, s)
  | [] => (false, s)
  end.

(** The optional exponent. *)
Definition parse_exp (s : jsstr) : option (Z * jsstr) :=
  match s with
  | c :: s' =>
      if decide (c = cu_e \/ c = cu_E) then
        let '(neg, s'') := exp_sign s' in
        if starts_digit s'' then
          let '(v, _, r) := read_digits 0 0 s'' in
          Some (if neg then - Z.of_N v else Z.of_N v, r)
        else None
      else Some (0, s)
  | [] => Some (0, [])
  end.

(** The optional minus of a number. *)
Definition num_sign (s : jsstr) : bool * jsstr :=
  match s with
  | c :: s' => if decide (c = cu_minus) then (true, s') else (false, s)
  | [] => (false, s)
  end.

(** A JSON number and the text after it; the value of
    [int.frac * 10^exp] rounded to the nearest double. *)
Definition parse_number (s : jsstr) : option (double * jsstr) :=
  let '(neg, s1) := num_sign s in
  match parse_int s1 with
  | None => None
  | Some (i, s2) =>
      match parse_frac s2 with
      | None => None
      | Some (f, nf, s3) =>
          match parse_exp s3 with
          | None => None
          | Some (x, s4) =>
              Some (round_dec neg (Z.of_N i * 10 ^ Z.of_nat nf + Z.of_N f) (x - Z.of_nat nf), s4)
          end
      end
  end.

(** ** Digit sequences *)

Abbreviation digits_ok ds := (Forall (fun d => d < 10)%N ds).

Lemma digits_value_acc acc ds :
  digits_value acc ds = (acc * 10 ^ N.of_nat (length ds) + digits_value 0 ds)%N.
Proof.
  revert acc. induction ds as [|d ds IH]; intros acc; cbn [digits_value length]; [lia|].
  rewrite IH, (IH (10 * 0 + d)%N), Nat2N.inj_succ, N.pow_succ_r'. lia.
Qed.

Lemma digits_value_lt ds : digits_ok ds -> (digits_value 0 ds < 10 ^ N.of_nat (length ds))%N.
Proof.
  induction 1 as [|d ds Hd Hds IH]; cbn [digits_value length]; [simpl; lia|].
  rewrite digits_value_acc, Nat2N.inj_succ, N.pow_succ_r'. nia.
Qed.

Lemma digits_value_cons d l :
  digits_value 0 (d :: l) = (d * 10 ^ N.of_nat (length l) + digits_value 0 l)%N.
Proof. cbn [digits_value]. rewrite digits_value_acc. lia. Qed.

Lemma digits_value_zeros_l j ds : digits_value 0 (repeat 0%N j ++ ds) = digits_value 0 ds.
Proof. induction j; simpl; [done|]. exact IHj. Qed.

Lemma digits_value_zeros_r ds j :
  digits_value 0 (ds ++ repeat 0%N j) = (digits_value 0 ds * 10 ^ N.of_nat j)%N.
Proof.
  rewrite digits_value_app, digits_value_acc, repeat_length.
  replace (digits_value 0 (repeat 0%N j)) with 0%N by (rewrite <- (app_nil_r (repeat _ _)),
    digits_value_zeros_l; done). lia.
Qed.

Lemma digits_value_split n ds :
  digits_value 0 ds =
  (digits_value 0 (take n ds) * 10 ^ N.of_nat (length (drop n ds)) + digits_value 0 (drop n ds))%N.
Proof. rewrite <- (take_drop n ds) at 1. by rewrite digits_value_app, digits_value_acc. Qed.

Lemma is_dec_digit_text d : (d < 10)%N -> is_dec_digit (48 + d) = true.
Proof. intros. unfold is_dec_digit. apply bool_decide_true. lia. Qed.

Lemma read_digits_spec acc cnt ds r :
  digits_ok ds -> starts_digit r = false ->
  read_digits acc cnt (digits_text ds ++ r) = (digits_value acc ds, (cnt + length ds)%nat, r).
Proof.
  revert acc cnt. induction ds as [|d ds IH]; intros acc cnt Hds Hr; cbn [digits_text map app].
  - rewrite Nat.add_0_r. destruct r as [|c r]; [done|]. cbn in Hr |- *. by rewrite Hr.
  - apply list.Forall_cons in Hds as [Hd Hds]. cbn [read_digits]. rewrite is_dec_digit_text by done.
    rewrite IH by done. cbn [digits_value length]. replace (48 + d - 48)%N with d by lia.
    f_equal. f_equal. lia.
Qed.

(** The digits of a positive [z]: [ndigits z] of them, the first not
    zero. *)
Lemma dec_digits_pos z :
  0 < z ->
  digits_ok (dec_digits (Z.to_N z)) /\ Z.of_N (digits_value 0 (dec_digits (Z.to_N z))) = z /\
  exists d ds, dec_digits (Z.to_N z) = d :: ds /\ (0 < d)%N.
Proof.
  intros Hz. destruct (dec_digits_spec (Z.to_N z)) as (Hv & Hd & d & ds & E & H0).
  split; [done|]. split; [rewrite Hv; lia|]. exists d, ds. split; [done|].
  destruct (N.eq_dec d 0) as [->|]; [|lia]. destruct (H0 eq_refl). lia.
Qed.

Lemma ndigits_spec z : 0 < z -> 10 ^ (ndigits z - 1) <= z < 10 ^ ndigits z.
Proof.
  intros Hz. destruct (dec_digits_pos z Hz) as (Hd & Hv & d & ds & E & Hd0).
  unfold ndigits. rewrite E in Hd, Hv |- *. cbn [length].
  apply list.Forall_cons in Hd as [Hd1 Hds]. cbn [digits_value] in Hv.
  rewrite digits_value_acc in Hv. pose proof (digits_value_lt ds Hds).
  set (L := N.of_nat (length ds)) in *.
  assert (Z.of_nat (S (length ds)) = Z.of_N L + 1) as -> by lia.
  rewrite Z.add_simpl_r, Z.pow_add_r, Z.pow_1_r by lia.
  assert (Z.of_N (10 ^ L) = 10 ^ Z.of_N L) as <- by (rewrite N2Z.inj_pow; done).
  generalize dependent (10 ^ L)%N. intros P Hv HP. nia.
Qed.

Lemma ndigits_pos z : 0 < z -> 1 <= ndigits z.
Proof.
  intros Hz. destruct (dec_digits_pos z Hz) as (_ & _ & d & ds & E & _).
  unfold ndigits. rewrite E. cbn [length]. lia.
Qed.

(** ** The search *)

Lemma pick_some x S d g c : pick x S d g = Some c -> round_trips x c g = true.
Proof.
  unfold pick. set (lo := S / 10 ^ d). set (hi := if S mod 10 ^ d =? 0 then lo else lo + 1).
  destruct (round_trips x lo g) eqn:E1, (round_trips x hi g) eqn:E2; try (by intros [= <-]).
  destruct (lo =? hi); [by intros [= <-]|].
  destruct (Z.compare _ _); [destruct (Z.even lo)| |]; by intros [= <-].
Qed.

(** The candidates are [S / 10^d] and one more. *)
Lemma pick_cases x S d g c :
  pick x S d g = Some c -> c = S / 10 ^ d \/ c = S / 10 ^ d + 1.
Proof.
  unfold pick. set (lo := S / 10 ^ d). set (hi := if S mod 10 ^ d =? 0 then lo else lo + 1).
  assert (hi = lo \/ hi = lo + 1) by (unfold hi; destruct (_ =? 0); auto).
  destruct (round_trips x lo g), (round_trips x hi g); try (intros [= <-]; by auto); try done.
  destruct (lo =? hi); [intros [= <-]; by auto|].
  destruct (Z.compare _ _); [destruct (Z.even lo)| |]; intros [= <-]; by auto.
Qed.

(** With nothing dropped, the exact value itself is found. *)
Lemma pick_exact x S g : round_trips x S g = true -> pick x S 0 g = Some S.
Proof.
  intros H. unfold pick. rewrite Z.pow_0_r, Z.div_1_r, Z.mod_1_r. cbn -[round_trips].
  rewrite H, Z.eqb_refl. reflexivity.
Qed.

(** The search stops at the first [d'] (the most dropped digits) where a
    candidate rounds back, and there is one by [d' = 0] at the latest. *)
Lemma digit_search_spec f x S E d :
  0 <= d -> Z.of_nat f = d + 1 -> round_trips x S E = true ->
  exists d' c, 0 <= d' <= d /\ pick x S d' (E + d') = Some c /\ shortest_search f x S E d = (c, E + d') /\
    forall d'', d' < d'' <= d -> pick x S d'' (E + d'') = None.
Proof.
  revert d. induction f as [|f IH]; intros d Hd0 Hf Hrt; [lia|]. cbn [shortest_search].
  destruct (pick x S d (E + d)) as [c|] eqn:Ep.
  - exists d, c. split; [lia|]. split; [done|]. split; [done|]. intros; lia.
  - destruct f as [|f'].
    + assert (d = 0) as -> by lia. rewrite Z.add_0_r, pick_exact in Ep by done. discriminate.
    + destruct (IH (d - 1)) as (d' & c & Hd & Hp & Hs & Hn); [lia|lia|done|].
      exists d', c. split; [lia|]. split; [done|]. split; [done|].
      intros d'' Hd''. destruct (Z.eq_dec d'' d) as [->|]; [done|]. apply Hn; lia.
Qed.

Lemma strip_zeros_spec fuel c g :
  0 < c ->
  0 < (strip_zeros fuel c g).1 /\
  round_dec false (strip_zeros fuel c g).1 (strip_zeros fuel c g).2 = round_dec false c g.
Proof.
  revert c g. induction fuel as [|f IH]; intros c g Hc; cbn [strip_zeros]; [done|].
  destruct (Z.ltb_spec 0 c), (Z.eqb_spec (c mod 10) 0) as [Hm|]; cbn [andb]; try done.
  assert (Hc' : 0 < c / 10) by (pose proof (Z.div_mod c 10); lia).
  destruct (IH (c / 10) (g + 1) Hc') as [H1 H2]. split; [done|]. rewrite H2.
  rewrite <- round_dec_shift. f_equal. pose proof (Z.div_mod c 10). lia.
Qed.

Lemma exact_decimal_pos m e : 0 < (exact_decimal m e).1.
Proof.
  unfold exact_decimal. destruct (Z.leb_spec 0 e); cbn [fst].
  - pose proof (pow2_pos e ltac:(lia)). nia.
  - pose proof (Z.pow_pos_nonneg 5 (- e) ltac:(lia) ltac:(lia)). nia.
Qed.

(** The shortest decimal found rounds to the double. *)
Lemma shortest_spec m e :
  valid (S754_finite false m e) = true ->
  0 < (shortest m e).1 /\ round_dec false (shortest m e).1 (shortest m e).2 = S754_finite false m e.
Proof.
  intros Hv. unfold shortest. set (S := (exact_decimal m e).1). set (E := (exact_decimal m e).2).
  pose proof (exact_decimal_pos m e) as HS. fold S in HS.
  pose proof (ndigits_spec S HS) as [HL1 HL2].
  assert (1 <= ndigits S) by (apply ndigits_pos; done).
  destruct (digit_search_spec (Z.to_nat (ndigits S)) (S754_finite false m e) S E (ndigits S - 1))
    as (d' & c & Hd & Hp & Hs & _); [lia|lia|by apply bool_decide_true, exact_decimal_round|].
  rewrite Hs. pose proof (pick_some _ _ _ _ _ Hp) as Hrt. apply bool_decide_eq_true in Hrt.
  assert (0 < c).
  { destruct (pick_cases _ _ _ _ _ Hp) as [->| ->];
      assert (10 ^ d' <= S) by (transitivity (10 ^ (ndigits S - 1)); [apply Z.pow_le_mono_r; lia|exact HL1]);
      pose proof (Z.div_le_lower_bound S (10 ^ d') 1 ltac:(apply Z.pow_pos_nonneg; lia) ltac:(lia));
      lia. }
  destruct (strip_zeros_spec (Z.to_nat (ndigits c)) c (E + d')) as [H1 H2]; [done|].
  split; [done|]. by rewrite H2.
Qed.

(** ** Reading back the layout *)

(** What may follow a number in JSON text without continuing it. *)
Definition no_number_cont (r : jsstr) : bool :=
  match r with
  | [] => true
  | c :: _ => negb (is_dec_digit c) && negb (bool_decide (c = cu_dot))
              && negb (bool_decide (c = cu_e \/ c = cu_E))
  end.

Lemma no_cont_digit r : no_number_cont r = true -> starts_digit r = false.
Proof. destruct r as [|c r]; [done|]. cbn. by destruct (is_dec_digit c). Qed.

Lemma no_cont_frac r : no_number_cont r = true -> parse_frac r = Some (0%N, 0%nat, r).
Proof.
  destruct r as [|c r]; [done|]. cbn. intros H.
  apply andb_prop in H as [H _]. apply andb_prop in H as [_ H].
  rewrite decide_False; [done|]. intros ->. by rewrite bool_decide_true in H.
Qed.

Lemma no_cont_exp r : no_number_cont r = true -> parse_exp r = Some (0, r).
Proof.
  destruct r as [|c r]; [done|]. cbn. intros H. apply andb_prop in H as [_ H].
  rewrite decide_False; [done|]. intros Hc. by rewrite bool_decide_true in H.
Qed.

Lemma digits_text_app ds1 ds2 : digits_text (ds1 ++ ds2) = digits_text ds1 ++ digits_text ds2.
Proof. apply map_app. Qed.

Lemma digits_text_zeros j : digits_text (repeat 0%N j) = repeat cu_zero j.
Proof. induction j; simpl; [done|]. by rewrite IHj. Qed.

Lemma digits_ok_zeros j : digits_ok (repeat 0%N j).
Proof. induction j; constructor; [lia|done]. Qed.

(** A digit run with a non-zero first digit, as the integer part. *)
Lemma parse_int_digits d ds t :
  (0 < d)%N -> digits_ok (d :: ds) -> starts_digit t = false ->
  parse_int (digits_text (d :: ds) ++ t) = Some (digits_value 0 (d :: ds), t).
Proof.
  intros Hd Hds Ht. apply list.Forall_cons in Hds as [Hd1 Hds].
  cbn [digits_text map app parse_int]. rewrite decide_False by (unfold cu_zero; lia).
  rewrite is_dec_digit_text by done. replace (48 + d - 48)%N with d by lia.
  rewrite read_digits_spec by done. cbn [digits_value]. by replace (10 * 0 + d)%N with d by lia.
Qed.

Lemma parse_frac_digits fs t :
  fs <> [] -> digits_ok fs -> starts_digit t = false ->
  parse_frac (cu_dot :: digits_text fs ++ t) = Some (digits_value 0 fs, length fs, t).
Proof.
  intros Hne Hfs Ht. cbn [parse_frac]. rewrite decide_True by done.
  destruct fs as [|f fs]; [done|]. apply list.Forall_cons in Hfs as [Hf Hfs'].
  cbn [digits_text map app starts_digit]. rewrite is_dec_digit_text by done.
  change ((48 + f)%N :: map (N.add 48) fs ++ t) with (digits_text (f :: fs) ++ t).
  by rewrite read_digits_spec by (by constructor || done).
Qed.

Lemma parse_exp_text x t :
  starts_digit t = false -> parse_exp (cu_e :: exponent_text x ++ t) = Some (x, t).
Proof.
  intros Ht. cbn [parse_exp]. rewrite decide_True by (by left).
  unfold exponent_text. destruct (dec_digits_spec (Z.to_N (Z.abs x))) as (Hv & Hds & d & ds & E & _).
  assert (Hs : dec_N (Z.to_N (Z.abs x)) = digits_text (d :: ds)) by (unfold dec_N; by rewrite E).
  rewrite E in Hv, Hds. apply list.Forall_cons in Hds as [Hd Hds'].
  assert (Hr : read_digits 0 0 (dec_N (Z.to_N (Z.abs x)) ++ t)
               = (Z.to_N (Z.abs x), length (d :: ds), t)).
  { rewrite Hs, read_digits_spec by (by constructor || done). by rewrite Hv. }
  assert (Hst : starts_digit (dec_N (Z.to_N (Z.abs x)) ++ t) = true).
  { rewrite Hs. cbn. by apply is_dec_digit_text. }
  destruct (Z.ltb_spec 0 x); cbn [app exp_sign].
  - rewrite decide_False by (unfold cu_plus, cu_minus; lia). rewrite decide_True by done.
    rewrite Hst, Hr. do 2 f_equal. lia.
  - rewrite decide_True by done. rewrite Hst, Hr. do 2 f_equal. lia.
Qed.

Lemma parse_int_minus t : parse_int (cu_minus :: t) = None.
Proof.
  cbn. rewrite decide_False by (unfold cu_zero, cu_minus; lia).
  unfold is_dec_digit. by rewrite bool_decide_false by (unfold cu_minus; lia).
Qed.

(** [parse_number] on a sign and the three parts of a literal. *)
Lemma parse_number_parts (neg : bool) s1 i s2 f nf s3 x s4 :
  parse_int s1 = Some (i, s2) -> parse_frac s2 = Some (f, nf, s3) -> parse_exp s3 = Some (x, s4) ->
  parse_number ((if neg then [cu_minus] else []) ++ s1)
  = Some (round_dec neg (Z.of_N i * 10 ^ Z.of_nat nf + Z.of_N f) (x - Z.of_nat nf), s4).
Proof.
  intros H1 H2 H3. unfold parse_number. destruct neg; cbn [app num_sign].
  - rewrite decide_True by done. by rewrite H1, H2, H3.
  - destruct s1 as [|c s1']; [done|]. cbn [num_sign].
    rewrite decide_False; [by rewrite H1, H2, H3|]. intros ->. by rewrite parse_int_minus in H1.
Qed.

Section layouts.
(** The digits [ds] of a positive [c]. *)
Variable (c : Z) (d : N) (ds' : list N).
Hypothesis Hd : (0 < d)%N.
Hypothesis Hds : digits_ok (d :: ds').
Hypothesis Hv : Z.of_N (digits_value 0 (d :: ds')) = c.
Variable (neg : bool) (r : jsstr).
Hypothesis Hr : no_number_cont r = true.

Let ds := d :: ds'.
Let k := Z.of_nat (length ds).

Lemma layout_plain n :
  k <= n ->
  parse_number ((if neg then [cu_minus] else []) ++
                (digits_text ds ++ repeat cu_zero (Z.to_nat (n - k))) ++ r)
  = Some (round_dec neg c (n - k), r).
Proof.
  intros Hkn. rewrite <- digits_text_zeros, <- digits_text_app. unfold ds.
  change ((d :: ds') ++ repeat 0%N (Z.to_nat (n - k))) with (d :: (ds' ++ repeat 0%N (Z.to_nat (n - k)))).
  erewrite parse_number_parts;
    [|apply parse_int_digits; [done|change (digits_ok ((d :: ds') ++ repeat 0%N (Z.to_nat (n - k))));
                                    apply Forall_app; split; [done|apply digits_ok_zeros]
                               |by apply no_cont_digit]
     |by apply no_cont_frac|by apply no_cont_exp].
  f_equal. f_equal. unfold round_dec. cbn [Z.of_nat].
  rewrite (proj2 (Z.leb_le 0 (n - k))) by lia. rewrite Z.add_0_r, Z.sub_0_r. cbn -[round_ratio].
  pose proof (digits_value_zeros_r (d :: ds') (Z.to_nat (n - k))) as Hz.
  cbn [app digits_value] in Hz. pose proof Hv as Hv'. cbn [digits_value] in Hv'.
  f_equal. rewrite Hz, N2Z.inj_mul, N2Z.inj_pow, Hv'. cbn.
  rewrite nat_N_Z, Z2Nat.id by lia. cbn [Z.of_nat]. rewrite Z.pow_0_r. lia.
Qed.
Lemma starts_digit_dot t : starts_digit (cu_dot :: t) = false.
Proof. reflexivity. Qed.

Lemma starts_digit_e t : starts_digit (cu_e :: t) = false.
Proof. reflexivity. Qed.

Lemma layout_point n :
  0 < n < k ->
  parse_number ((if neg then [cu_minus] else []) ++
                (digits_text (take (Z.to_nat n) ds) ++ cu_dot :: digits_text (drop (Z.to_nat n) ds)) ++ r)
  = Some (round_dec neg c (n - k), r).
Proof.
  intros Hn. unfold k, ds in Hn. cbn [length] in Hn. rewrite <- app_assoc. cbn [app].
  destruct (Z.to_nat n) as [|j] eqn:Ej; [lia|].
  assert (Hdrop : drop (S j) ds <> []).
  { intros H. apply (f_equal length) in H. rewrite length_drop in H. cbn in H. lia. }
  assert (Hok : digits_ok (drop (S j) ds)) by (by apply Forall_drop).
  erewrite parse_number_parts;
    [|apply (parse_int_digits d (take j ds')); [done|apply (Forall_take _ (S j) ds Hds)|apply starts_digit_dot]
     |apply parse_frac_digits; [done|done|by apply no_cont_digit]
     |by apply no_cont_exp].
  f_equal. f_equal. f_equal.
  - pose proof (digits_value_split (S j) ds) as Hs. fold ds in Hv. rewrite <- Hv, Hs.
    change (take (S j) ds) with (d :: take j ds').
    rewrite N2Z.inj_add, N2Z.inj_mul, N2Z.inj_pow. by rewrite nat_N_Z.
  - rewrite length_drop. unfold k, ds. cbn [length]. lia.
Qed.

Lemma layout_small n :
  n <= 0 ->
  parse_number ((if neg then [cu_minus] else []) ++
                (cu_zero :: cu_dot :: repeat cu_zero (Z.to_nat (- n)) ++ digits_text ds) ++ r)
  = Some (round_dec neg c (n - k), r).
Proof.
  intros Hn. rewrite <- digits_text_zeros, <- digits_text_app. cbn [app].
  erewrite parse_number_parts;
    [|cbn [parse_int]; rewrite decide_True by done; reflexivity
     |apply parse_frac_digits;
       [destruct (Z.to_nat (- n)); discriminate
       |apply Forall_app; split; [apply digits_ok_zeros|done]
       |by apply no_cont_digit]
     |by apply no_cont_exp].
  f_equal. f_equal. f_equal.
  - rewrite digits_value_zeros_l. fold ds in Hv. rewrite Hv. cbn. lia.
  - rewrite length_app, repeat_length. unfold k. lia.
Qed.

Lemma layout_exp n :
  parse_number ((if neg then [cu_minus] else []) ++
                (digits_text [d] ++ (match ds' with [] => [] | _ => cu_dot :: digits_text ds' end)
                 ++ cu_e :: exponent_text (n - 1)) ++ r)
  = Some (round_dec neg c (n - k), r).
Proof.
  rewrite <- !app_assoc. apply list.Forall_cons in Hds as Hds2. destruct Hds2 as [Hd1 Hds'].
  destruct ds' as [|d' ds''] eqn:E.
  - cbn [app]. change (digits_text [d] ++ cu_e :: exponent_text (n - 1) ++ r)
      with (digits_text [d] ++ cu_e :: exponent_text (n - 1) ++ r).
    erewrite parse_number_parts;
      [|apply (parse_int_digits d []); [done|by constructor|apply starts_digit_e]
       |reflexivity
       |apply parse_exp_text; by apply no_cont_digit].
    f_equal. f_equal. f_equal.
    + rewrite <- Hv. cbn. lia.
    + unfold k, ds. cbn. lia.
  - rewrite <- E. rewrite <- E in Hds'.
    erewrite parse_number_parts;
      [|apply (parse_int_digits d []); [done|by constructor|apply starts_digit_dot]
       |apply parse_frac_digits; [by rewrite E|done|apply starts_digit_e]
       |apply parse_exp_text; by apply no_cont_digit].
    f_equal. f_equal. f_equal.
    + rewrite <- Hv, (digits_value_cons d (d' :: ds'')), <- E.
      change (digits_value 0 [d]) with (10 * 0 + d)%N.
      rewrite !N2Z.inj_add, !N2Z.inj_mul, !N2Z.inj_pow, nat_N_Z. lia.
    + unfold k, ds. rewrite E. cbn [length]. lia.
Qed.
End layouts.

(** Every layout of [Number::toString] reads back as the decimal it
    prints. *)
Lemma format_decimal_parse (neg : bool) c g r :
  0 < c -> no_number_cont r = true ->
  parse_number ((if neg then [cu_minus] else []) ++
     format_decimal (dec_digits (Z.to_N c)) (Z.of_nat (length (dec_digits (Z.to_N c))) + g) ++ r)
  = Some (round_dec neg c g, r).
Proof.
  intros Hc Hr. destruct (dec_digits_pos c Hc) as (Hds & Hv & d & ds' & E & Hd).
  rewrite E in Hds, Hv |- *.
  replace (round_dec neg c g)
    with (round_dec neg c ((Z.of_nat (length (d :: ds')) + g) - Z.of_nat (length (d :: ds'))))
    by (f_equal; lia).
  generalize (Z.of_nat (length (d :: ds')) + g) as n. intros n.
  unfold format_decimal. cbv zeta. set (k := Z.of_nat (length (d :: ds'))).
  destruct (Z.leb_spec k n), (Z.leb_spec n 21), (Z.ltb_spec 0 n), (Z.ltb_spec (-6) n),
    (Z.leb_spec n 0); cbn [andb];
    first [apply layout_plain | apply layout_point | apply layout_small | apply layout_exp];
    try done; lia.
Qed.

Lemma valid_sign s m e : valid (S754_finite s m e) = valid (S754_finite false m e).
Proof. reflexivity. Qed.

(** The text of a finite double parses back to it (a zero to [+0]). *)
Lemma number_to_string_parse x r :
  valid x = true -> is_finite x = true -> no_number_cont r = true ->
  parse_number (number_to_string x ++ r) = Some (num_norm x, r).
Proof.
  intros Hv Hf Hr. destruct x as [s|s| |s m e]; try discriminate.
  - change (number_to_string (S754_zero s) ++ r) with ((if false then [cu_minus] else []) ++ cu_zero :: r).
    erewrite parse_number_parts;
      [|cbn [parse_int]; rewrite decide_True by done; reflexivity
       |by apply no_cont_frac|by apply no_cont_exp].
    reflexivity.
  - rewrite valid_sign in Hv. destruct (shortest_spec m e Hv) as [Hc Hrd].
    cbn [number_to_string]. destruct (shortest m e) as [c g]. cbn [fst snd] in Hc, Hrd.
    rewrite <- app_assoc, format_decimal_parse by done.
    rewrite round_dec_sign, Hrd. by destruct s.
Qed.

(** ** Minimality of the digits *)

(** [c * 10^g] as a fraction. *)
Definition dec_frac (c g : Z) : Z * Z := if 0 <=? g then (c * 10 ^ g, 1) else (c, 10 ^ (- g)).

Lemma round_dec_frac s c g : round_dec s c g = round_ratio s (dec_frac c g).1 (dec_frac c g).2.
Proof. unfold round_dec, dec_frac. by destruct (0 <=? g). Qed.

Lemma dec_frac_den c g : 0 < (dec_frac c g).2.
Proof. unfold dec_frac. destruct (Z.leb_spec 0 g); cbn; [lia|apply Z.pow_pos_nonneg; lia]. Qed.

Lemma pow10_add a b : 0 <= a -> 0 <= b -> 10 ^ (a + b) = 10 ^ a * 10 ^ b.
Proof. intros; by apply Z.pow_add_r. Qed.

Lemma pow10_pos a : 0 <= a -> 0 < 10 ^ a.
Proof. intros; apply Z.pow_pos_nonneg; lia. Qed.

(** A decimal shifted by [10^K] is an integer. *)
Lemma dec_frac_scale c g K :
  0 <= K -> 0 <= g + K -> (dec_frac c g).1 * 10 ^ K = c * 10 ^ (g + K) * (dec_frac c g).2.
Proof.
  intros HK Hg. unfold dec_frac. destruct (Z.leb_spec 0 g); cbn [fst snd].
  - rewrite pow10_add by lia. ring.
  - replace K with (g + K + - g) at 1 by lia. rewrite pow10_add by lia. ring.
Qed.

(** Comparing two decimals, shifted by [10^K] to integers. *)
Lemma dec_frac_le c1 g1 c2 g2 K :
  0 <= K -> 0 <= g1 + K -> 0 <= g2 + K ->
  (dec_frac c1 g1).1 * (dec_frac c2 g2).2 <= (dec_frac c2 g2).1 * (dec_frac c1 g1).2
  <-> c1 * 10 ^ (g1 + K) <= c2 * 10 ^ (g2 + K).
Proof.
  intros HK H1 H2. pose proof (dec_frac_scale c1 g1 K HK H1) as E1.
  pose proof (dec_frac_scale c2 g2 K HK H2) as E2.
  pose proof (dec_frac_den c1 g1). pose proof (dec_frac_den c2 g2). pose proof (pow10_pos K HK).
  destruct (dec_frac c1 g1) as [p1 q1], (dec_frac c2 g2) as [p2 q2]. cbn [fst snd] in *.
  generalize dependent (10 ^ K). generalize (10 ^ (g1 + K)) (10 ^ (g2 + K)).
  intros X1 X2 T E1 E2 HT. split; intros Hle.
  - apply (Z.mul_le_mono_pos_r _ _ (q1 * q2)); [nia|].
    transitivity (p1 * q2 * T); [nia|]. transitivity (p2 * q1 * T); [|nia].
    apply Z.mul_le_mono_nonneg_r; lia.
  - apply (Z.mul_le_mono_pos_r _ _ T); [done|].
    transitivity (c1 * X1 * (q1 * q2)); [nia|]. transitivity (c2 * X2 * (q1 * q2)); [|nia].
    apply Z.mul_le_mono_nonneg_r; [nia|done].
Qed.

Lemma dec_frac_pos c g : 0 < c -> 0 < (dec_frac c g).1.
Proof.
  intros Hc. unfold dec_frac. destruct (Z.leb_spec 0 g); cbn [fst]; [|done].
  pose proof (pow10_pos g ltac:(lia)). nia.
Qed.

(** The decimals that round to one double form an interval. *)
Lemma round_dec_between c1 g1 c2 g2 c3 g3 x K :
  0 < c1 -> 0 <= K -> 0 <= g1 + K -> 0 <= g2 + K -> 0 <= g3 + K ->
  c1 * 10 ^ (g1 + K) <= c2 * 10 ^ (g2 + K) -> c2 * 10 ^ (g2 + K) <= c3 * 10 ^ (g3 + K) ->
  round_dec false c1 g1 = x -> round_dec false c3 g3 = x -> round_dec false c2 g2 = x.
Proof.
  intros Hc1 HK H1 H2 H3 L12 L23 R1 R3. rewrite round_dec_frac in *. rewrite <- R1.
  apply (round_ratio_interval _ _ _ _ _ (dec_frac c3 g3).1 (dec_frac c3 g3).2);
    [by apply dec_frac_pos|apply dec_frac_den|apply dec_frac_den
    |apply dec_frac_den|by apply (dec_frac_le _ _ _ _ K)|by apply (dec_frac_le _ _ _ _ K)|congruence].
Qed.

Lemma pick_none x S d g :
  pick x S d g = None ->
  round_trips x (S / 10 ^ d) g = false /\
  round_trips x (if S mod 10 ^ d =? 0 then S / 10 ^ d else S / 10 ^ d + 1) g = false.
Proof.
  unfold pick. set (lo := S / 10 ^ d). set (hi := if S mod 10 ^ d =? 0 then lo else lo + 1).
  destruct (round_trips x lo g), (round_trips x hi g); try done.
  destruct (lo =? hi); [done|]. by destruct (Z.compare _ _); [destruct (Z.even lo)| |].
Qed.

Lemma ndigits_le z j : 0 < z -> z < 10 ^ j -> ndigits z <= j.
Proof.
  intros Hz Hj. destruct (ndigits_spec z Hz) as [H1 _].
  destruct (Z.le_gt_cases (ndigits z) j) as [|Hgt]; [done|exfalso].
  assert (10 ^ j <= 10 ^ (ndigits z - 1)) by (apply Z.pow_le_mono_r; lia). lia.
Qed.

Lemma ndigits_mono a b : 0 < a <= b -> ndigits a <= ndigits b.
Proof. intros Hab. apply ndigits_le; [lia|]. pose proof (ndigits_spec b ltac:(lia)). lia. Qed.

Lemma strip_zeros_digits fuel c g : 0 < c -> ndigits (strip_zeros fuel c g).1 <= ndigits c.
Proof.
  revert c g. induction fuel as [|f IH]; intros c g Hc; cbn [strip_zeros]; [done|].
  destruct (Z.ltb_spec 0 c), (Z.eqb_spec (c mod 10) 0) as [Hm|]; cbn [andb]; try done.
  assert (Hc' : 0 < c / 10) by (pose proof (Z.div_mod c 10); lia).
  etrans; [apply IH; done|]. apply ndigits_mono. split; [done|]. apply Z.div_le_upper_bound; lia.
Qed.

(** The candidates at [d] dropped digits bracket the exact value. *)
Lemma pick_bracket S d :
  0 <= d ->
  (S / 10 ^ d) * 10 ^ d <= S <= (if S mod 10 ^ d =? 0 then S / 10 ^ d else S / 10 ^ d + 1) * 10 ^ d.
Proof.
  intros Hd. pose proof (pow10_pos d Hd). pose proof (Z.div_mod S (10 ^ d) ltac:(lia)).
  pose proof (Z.mod_pos_bound S (10 ^ d) ltac:(lia)).
  destruct (Z.eqb_spec (S mod 10 ^ d) 0); nia.
Qed.

(** A decimal [s * 10^g] with [L - d] digits lies at or below the lower
    candidate of [d] dropped digits, or at or above the upper one. *)
Lemma grid_cases S L E d s g K :
  10 ^ (L - 1) <= S < 10 ^ L -> 0 <= d <= L - 1 -> 10 ^ (L - d - 1) <= s < 10 ^ (L - d) ->
  0 <= K -> 0 <= g + K -> 0 <= E + K ->
  s * 10 ^ (g + K) <= (S / 10 ^ d) * 10 ^ (E + d + K) \/
  (if S mod 10 ^ d =? 0 then S / 10 ^ d else S / 10 ^ d + 1) * 10 ^ (E + d + K) <= s * 10 ^ (g + K).
Proof.
  intros HS Hd Hs HK Hg HE. pose proof (pow10_pos d ltac:(lia)) as Hpd.
  set (lo := S / 10 ^ d). set (hi := if S mod 10 ^ d =? 0 then lo else lo + 1).
  assert (Hlo : 10 ^ (L - d - 1) <= lo < 10 ^ (L - d)).
  { split.
    - apply Z.div_le_lower_bound; [done|]. rewrite <- pow10_add by lia.
      replace (d + (L - d - 1)) with (L - 1) by lia. lia.
    - apply Z.div_lt_upper_bound; [done|]. rewrite <- pow10_add by lia.
      replace (d + (L - d)) with L by lia. lia. }
  assert (Hhi : hi = lo \/ hi = lo + 1) by (unfold hi; destruct (_ =? 0); auto).
  pose proof (pow10_pos (g + K) Hg). pose proof (pow10_pos (E + d + K) ltac:(lia)).
  destruct (Z.lt_trichotomy g (E + d)) as [Hlt|[Heq|Hgt]].
  - left. assert (s * 10 ^ (g + K) < 10 ^ (L - d) * 10 ^ (g + K)) by (apply Z.mul_lt_mono_pos_r; lia).
    assert (10 ^ (L - d) * 10 ^ (g + K) <= 10 ^ (L - d - 1) * 10 ^ (E + d + K)).
    { rewrite <- !pow10_add by lia. apply Z.pow_le_mono_r; lia. }
    assert (10 ^ (L - d - 1) * 10 ^ (E + d + K) <= lo * 10 ^ (E + d + K))
      by (apply Z.mul_le_mono_nonneg_r; lia). lia.
  - rewrite Heq. destruct (Z.le_gt_cases s lo).
    + left. apply Z.mul_le_mono_nonneg_r; lia.
    + right. apply Z.mul_le_mono_nonneg_r; lia.
  - right. assert (hi * 10 ^ (E + d + K) <= 10 ^ (L - d) * 10 ^ (E + d + K))
      by (apply Z.mul_le_mono_nonneg_r; lia).
    assert (10 ^ (L - d) * 10 ^ (E + d + K) <= 10 ^ (L - d - 1) * 10 ^ (g + K)).
    { rewrite <- !pow10_add by lia. apply Z.pow_le_mono_r; lia. }
    assert (10 ^ (L - d - 1) * 10 ^ (g + K) <= s * 10 ^ (g + K))
      by (apply Z.mul_le_mono_nonneg_r; lia). lia.
Qed.

(** The candidate found with [j] digits has at most [j] once its
    trailing zeros are stripped ([10^j] becomes [1]). *)
Lemma strip_candidate_digits c j g :
  1 <= j -> 0 < c <= 10 ^ j -> ndigits (strip_zeros (Z.to_nat (ndigits c)) c g).1 <= j.
Proof.
  intros Hj Hc. destruct (Z.eq_dec c (10 ^ j)) as [->|Hne].
  - pose proof (ndigits_pos (10 ^ j) ltac:(lia)).
    destruct (Z.to_nat (ndigits (10 ^ j))) as [|f] eqn:Ef; [lia|]. cbn [strip_zeros].
    assert (10 ^ j = 10 ^ (j - 1) * 10) as E10
      by (rewrite Z.mul_comm, <- Z.pow_succ_r by lia; f_equal; lia).
    rewrite E10, Z.mod_mul, Z.div_mul by lia. pose proof (pow10_pos (j - 1) ltac:(lia)).
    rewrite (proj2 (Z.ltb_lt 0 _)) by lia. cbn [andb Z.eqb].
    etrans; [apply strip_zeros_digits; lia|]. apply ndigits_le; [lia|].
    apply Z.pow_lt_mono_r; lia.
  - etrans; [apply strip_zeros_digits; lia|]. apply ndigits_le; lia.
Qed.

(** No decimal with fewer significant digits than [shortest m e] rounds
    to [m * 2^e]. *)
Lemma shortest_least m e s g :
  valid (S754_finite false m e) = true -> 0 < s ->
  round_dec false s g = S754_finite false m e ->
  ndigits (shortest m e).1 <= ndigits s.
Proof.
  intros Hv Hs Hr. unfold shortest.
  set (S := (exact_decimal m e).1). set (E := (exact_decimal m e).2).
  pose proof (exact_decimal_pos m e) as HS. fold S in HS.
  pose proof (exact_decimal_round false m e Hv) as HSr. fold S E in HSr.
  set (L := ndigits S). pose proof (ndigits_spec S HS) as HL. fold L in HL.
  assert (1 <= L) by (apply ndigits_pos; done).
  destruct (digit_search_spec (Z.to_nat L) (S754_finite false m e) S E (L - 1))
    as (d' & c & Hd & Hp & Hsr & Hnone); [lia|lia|by apply bool_decide_true|].
  rewrite Hsr.
  assert (Hc : 0 < c <= 10 ^ (L - d')).
  { pose proof (Z.div_lt_upper_bound S (10 ^ d') (10 ^ (L - d')) (pow10_pos d' ltac:(lia))
      ltac:(rewrite <- pow10_add by lia; replace (d' + (L - d')) with L by lia; lia)).
    pose proof (Z.div_le_lower_bound S (10 ^ d') 1 (pow10_pos d' ltac:(lia))
      ltac:(transitivity (10 ^ (L - 1)); [rewrite Z.mul_1_r; apply Z.pow_le_mono_r; lia|lia])).
    destruct (pick_cases _ _ _ _ _ Hp); lia. }
  pose proof (strip_candidate_digits c (L - d') (E + d') ltac:(lia) Hc) as Hk.
  destruct (Z.le_gt_cases (L - d') (ndigits s)) as [|Hlt]; [lia|exfalso].
  pose proof (ndigits_spec s Hs) as Hsd. pose proof (ndigits_pos s Hs).
  set (d'' := L - ndigits s).
  destruct (pick_none _ _ _ _ (Hnone d'' ltac:(unfold d''; lia))) as [Nlo Nhi].
  set (K := Z.abs g + Z.abs E).
  pose proof (pick_bracket S d'' ltac:(unfold d''; lia)) as [B1 B2].
  assert (HX : forall a, a * 10 ^ d'' * 10 ^ (E + K) = a * 10 ^ (E + d'' + K)).
  { intros a. rewrite <- Z.mul_assoc, <- pow10_add by (unfold d''; lia). do 2 f_equal. lia. }
  destruct (grid_cases S L E d'' s g K) as [G|G]; try (unfold d'', K; lia).
  - replace (L - d'' - 1) with (ndigits s - 1) by (unfold d''; lia).
    replace (L - d'') with (ndigits s) by (unfold d''; lia). done.
  - apply bool_decide_eq_false in Nlo. apply Nlo.
    apply (round_dec_between s g _ _ S E _ K Hs); try (unfold d'', K; lia); [done| |done|done].
    rewrite <- HX. apply Z.mul_le_mono_nonneg_r; [pose proof (pow10_pos (E + K)); lia|lia].
  - apply bool_decide_eq_false in Nhi. apply Nhi.
    apply (round_dec_between S E _ _ s g _ K HS); try (unfold d'', K; lia); [|done|done|done].
    rewrite <- HX. apply Z.mul_le_mono_nonneg_r; [pose proof (pow10_pos (E + K)); lia|lia].
Qed.

(** ** Integers *)

(** Digit lists of one length and one value are equal. *)
Lemma digits_value_inj ds1 ds2 :
  length ds1 = length ds2 -> digits_ok ds1 -> digits_ok ds2 ->
  digits_value 0 ds1 = digits_value 0 ds2 -> ds1 = ds2.
Proof.
  revert ds2. induction ds1 as [|d1 l1 IH]; intros [|d2 l2] Hl H1 H2 Hv; try done.
  cbn [length] in Hl. injection Hl as Hl.
  apply list.Forall_cons in H1 as [Hd1 H1]. apply list.Forall_cons in H2 as [Hd2 H2].
  rewrite !digits_value_cons in Hv. pose proof (digits_value_lt l1 H1) as B1.
  pose proof (digits_value_lt l2 H2) as B2. rewrite Hl in Hv, B1.
  generalize dependent (10 ^ N.of_nat (length l2))%N. intros P Hv B1 B2.
  assert (d1 = d2) as <-.
  { destruct (N.lt_trichotomy d1 d2) as [Hlt|[|Hlt]]; [exfalso| done |exfalso]; nia. }
  f_equal. apply IH; [done|done|done|lia].
Qed.

(** A digit list without a leading zero has [10^(k-1) <= v < 10^k]. *)
Lemma digits_value_canon d ds :
  (0 < d)%N -> digits_ok (d :: ds) ->
  (10 ^ N.of_nat (length ds) <= digits_value 0 (d :: ds) < 10 ^ N.of_nat (S (length ds)))%N.
Proof.
  intros Hd Hok. pose proof (digits_value_lt _ Hok) as B. cbn [length] in B. split; [|done].
  rewrite digits_value_cons. nia.
Qed.

Lemma pow10_len a b v :
  (10 ^ N.of_nat a <= v < 10 ^ N.of_nat (S a))%N -> (10 ^ N.of_nat b <= v < 10 ^ N.of_nat (S b))%N -> a = b.
Proof.
  intros [A1 A2] [B1 B2]. destruct (Nat.lt_trichotomy a b) as [H|[|H]]; [exfalso| done |exfalso].
  - assert (10 ^ N.of_nat (S a) <= 10 ^ N.of_nat b)%N by (apply N.pow_le_mono_r; lia). lia.
  - assert (10 ^ N.of_nat (S b) <= 10 ^ N.of_nat a)%N by (apply N.pow_le_mono_r; lia). lia.
Qed.

(** [dec_digits] is the digit list without a leading zero of a value. *)
Lemma dec_digits_canon d ds :
  (0 < d)%N -> digits_ok (d :: ds) -> dec_digits (digits_value 0 (d :: ds)) = d :: ds.
Proof.
  intros Hd Hok. pose proof (digits_value_canon d ds Hd Hok) as C.
  set (v := digits_value 0 (d :: ds)) in *.
  destruct (dec_digits_spec v) as (Hv & Hok' & d' & ds' & E & H0).
  assert (0 < d')%N.
  { destruct (N.eq_dec d' 0) as [->|]; [|lia]. destruct (H0 eq_refl) as [Hz _].
    assert (10 ^ N.of_nat (length ds) <> 0)%N by (apply N.pow_nonzero; lia). lia. }
  rewrite E in Hok', Hv |- *. apply digits_value_inj; [|done|done|by rewrite Hv].
  pose proof (digits_value_canon d' ds' ltac:(done) Hok') as C'. rewrite Hv in C'.
  cbn [length]. f_equal. eapply pow10_len; [exact C'|exact C].
Qed.

(** The digits of [c * 10^j] are those of [c] and [j] zeros. *)
Lemma dec_digits_shift c j :
  0 < c -> 0 <= j -> dec_digits (Z.to_N (c * 10 ^ j)) = dec_digits (Z.to_N c) ++ repeat 0%N (Z.to_nat j).
Proof.
  intros Hc Hj. destruct (dec_digits_pos c Hc) as (Hok & Hv & d & ds & E & Hd).
  rewrite E. change ((d :: ds) ++ repeat 0%N (Z.to_nat j)) with (d :: (ds ++ repeat 0%N (Z.to_nat j))).
  rewrite <- dec_digits_canon; [|done|].
  - f_equal. change (d :: ds ++ repeat 0%N (Z.to_nat j)) with ((d :: ds) ++ repeat 0%N (Z.to_nat j)).
    rewrite digits_value_zeros_r, <- E. apply N2Z.inj. rewrite N2Z.inj_mul, N2Z.inj_pow, Hv, nat_N_Z.
    rewrite Z2Nat.id by lia. rewrite Z2N.id; [done|]. pose proof (pow10_pos j Hj). nia.
  - rewrite E in Hok. change (digits_ok ((d :: ds) ++ repeat 0%N (Z.to_nat j))).
    apply Forall_app. split; [done|apply digits_ok_zeros].
Qed.

(** Below [2^53] the neighbours [n - 1] and [n + 1] of an integer are
    doubles, so no other integer reads as [n]. *)
Lemma int_round_unique n y :
  0 < n < 2 ^ 53 -> 0 < y -> round_ratio false y 1 = round_ratio false n 1 -> y = n.
Proof.
  intros Hn Hy E. destruct (Z.lt_total y n) as [Hlt|[->|Hgt]]; [exfalso|done|exfalso].
  - assert (round_ratio false (n - 1) 1 = round_ratio false y 1) as E'
      by (apply (round_ratio_interval _ _ _ _ _ n 1); lia || congruence).
    assert (n - 1 = n) by (apply of_int_inj; unfold prec in *; [lia|lia|congruence]). lia.
  - assert (round_ratio false (n + 1) 1 = round_ratio false n 1) as E'
      by (apply (round_ratio_interval _ _ _ _ _ y 1); lia || congruence).
    assert (n + 1 = n) by (apply of_int_inj; unfold prec in *; [lia|lia|congruence]). lia.
Qed.

Lemma round_dec_int z : round_dec false z 0 = round_ratio false z 1.
Proof. unfold round_dec. cbn -[round_ratio]. by rewrite Z.mul_1_r. Qed.

(** A decimal with a fraction part that reads as an integer [n] below
    [2^53] lies strictly between [n - 1] and [n + 1]. *)
Lemma int_decimal_bounds n s h :
  0 < n < 2 ^ 53 -> 0 < s -> 0 < h -> round_dec false s (- h) = round_dec false n 0 ->
  (n - 1) * 10 ^ h < s < (n + 1) * 10 ^ h.
Proof.
  intros Hn Hs Hh E. pose proof (pow10_pos h ltac:(lia)).
  assert (Hg : - h + h = 0) by lia.
  split.
  - destruct (Z.lt_ge_cases ((n - 1) * 10 ^ h) s) as [|C]; [done|exfalso].
    assert (1 < n) by nia.
    assert (round_dec false (n - 1) 0 = round_dec false n 0).
    { apply (round_dec_between s (- h) _ _ n 0 _ h Hs); rewrite ?Hg, ?Z.pow_0_r, ?Z.add_0_l; try lia; done. }
    rewrite !round_dec_int in *. pose proof (int_round_unique n (n - 1) Hn ltac:(lia) ltac:(done)). lia.
  - destruct (Z.lt_ge_cases s ((n + 1) * 10 ^ h)) as [|C]; [done|exfalso].
    assert (round_dec false (n + 1) 0 = round_dec false n 0).
    { apply (round_dec_between n 0 _ _ s (- h) _ h); rewrite ?Hg, ?Z.pow_0_r, ?Z.add_0_l; try lia; done. }
    rewrite !round_dec_int in *. pose proof (int_round_unique n (n + 1) Hn ltac:(lia) ltac:(done)). lia.
Qed.

(** The shortest decimal that reads as an integer [n] below [2^53] is [n]
    itself, up to trailing zeros: a fraction part would need more digits
    than [n] has, except at [n = 1], where [0.9] is another double. *)
Lemma int_decimal n s g :
  0 < n < 2 ^ 53 -> 0 < s -> round_dec false s g = round_dec false n 0 ->
  (forall s' g', 0 < s' -> round_dec false s' g' = round_dec false n 0 -> ndigits s <= ndigits s') ->
  0 <= g /\ s * 10 ^ g = n.
Proof.
  intros Hn Hs E Hmin. destruct (Z.leb_spec 0 g) as [Hg|Hg].
  - split; [done|]. apply int_round_unique; [done|pose proof (pow10_pos g Hg); nia|].
    rewrite <- (round_dec_int n), <- E. unfold round_dec. by rewrite (proj2 (Z.leb_le 0 g) Hg).
  - exfalso. set (h := - g). replace g with (- h) in E by lia.
    destruct (int_decimal_bounds n s h Hn Hs ltac:(lia) E) as [Lo Hi].
    pose proof (Hmin n 0 ltac:(lia) eq_refl) as Dn.
    pose proof (ndigits_spec n ltac:(lia)) as [N1 N2]. pose proof (ndigits_spec s Hs) as [_ S2].
    set (L := ndigits n) in *. pose proof (ndigits_pos n ltac:(lia)).
    assert (10 ^ ndigits s <= 10 ^ L) by (apply Z.pow_le_mono_r; lia).
    assert (10 <= 10 ^ h) by (change 10 with (10 ^ 1) at 1; apply Z.pow_le_mono_r; lia).
    assert (EL : 10 ^ L = 10 ^ (L - 1) * 10) by (rewrite Z.mul_comm, <- Z.pow_succ_r by lia; f_equal; lia).
    assert (Hp : n = 10 ^ (L - 1)) by nia.
    assert (D1 : ndigits s <= 1).
    { apply (Hmin 1 (L - 1)); [lia|]. rewrite round_dec_int. unfold round_dec.
      rewrite (proj2 (Z.leb_le 0 (L - 1))) by lia. by rewrite Z.mul_1_l, <- Hp. }
    assert (s < 10) by (change 10 with (10 ^ 1); pose proof (Z.pow_le_mono_r 10 _ _ ltac:(lia) D1); lia).
    assert (n = 1) as -> by nia.
    assert (round_dec false 9 (- 1) = round_dec false 1 0) as C; [|vm_compute in C; discriminate].
    apply (round_dec_between s (- h) _ _ 1 0 _ h Hs); try lia; try done.
    + replace (- h + h) with 0 by lia. replace (- 1 + h) with (h - 1) by lia.
      pose proof (pow10_pos (h - 1) ltac:(lia)). nia.
    + replace (- 1 + h) with (h - 1) by lia. rewrite Z.add_0_l.
      replace (10 ^ h) with (10 ^ (h - 1) * 10) by (rewrite Z.mul_comm, <- Z.pow_succ_r by lia; f_equal; lia). lia.

Qed.

(** The typing indicator's id [typing-<Date.now()>] (line 87) is
    [Number::toString] of the time, an integer below [2^53]: it prints as
    the plain decimal [dec_N] of the integer, which is how Dom.v writes
    [typing_id]. *)
Lemma number_to_string_int (n : N) :
  (n < 2 ^ 53)%N -> number_to_string (of_Z (Z.of_N n)) = dec_N n.
Proof.
  intros Hn. destruct n as [|p]; [reflexivity|]. cbn [Z.of_N of_Z].
  destruct (of_int_exact (Zpos p)) as (m & e & Ex & _); [unfold prec; lia|].
  pose proof (round_ratio_valid false (Zpos p) 1 ltac:(lia)) as [Hv _]. rewrite Ex in Hv |- *.
  pose proof (shortest_spec m e Hv) as [Hc Hr].
  pose proof (fun s g => shortest_least m e s g Hv) as Hmin.
  cbn [number_to_string]. destruct (shortest m e) as [c g]. cbn [fst snd] in *.
  rewrite <- Ex, <- round_dec_int in Hr, Hmin.
  destruct (int_decimal (Zpos p) c g) as [Hg Hcg]; [lia|done|done|intros s g' Hs Hr'; by apply (Hmin s g')|].
  change (dec_N (Npos p)) with (digits_text (dec_digits (Z.to_N (Zpos p)))).
  rewrite <- Hcg, dec_digits_shift by done.
  assert (Hk : Z.of_nat (length (dec_digits (Z.to_N c))) + g <= 21).
  { enough (ndigits (c * 10 ^ g) <= 16) as D.
    { unfold ndigits in D. rewrite dec_digits_shift, length_app, repeat_length in D by done. lia. }
    apply ndigits_le; [pose proof (pow10_pos g Hg); nia|]. rewrite Hcg. lia. }
  unfold format_decimal. rewrite (proj2 (Z.leb_le _ _)), (proj2 (Z.leb_le _ (21))) by lia. cbn [andb app].
  rewrite digits_text_app, digits_text_zeros. do 3 f_equal. lia.
Qed.

(** ** What the parser returns *)

Lemma read_digits_suffix acc cnt s v n r : read_digits acc cnt s = (v, n, r) -> r `suffix_of` s.
Proof.
  revert acc cnt. induction s as [|c s IH]; intros acc cnt; cbn [read_digits]; [by intros [= _ _ <-]|].
  destruct (is_dec_digit c); [intros H; apply suffix_cons_r; exact (IH _ _ H)|by intros [= _ _ <-]].
Qed.

Lemma parse_number_suffix s x r : parse_number s = Some (x, r) -> r `suffix_of` s.
Proof.
  assert (Hi : forall s i r, parse_int s = Some (i, r) -> r `suffix_of` s).
  { intros [|c s'] i r'; cbn [parse_int]; [done|]. case_decide; [intros [= _ <-]; by apply suffix_cons_r|].
    destruct (is_dec_digit c); [|done]. destruct (read_digits _ _ s') as [[v n] t] eqn:E.
    intros [= _ <-]. apply suffix_cons_r. by eapply read_digits_suffix. }
  assert (Hf : forall s f n r, parse_frac s = Some (f, n, r) -> r `suffix_of` s).
  { intros [|c s'] f n r'; cbn [parse_frac]; [by intros [= _ _ <-]|].
    case_decide; [|by intros [= _ _ <-]]. destruct (starts_digit s'); [|done].
    intros [= E]. apply suffix_cons_r. by eapply read_digits_suffix. }
  assert (He : forall s x r, parse_exp s = Some (x, r) -> r `suffix_of` s).
  { intros [|c s'] x' r'; cbn [parse_exp]; [by intros [= _ <-]|].
    case_decide; [|by intros [= _ <-]].
    assert (Hs : forall t, (exp_sign s').2 = t -> t `suffix_of` s').
    { intros t <-. destruct s' as [|c' t']; [done|]. cbn [exp_sign].
      case_decide; [by apply suffix_cons_r|]. case_decide; [by apply suffix_cons_r|done]. }
    pose proof (Hs _ eq_refl) as Hs'. destruct (exp_sign s') as [b t]. cbn [snd] in Hs'.
    destruct (starts_digit t); [|done]. destruct (read_digits 0 0 t) as [[v n] t'] eqn:Er.
    intros [= _ <-]. apply suffix_cons_r. etrans; [by eapply read_digits_suffix|]. done. }
  unfold parse_number.
  assert (Hn : (num_sign s).2 `suffix_of` s).
  { destruct s as [|c s']; [done|]. cbn [num_sign]. case_decide; [by apply suffix_cons_r|done]. }
  destruct (num_sign s) as [neg s1]. cbn [snd] in Hn.
  destruct (parse_int s1) as [[i s2]|] eqn:E1; [|done].
  destruct (parse_frac s2) as [[[f nf] s3]|] eqn:E2; [|done].
  destruct (parse_exp s3) as [[x' s4]|] eqn:E3; [|done]. intros [= _ <-].
  etrans; [exact (He _ _ _ E3)|]. etrans; [exact (Hf _ _ _ _ E2)|]. etrans; [exact (Hi _ _ _ E1)|].
  done.
Qed.

(** [JSON.parse] yields valid doubles, never NaN. *)
Lemma parse_number_valid s x r :
  parse_number s = Some (x, r) -> valid x = true /\ is_nan x = false.
Proof.
  unfold parse_number. destruct (num_sign s) as [neg s1].
  destruct (parse_int s1) as [[i s2]|]; [|done]. destruct (parse_frac s2) as [[[f nf] s3]|]; [|done].
  destruct (parse_exp s3) as [[x' s4]|]; [|done]. intros [= <- _]. apply round_dec_valid.
Qed.

(** The text of a finite number starts with [-] or a digit. *)
Lemma format_decimal_head d ds n r :
  (d < 10)%N -> exists c t, format_decimal (d :: ds) n ++ r = c :: t /\ is_dec_digit c = true.
Proof.
  intros Hd. unfold format_decimal. cbv zeta.
  destruct (Z.leb_spec (Z.of_nat (length (d :: ds))) n), (Z.leb_spec n 21), (Z.ltb_spec 0 n),
    (Z.ltb_spec (-6) n), (Z.leb_spec n 0); cbn [andb]; try lia;
    try (destruct (Z.to_nat n) as [|j] eqn:Ej; [lia|]);
    eexists _, _; (split; [reflexivity|]); try (by apply is_dec_digit_text); reflexivity.
Qed.

Lemma number_to_string_head x r :
  is_finite x = true ->
  exists c t, number_to_string x ++ r = c :: t /\ (c = cu_minus \/ is_dec_digit c = true).
Proof.
  destruct x as [s|s| |s m e]; cbn [is_finite]; try discriminate; intros _.
  - eexists _, _. split; [reflexivity|]. by right.
  - cbn [number_to_string]. destruct (shortest m e) as [c g].
    destruct (dec_digits_spec (Z.to_N c)) as (_ & Hds & d & ds & E & _). rewrite E in Hds |- *.
    apply list.Forall_cons in Hds as [Hd _].
    destruct s; cbn [app]; [eexists _, _; split; [reflexivity|by left]|].
    destruct (format_decimal_head d ds (Z.of_nat (length (d :: ds)) + g) r Hd) as (c' & t & Et & Hc).
    exists c', t. split; [done|by right].
Qed.

