(* ===== verification/JsValue.v ===== *)
(** * JavaScript values seen by the client

    The client never inspects the conversation state; it only reads two
    properties of the parsed reply ([data.context], [data.response],
    [src/static/script.js] lines 45-49) and builds one request body
    ([JSON.stringify({message, context})], lines 39-42).  This file holds
    the values ([value]), the property read with its [TypeError] on
    [null]/[undefined] ([get_prop]), the JSON subset that [response.json()]
    can produce ([is_json]), and the value the text of [JSON.stringify]
    denotes ([json_normalize], [request_body]). *)

From S2P Require Import Prelude Float64.

(** ** Values

    Numbers are binary64 doubles ([Float64.double]).  Objects are
    association lists in property order. *)
Inductive value :=
| VUndefined
| VNull
| VBool (b : bool)
| VNumber (n : double)
| VString (s : jsstr)
| VArray (xs : list value)
| VObject (props : list (jsstr * value)).

(** Own property lookup on an object: the first binding of the key. *)
Fixpoint lookup_prop (k : jsstr) (props : list (jsstr * value)) : option value :=
  match props with
  | [] => None
  | (k', v) :: ps => if decide (k = k') then Some v else lookup_prop k ps
  end.

(** [v.k]: [None] is the [TypeError] thrown on [undefined] and [null]; a
    missing property reads as [undefined].  Primitive strings and arrays
    have their [length]; the other names the client reads ([context],
    [response]) are on no built-in prototype. *)
Definition get_prop (v : value) (k : jsstr) : option value :=
  match v with
  | VUndefined | VNull => None
  | VObject props =>
      Some (match lookup_prop k props with Some x => x | None => VUndefined end)
  | VString s =>
      Some (if decide (k = ‹"length"›) then VNumber (of_Z (Z.of_nat (length s))) else VUndefined)
  | VArray xs =>
      Some (if decide (k = ‹"length"›) then VNumber (of_Z (Z.of_nat (length xs))) else VUndefined)
  | VBool _ | VNumber _ => Some VUndefined
  end.

(** ** Exceptions

    What the client's [try] block can throw, as [console.error] receives
    it: the rejection of [fetch] (a [TypeError], "Failed to fetch"), the
    rejection of [response.json()] on a body that is not JSON (a
    [SyntaxError]), reading a property of [null] or [undefined] (a
    [TypeError]), and calling a method a value does not have (a
    [TypeError], "... is not a function"). *)
Inductive js_error :=
| ErrNetwork
| ErrSyntax
| ErrReadProp (v : value) (key : jsstr)
| ErrNotFunction (key : jsstr).

(** [v.k] with its exception. *)
Definition get_prop_exn (v : value) (k : jsstr) : js_error + value :=
  match get_prop v k with
  | Some x => inr x
  | None => inl (ErrReadProp v k)
  end.

(** The exception of [v.k(...)] for a value that is not a string, where
    [k] is a method of [String.prototype] only: reading [k] of [null] or
    [undefined] throws; on any other value [v.k] is [undefined], and
    calling it throws. *)
Definition method_call_error (v : value) (k : jsstr) : js_error :=
  match v with
  | VUndefined | VNull => ErrReadProp v k
  | _ => ErrNotFunction k
  end.

(** Values [JSON.parse] can return: no [undefined] anywhere, object
    keys distinct (a duplicated key keeps one binding), numbers valid
    doubles, not NaN (but possibly infinite, from a literal like [1e400],
    or [-0]). *)
Fixpoint is_json (v : value) : bool :=
  match v with
  | VUndefined => false
  | VNumber x => valid x && negb (is_nan x)
  | VNull | VBool _ | VString _ => true
  | VArray xs => forallb is_json xs
  | VObject props =>
      bool_decide (NoDup (map fst props)) && forallb (fun kv => is_json kv.2) props
  end.

(** Numbers that decimal text denotes: finite, and no [-0]. *)
Fixpoint numbers_plain (v : value) : bool :=
  match v with
  | VNumber x => is_finite x && bool_decide (num_norm x = x)
  | VArray xs => forallb numbers_plain xs
  | VObject props => forallb (fun kv => numbers_plain kv.2) props
  | _ => true
  end.

(** ** What the text of [JSON.stringify] denotes

    Properties whose value is [undefined] are left out, [undefined]
    array elements become [null], numbers that are not finite are written
    [null], and [-0] is written [0]. *)
Fixpoint json_normalize (v : value) : value :=
  match v with
  | VNumber x => if is_finite x then VNumber (num_norm x) else VNull
  | VArray xs =>
      VArray (map (fun x => match x with
                            | VUndefined => VNull
                            | _ => json_normalize x
                            end) xs)
  | VObject props =>
      VObject (omap (fun kv => match kv.2 with
                               | VUndefined => None
                               | _ => Some (kv.1, json_normalize kv.2)
                               end) props)
  | _ => v
  end.

(** The body of the POST of lines 36-43: the message and the current
    context, as [JSON.stringify] sees them. *)
Definition request_body (message : jsstr) (context : value) : value :=
  json_normalize
    (VObject [(‹"message"›, VString message); (‹"context"›, context)]).

(** The initial context of line 7, [{ state: 'START' }]. *)
Definition initial_context : value :=
  VObject [(‹"state"›, VString ‹"START"›)].

(** ** Lemmas *)

(** Induction on values through the lists of arrays and objects. *)
Section value_ind.
Variable P : value -> Prop.
Hypothesis HU : P VUndefined.
Hypothesis HN : P VNull.
Hypothesis HB : forall b, P (VBool b).
Hypothesis HNum : forall n, P (VNumber n).
Hypothesis HS : forall s, P (VString s).
Hypothesis HA : forall xs, Forall P xs -> P (VArray xs).
Hypothesis HO : forall props, Forall (fun kv => P kv.2) props -> P (VObject props).

Fixpoint value_ind' (v : value) : P v :=
  match v with
  | VUndefined => HU
  | VNull => HN
  | VBool b => HB b
  | VNumber n => HNum n
  | VString s => HS s
  | VArray xs =>
      HA xs ((fix go (xs : list value) : Forall P xs :=
                match xs with
                | [] => Forall_nil_2 _
                | x :: xs' => Forall_cons_2 _ _ _ (value_ind' x) (go xs')
                end) xs)
  | VObject props =>
      HO props ((fix go (ps : list (jsstr * value)) : Forall (fun kv => P kv.2) ps :=
                   match ps with
                   | [] => Forall_nil_2 _
                   | kv :: ps' => Forall_cons_2 _ _ _ (value_ind' kv.2) (go ps')
                   end) props)
  end.
End value_ind.

(** The element and member steps of [json_normalize]. *)
Definition norm_elem (x : value) : value :=
  match x with VUndefined => VNull | _ => json_normalize x end.

Definition norm_member (kv : jsstr * value) : option (jsstr * value) :=
  match kv.2 with VUndefined => None | _ => Some (kv.1, json_normalize kv.2) end.

Lemma json_normalize_array xs : json_normalize (VArray xs) = VArray (map norm_elem xs).
Proof. reflexivity. Qed.

Lemma json_normalize_object props :
  json_normalize (VObject props) = VObject (omap norm_member props).
Proof. reflexivity. Qed.

Lemma json_normalize_defined v : v <> VUndefined -> json_normalize v <> VUndefined.
Proof. destruct v; cbn; try done. by destruct (is_finite _). Qed.

Lemma norm_elem_id x : x <> VUndefined -> json_normalize x = x -> norm_elem x = x.
Proof. by destruct x. Qed.

Lemma norm_member_id kv :
  kv.2 <> VUndefined -> json_normalize kv.2 = kv.2 -> norm_member kv = Some kv.
Proof. destruct kv as [k x]. unfold norm_member. cbn. intros H ->. by destruct x. Qed.

Lemma omap_norm_member props :
  Forall (fun kv => kv.2 <> VUndefined) props ->
  omap norm_member props = map (fun kv => (kv.1, json_normalize kv.2)) props.
Proof.
  induction 1 as [|[k x] ps Hx _ IH]; [done|].
  change ((k, x) :: ps) with ([(k, x)] ++ ps). rewrite omap_app, IH. cbn in Hx |- *.
  unfold norm_member. cbn. by destruct x.
Qed.

Lemma is_json_defined v : is_json v = true -> v <> VUndefined.
Proof. by destruct v. Qed.

(** A JSON value's members are defined. *)
Lemma is_json_members (props : list (jsstr * value)) :
  forallb (fun kv => is_json kv.2) props = true -> Forall (fun kv => kv.2 <> VUndefined) props.
Proof.
  intros H. apply list.Forall_forall. intros kv Hkv. apply is_json_defined.
  apply (proj1 (forallb_forall _ _) H). by apply list_elem_of_In.
Qed.

(** [JSON.stringify] changes nothing in a JSON value whose numbers are
    finite and not [-0]. *)
Lemma json_normalize_id (v : value) :
  is_json v = true -> numbers_plain v = true -> json_normalize v = v.
Proof.
  induction v as [| | |x| |xs IH|props IH] using value_ind'; intros Hj Hp;
    cbn [is_json numbers_plain] in Hj, Hp; try done.
  - cbn. apply andb_prop in Hp as [-> Hn]. apply bool_decide_eq_true in Hn. by rewrite Hn.
  - rewrite json_normalize_array. f_equal. induction IH as [|x xs Hx _ IHxs]; [done|].
    cbn [forallb] in Hj, Hp. apply andb_prop in Hj as [Hj1 Hj2]. apply andb_prop in Hp as [Hp1 Hp2].
    cbn [map]. rewrite IHxs by done. f_equal. apply norm_elem_id; [by apply is_json_defined|auto].
  - rewrite json_normalize_object. apply andb_prop in Hj as [_ Hj].
    rewrite omap_norm_member by (by apply is_json_members). f_equal.
    induction IH as [|[k x] ps Hx _ IHps]; [done|].
    cbn [forallb] in Hj, Hp. apply andb_prop in Hj as [Hj1 Hj2]. apply andb_prop in Hp as [Hp1 Hp2].
    cbn [map fst snd]. rewrite IHps by done. cbn in Hx, Hj1, Hp1. by rewrite (Hx Hj1 Hp1).
Qed.

(** The text of [JSON.stringify] denotes only finite numbers without
    [-0]. *)
Lemma json_normalize_plain (v : value) : numbers_plain (json_normalize v) = true.
Proof.
  induction v as [| | |x| |xs IH|props IH] using value_ind'; try done.
  - cbn. destruct (is_finite x) eqn:Hf; [|done]. cbn.
    destruct x; cbn in *; try done; by rewrite bool_decide_true.
  - rewrite json_normalize_array. cbn [numbers_plain]. apply forallb_forall.
    intros y Hy. apply list_elem_of_In in Hy. apply list_elem_of_fmap in Hy as (x & -> & Hx).
    rewrite list.Forall_forall in IH. destruct x; try done; by apply IH.
  - rewrite json_normalize_object. cbn [numbers_plain]. apply forallb_forall.
    intros kv Hkv. apply list_elem_of_In, list_elem_of_omap in Hkv as ([k x] & Hkx & Hm).
    rewrite list.Forall_forall in IH. unfold norm_member in Hm. cbn in Hm.
    destruct x; try discriminate; injection Hm as <-; apply (IH _ Hkx).
Qed.

Lemma undefined_or x : x = VUndefined \/ x <> VUndefined.
Proof. destruct x; [by left|..]; by right. Qed.

Lemma norm_elem_def x : x <> VUndefined -> norm_elem x = json_normalize x.
Proof. by destruct x. Qed.

Lemma norm_member_def k x : x <> VUndefined -> norm_member (k, x) = Some (k, json_normalize x).
Proof. by destruct x. Qed.

Lemma json_normalize_idem (v : value) : json_normalize (json_normalize v) = json_normalize v.
Proof.
  induction v as [| | |x| |xs IH|props IH] using value_ind'; try done.
  - cbn. destruct (is_finite x) eqn:Hf; [|done]. by destruct x.
  - rewrite !json_normalize_array, map_map. f_equal. apply map_ext_in. intros x Hx.
    rewrite List.Forall_forall in IH. specialize (IH x Hx).
    destruct (undefined_or x) as [->|Hu]; [done|].
    by rewrite (norm_elem_def x Hu), norm_elem_def by (by apply json_normalize_defined).
  - rewrite !json_normalize_object. f_equal.
    induction IH as [|[k x] ps Hx _ IHps]; [done|].
    change ((k, x) :: ps) with ([(k, x)] ++ ps). rewrite !omap_app, IHps. f_equal.
    cbn in Hx. destruct (undefined_or x) as [->|Hu]; [done|].
    cbn. rewrite (norm_member_def k x Hu). cbn.
    rewrite norm_member_def by (by apply json_normalize_defined). by rewrite Hx.
Qed.

(** What [JSON.stringify] writes of a JSON value is a JSON value. *)
Lemma json_normalize_is_json (v : value) : is_json v = true -> is_json (json_normalize v) = true.
Proof.
  induction v as [| | |x| |xs IH|props IH] using value_ind'; intros Hj; cbn [is_json] in Hj; try done.
  - cbn. destruct (is_finite x); [|done]. cbn. destruct x; cbn in *; try done; by rewrite Hj.
  - rewrite json_normalize_array. cbn [is_json]. apply forallb_forall.
    intros y Hy. apply list_elem_of_In in Hy. apply list_elem_of_fmap in Hy as (x & -> & Hx).
    rewrite list.Forall_forall in IH. apply list_elem_of_In in Hx as Hx'.
    pose proof (proj1 (forallb_forall _ _) Hj x Hx') as Hjx.
    destruct x; try done; by apply IH.
  - apply andb_prop in Hj as [Hnd Hj]. rewrite json_normalize_object.
    rewrite omap_norm_member by (by apply is_json_members). cbn [is_json].
    apply andb_true_intro. split.
    + rewrite map_map. cbn. by replace (map (fun x => x.1) props) with (map fst props) by done.
    + apply forallb_forall. intros kv Hkv. apply list_elem_of_In in Hkv.
      apply list_elem_of_fmap in Hkv as ([k x] & -> & Hx). cbn.
      rewrite list.Forall_forall in IH. apply (IH _ Hx).
      apply (proj1 (forallb_forall _ _) Hj (k, x)). by apply list_elem_of_In.
Qed.

Lemma get_prop_object (props : list (jsstr * value)) (k : jsstr) (v : value) :
  lookup_prop k props = Some v -> get_prop (VObject props) k = Some v.
Proof. simpl. by intros ->. Qed.

Lemma get_prop_nullish (v : value) (k : jsstr) :
  get_prop v k = None <-> v = VUndefined \/ v = VNull.
Proof. destruct v; simpl; split; intros H; destruct_or?; by auto. Qed.

Lemma request_body_json (message : jsstr) (context : value) :
  is_json context = true ->
  request_body message context
  = VObject [(‹"message"›, VString message); (‹"context"›, json_normalize context)].
Proof.
  intros Hj. unfold request_body. rewrite json_normalize_object.
  rewrite omap_norm_member; [done|]. repeat constructor; cbn; [done|by apply is_json_defined].
Qed.

Lemma request_body_undefined (message : jsstr) :
  request_body message VUndefined = VObject [(‹"message"›, VString message)].
Proof. reflexivity. Qed.

Lemma lookup_prop_in k props x : lookup_prop k props = Some x -> In (k, x) props.
Proof.
  induction props as [|[k' y] ps IH]; simpl; [done|].
  case_decide as Hk; [intros [= <-]; subst; by left|]. intros Hl. right. by apply IH.
Qed.

(** Reading a property of a JSON value gives a JSON value or [undefined]. *)
Lemma get_prop_json v k x :
  is_json v = true -> get_prop v k = Some x -> is_json x = true \/ x = VUndefined.
Proof.
  intros Hj. destruct v as [| |b|z|s|xs|props]; simpl; intros Hg; try discriminate;
    try (injection Hg as <-; by right).
  - injection Hg as <-. case_decide; [left|by right]. cbn [is_json].
    by destruct (of_Z_valid (Z.of_nat (length s))) as [-> ->].
  - injection Hg as <-. case_decide; [left|by right]. cbn [is_json].
    by destruct (of_Z_valid (Z.of_nat (length xs))) as [-> ->].
  - injection Hg as <-. destruct (lookup_prop k props) as [y|] eqn:E; [left|by right].
    apply andb_prop in Hj as [_ Hj]. apply (proj1 (forallb_forall _ _) Hj (k, y)).
    by apply lookup_prop_in.
Qed.

(** The body sent for a JSON context, or for none, is a JSON value. *)
Lemma request_body_is_json (message : jsstr) (context : value) :
  is_json context = true \/ context = VUndefined -> is_json (request_body message context) = true.
Proof.
  intros [Hj| ->]; [|reflexivity].
  rewrite request_body_json by done. cbn [is_json forallb snd].
  by rewrite json_normalize_is_json.
Qed.

#[export] Hint Resolve json_normalize_id json_normalize_is_json get_prop_object : medigate.
