(* ===== verification/Json.v ===== *)
(** * JSON text: [JSON.stringify] and [JSON.parse]

    The client serialises its request with [JSON.stringify({message,
    context})] ([src/static/script.js] lines 39-42) and reads the reply
    with [response.json()] (line 45), which is [JSON.parse] of the body
    text.  This file models both built-ins on the values of [JsValue]:
    - [serialize] is SerializeJSONProperty (ECMA-262 25.5.2.2): [null],
      booleans, numbers by [ToString], strings by QuoteJSONString (the
      two-character escapes, [\u00XX] for the other control characters,
      [\uDXXX] for lone surrogates), arrays with [undefined] as [null],
      objects without their [undefined] properties; [None] is the
      [undefined] result for [undefined] itself;
    - [parse_value] is the JSON grammar (ECMA-404) with white space,
      building objects as [JSON.parse] does: a repeated key keeps its
      first position and takes the last value, array-index keys are
      ordered numerically before the other keys ([obj_insert]).
    Numbers are binary64 doubles: [serialize] writes a finite one by
    [Number.number_to_string] and a non-finite one as [null] ([num_text]),
    and the parser reads the JSON number grammar with
    [Number.parse_number], which rounds to the nearest double.  So the
    text of a value denotes [json_normalize v] ([json_roundtrip]), and
    what [JSON.parse] returns is a JSON value with JavaScript strings and
    key order ([json_parse_wf]).  The parser's fuel is one more than the
    text's length, which is enough since every level consumes a code
    unit. *)

From S2P Require Import Prelude Float64 Number JsValue.

Local Open Scope N_scope.

(** ** Code units of the JSON syntax *)

Definition cu_quote : N := 34.
Definition cu_backslash : N := 92.
Definition cu_comma : N := 44.
Definition cu_colon : N := 58.
Definition cu_lbrack : N := 91.
Definition cu_rbrack : N := 93.
Definition cu_lbrace : N := 123.
Definition cu_rbrace : N := 125.

Definition is_json_ws (c : N) : bool := bool_decide (c = 32 \/ c = 9 \/ c = 10 \/ c = 13).

Definition is_high_surrogate (c : N) : bool := bool_decide (55296 <= c <= 56319)%N.
Definition is_low_surrogate (c : N) : bool := bool_decide (56320 <= c <= 57343)%N.

(** ** [JSON.stringify] *)

(** Lower-case hexadecimal digits, as UnicodeEscape writes them. *)
Definition hex_digit (d : N) : N := if (d <? 10)%N then 48 + d else 87 + d.

Definition hex4 (c : N) : jsstr :=
  [hex_digit (c / 4096 mod 16); hex_digit (c / 256 mod 16);
   hex_digit (c / 16 mod 16); hex_digit (c mod 16)].

Definition unicode_escape (c : N) : jsstr := [cu_backslash; 117] ++ hex4 c.

(** One code unit that is not part of a surrogate pair. *)
Definition escape_unit (c : N) : jsstr :=
  if decide (c = 8) then [cu_backslash; 98]
  else if decide (c = 9) then [cu_backslash; 116]
  else if decide (c = 10) then [cu_backslash; 110]
  else if decide (c = 12) then [cu_backslash; 102]
  else if decide (c = 13) then [cu_backslash; 114]
  else if decide (c = cu_quote) then [cu_backslash; cu_quote]
  else if decide (c = cu_backslash) then [cu_backslash; cu_backslash]
  else if (c <? 32)%N || is_high_surrogate c || is_low_surrogate c then unicode_escape c
  else [c].

(** QuoteJSONString without its quotes: a surrogate pair is one code
    point and is kept, a lone surrogate is escaped. *)
Fixpoint quote_units (s : jsstr) : jsstr :=
  match s with
  | [] => []
  | c :: s' =>
      if is_high_surrogate c then
        match s' with
        | d :: s'' =>
            if is_low_surrogate d then c :: d :: quote_units s''
            else unicode_escape c ++ quote_units s'
        | [] => unicode_escape c
        end
      else escape_unit c ++ quote_units s'
  end.

Definition quote (s : jsstr) : jsstr := [cu_quote] ++ quote_units s ++ [cu_quote].

(** A number: [Number::toString] when finite, [null] otherwise. *)
Definition num_text (x : double) : jsstr :=
  if is_finite x then number_to_string x else ‹"null"›.

Fixpoint join_comma (ts : list jsstr) : jsstr :=
  match ts with
  | [] => []
  | [t] => t
  | t :: ts' => t ++ [cu_comma] ++ join_comma ts'
  end.

(** SerializeJSONProperty; [None] is the [undefined] it returns for
    [undefined]. *)
Fixpoint serialize (v : value) : option jsstr :=
  match v with
  | VUndefined => None
  | VNull => Some ‹"null"›
  | VBool b => Some (if b then ‹"true"› else ‹"false"›)
  | VNumber z => Some (num_text z)
  | VString s => Some (quote s)
  | VArray xs =>
      Some ([cu_lbrack]
            ++ join_comma (map (fun x => match serialize x with
                                         | Some t => t
                                         | None => ‹"null"›
                                         end) xs)
            ++ [cu_rbrack])
  | VObject props =>
      Some ([cu_lbrace]
            ++ join_comma (omap (fun kv => match serialize kv.2 with
                                           | Some t => Some (quote kv.1 ++ [cu_colon] ++ t)
                                           | None => None
                                           end) props)
            ++ [cu_rbrace])
  end.

(** [JSON.stringify(v)]. *)
Definition json_stringify (v : value) : option jsstr := serialize v.

(** ** [JSON.parse] *)

Fixpoint skip_ws (s : jsstr) : jsstr :=
  match s with
  | c :: s' => if is_json_ws c then skip_ws s' else s
  | [] => []
  end.

Fixpoint strip_prefix (lit s : jsstr) : option jsstr :=
  match lit, s with
  | [], _ => Some s
  | a :: lit', c :: s' => if decide (a = c) then strip_prefix lit' s' else None
  | _ :: _, [] => None
  end.

Definition hex_val (c : N) : option N :=
  if bool_decide (48 <= c <= 57)%N then Some (c - 48)%N
  else if bool_decide (97 <= c <= 102)%N then Some (c - 87)%N
  else if bool_decide (65 <= c <= 70)%N then Some (c - 55)%N
  else None.

Definition hex4_val (a b c d : N) : option N :=
  match hex_val a, hex_val b, hex_val c, hex_val d with
  | Some a', Some b', Some c', Some d' => Some (a' * 4096 + b' * 256 + c' * 16 + d')%N
  | _, _, _, _ => None
  end.

(** The escapes of one character. *)
Definition simple_escape (e : N) : option N :=
  if decide (e = cu_quote) then Some cu_quote
  else if decide (e = cu_backslash) then Some cu_backslash
  else if decide (e = 47) then Some 47%N
  else if decide (e = 98) then Some 8%N
  else if decide (e = 102) then Some 12%N
  else if decide (e = 110) then Some 10%N
  else if decide (e = 114) then Some 13%N
  else if decide (e = 116) then Some 9%N
  else None.

Definition cons_fst (u : N) (r : option (jsstr * jsstr)) : option (jsstr * jsstr) :=
  match r with Some (t, r') => Some (u :: t, r') | None => None end.

(** The characters of a string literal after its opening quote, up to
    and without its closing quote. *)
Fixpoint parse_chars (s : jsstr) : option (jsstr * jsstr) :=
  match s with
  | [] => None
  | c :: s' =>
      if decide (c = cu_quote) then Some ([], s')
      else if decide (c = cu_backslash) then
        match s' with
        | e :: s'' =>
            if decide (e = 117) then
              match s'' with
              | a :: b :: c2 :: d :: r =>
                  match hex4_val a b c2 d with
                  | Some u => cons_fst u (parse_chars r)
                  | None => None
                  end
              | _ => None
              end
            else
              match simple_escape e with
              | Some u => cons_fst u (parse_chars s'')
              | None => None
              end
        | [] => None
        end
      else if (c <? 32)%N then None
      else cons_fst c (parse_chars s')
  end.

(** *** Objects as [JSON.parse] builds them *)

(** A canonical numeric string of an integer below 2^32 - 1: an array
    index, which OrdinaryOwnPropertyKeys lists first, in numeric order. *)
Definition index_value (k : jsstr) : N := digits_value 0 (map (fun c => c - 48)%N k).

Definition is_array_index (k : jsstr) : bool :=
  match k with
  | [] => false
  | c :: r =>
      forallb is_dec_digit k && (negb (bool_decide (c = cu_zero)) || bool_decide (r = []))
      && (index_value k <? 4294967295)%N
  end.

(** CreateDataProperty on an object that may have the key already. *)
Fixpoint obj_update (k : jsstr) (v : value) (props : list (jsstr * value))
    : option (list (jsstr * value)) :=
  match props with
  | [] => None
  | (k', v') :: ps =>
      if decide (k = k') then Some ((k', v) :: ps)
      else match obj_update k v ps with
           | Some ps' => Some ((k', v') :: ps')
           | None => None
           end
  end.

Fixpoint index_insert (k : jsstr) (v : value) (props : list (jsstr * value))
    : list (jsstr * value) :=
  match props with
  | [] => [(k, v)]
  | (k', v') :: ps =>
      if is_array_index k' && (index_value k' <=? index_value k)%N
      then (k', v') :: index_insert k v ps
      else (k, v) :: props
  end.

Definition obj_insert (k : jsstr) (v : value) (props : list (jsstr * value))
    : list (jsstr * value) :=
  match obj_update k v props with
  | Some ps => ps
  | None => if is_array_index k then index_insert k v props else props ++ [(k, v)]
  end.

(** *** Values *)

Fixpoint parse_value (fuel : nat) (s : jsstr) : option (value * jsstr) :=
  match fuel with
  | O => None
  | S f =>
      match skip_ws s with
      | [] => None
      | c :: r =>
          if decide (c = cu_lbrace) then
            match skip_ws r with
            | c' :: r' =>
                if decide (c' = cu_rbrace) then Some (VObject [], r')
                else parse_members f [] (c' :: r')
            | [] => None
            end
          else if decide (c = cu_lbrack) then
            match skip_ws r with
            | c' :: r' =>
                if decide (c' = cu_rbrack) then Some (VArray [], r')
                else parse_elems f [] (c' :: r')
            | [] => None
            end
          else if decide (c = cu_quote) then
            match parse_chars r with Some (t, r') => Some (VString t, r') | None => None end
          else
            match strip_prefix ‹"null"› (c :: r) with
            | Some r' => Some (VNull, r')
            | None =>
                match strip_prefix ‹"true"› (c :: r) with
                | Some r' => Some (VBool true, r')
                | None =>
                    match strip_prefix ‹"false"› (c :: r) with
                    | Some r' => Some (VBool false, r')
                    | None =>
                        match parse_number (c :: r) with
                        | Some (z, r') => Some (VNumber z, r')
                        | None => None
                        end
                    end
                end
            end
      end
  end
with parse_elems (fuel : nat) (acc : list value) (s : jsstr) : option (value * jsstr) :=
  match fuel with
  | O => None
  | S f =>
      match parse_value f s with
      | Some (v, r) =>
          match skip_ws r with
          | c :: r' =>
              if decide (c = cu_comma) then parse_elems f (acc ++ [v]) r'
              else if decide (c = cu_rbrack) then Some (VArray (acc ++ [v]), r')
              else None
          | [] => None
          end
      | None => None
      end
  end
with parse_members (fuel : nat) (acc : list (jsstr * value)) (s : jsstr)
    : option (value * jsstr) :=
  match fuel with
  | O => None
  | S f =>
      match skip_ws s with
      | c :: r =>
          if decide (c = cu_quote) then
            match parse_chars r with
            | Some (k, r1) =>
                match skip_ws r1 with
                | c1 :: r2 =>
                    if decide (c1 = cu_colon) then
                      match parse_value f r2 with
                      | Some (v, r3) =>
                          match skip_ws r3 with
                          | c3 :: r4 =>
                              if decide (c3 = cu_comma) then parse_members f (obj_insert k v acc) r4
                              else if decide (c3 = cu_rbrace) then
                                Some (VObject (obj_insert k v acc), r4)
                              else None
                          | [] => None
                          end
                      | None => None
                      end
                    else None
                | [] => None
                end
            | None => None
            end
          else None
      | [] => None
      end
  end.

(** [JSON.parse(text)]: one value, with white space around it. *)
Definition json_parse (text : jsstr) : option value :=
  match parse_value (S (length text)) text with
  | Some (v, r) => if bool_decide (skip_ws r = []) then Some v else None
  | None => None
  end.

(** ** Lemmas: escapes and numbers *)

Lemma hex_val_digit d : d < 16 -> hex_val (hex_digit d) = Some d.
Proof.
  intros Hd. unfold hex_digit, hex_val.
  destruct (N.ltb_spec d 10); case_bools; f_equal; lia.
Qed.

Lemma hex4_spec c : c < 65536 ->
  exists a b c2 d, hex4 c = [a; b; c2; d] /\ hex4_val a b c2 d = Some c.
Proof.
  intros Hc. do 4 eexists. split; [reflexivity|]. unfold hex4_val.
  rewrite !hex_val_digit by (apply N.mod_lt; lia). f_equal.
  assert (c = 16 * (c / 16) + c mod 16) as E0 by (apply N.div_mod; lia).
  assert (c / 16 = 16 * (c / 256) + (c / 16) mod 16) as E1.
  { rewrite (N.div_mod (c / 16) 16) at 1 by lia. f_equal. f_equal.
    rewrite N.Div0.div_div. reflexivity. }
  assert (c / 256 = 16 * (c / 4096) + (c / 256) mod 16) as E2.
  { rewrite (N.div_mod (c / 256) 16) at 1 by lia. f_equal. f_equal.
    rewrite N.Div0.div_div. reflexivity. }
  assert (c / 4096 < 16) by (apply N.Div0.div_lt_upper_bound; lia).
  rewrite (N.mod_small (c / 4096)) by lia.
  pose proof (N.mod_lt c 16 ltac:(lia)). pose proof (N.mod_lt (c / 16) 16 ltac:(lia)).
  pose proof (N.mod_lt (c / 256) 16 ltac:(lia)).
  lia.
Qed.

Lemma parse_raw c r :
  32 <= c -> c <> cu_quote -> c <> cu_backslash ->
  parse_chars (c :: r) = cons_fst c (parse_chars r).
Proof.
  intros H1 H2 H3. cbn [parse_chars].
  rewrite !decide_False by done. destruct (N.ltb_spec c 32); [lia|done].
Qed.

Lemma parse_unicode_escape c r :
  c < 65536 -> parse_chars (unicode_escape c ++ r) = cons_fst c (parse_chars r).
Proof.
  intros Hc. destruct (hex4_spec c Hc) as (a & b & c2 & d & E & Hv).
  unfold unicode_escape. rewrite E. cbn [app parse_chars].
  rewrite decide_False by done. rewrite decide_True by done. rewrite decide_True by done.
  by rewrite Hv.
Qed.

Lemma parse_escape_unit c r :
  c < 65536 -> parse_chars (escape_unit c ++ r) = cons_fst c (parse_chars r).
Proof.
  intros Hc. unfold escape_unit.
  repeat (case_decide; [subst; reflexivity|]).
  destruct (_ || _ || _) eqn:E; [by apply parse_unicode_escape|].
  apply orb_false_iff in E as [E _]. apply orb_false_iff in E as [E _].
  apply N.ltb_ge in E. cbn [app]. by apply parse_raw.
Qed.

(** A JavaScript string: every code unit is 16 bits wide. *)
Definition units16 (s : jsstr) : bool := forallb (fun c => c <? 65536) s.

Lemma quote_units_parse s rest :
  units16 s = true -> parse_chars (quote_units s ++ cu_quote :: rest) = Some (s, rest).
Proof.
  remember (length s) as n eqn:Hn. revert s Hn. induction (lt_wf n) as [n _ IH].
  intros [|c s'] Hn Hs; [reflexivity|].
  unfold units16 in Hs. cbn [forallb] in Hs. apply andb_prop in Hs as [Hc Hs']. apply N.ltb_lt in Hc.
  cbn [quote_units]. destruct (is_high_surrogate c) eqn:Hh.
  - destruct s' as [|d s''].
    + cbn [app]. rewrite parse_unicode_escape by done. reflexivity.
    + cbn [forallb] in Hs'. apply andb_prop in Hs' as [Hd Hs'']. apply N.ltb_lt in Hd.
      unfold is_high_surrogate in Hh. apply bool_decide_eq_true in Hh.
      destruct (is_low_surrogate d) eqn:Hl.
      * unfold is_low_surrogate in Hl. apply bool_decide_eq_true in Hl.
        cbn [app]. rewrite parse_raw by (unfold cu_quote, cu_backslash; lia).
        rewrite parse_raw by (unfold cu_quote, cu_backslash; lia).
        rewrite (IH (length s'') ltac:(simpl in Hn; lia) s'' eq_refl Hs''). done.
      * rewrite <- app_assoc, parse_unicode_escape by done.
        rewrite (IH (length (d :: s'')) ltac:(simpl in *; lia) (d :: s'') eq_refl); [done|].
        cbn [units16 forallb]. by rewrite Hs'', (proj2 (N.ltb_lt _ _) Hd).
  - rewrite <- app_assoc, parse_escape_unit by done.
    rewrite (IH (length s') ltac:(simpl in Hn; lia) s' eq_refl Hs'). done.
Qed.

(** ** Canonical JSON values

    The property order of an object [JSON.parse] builds: no array-index key
    after a key that is not one, array-index keys in increasing order. *)
Definition key_before (a b : jsstr) : bool :=
  negb (is_array_index b) || (is_array_index a && (index_value a <=? index_value b)).

Fixpoint keys_canon (ks : list jsstr) : bool :=
  match ks with
  | [] => true
  | k :: ks' => forallb (key_before k) ks' && keys_canon ks'
  end.

Lemma keys_canon_app_cons l1 k l2 :
  keys_canon (l1 ++ k :: l2) = true -> Forall (fun a => key_before a k = true) l1.
Proof.
  induction l1 as [|a l1 IH]; simpl; [constructor|]. intros [Ha Hc]%andb_prop.
  constructor; [|by apply IH]. rewrite forallb_app in Ha. apply andb_prop in Ha as [_ Ha].
  simpl in Ha. by apply andb_prop in Ha as [-> _].
Qed.

Lemma obj_update_none k v props : k ∉ map fst props -> obj_update k v props = None.
Proof.
  induction props as [|[k' v'] ps IH]; simpl; [done|]. intros Hk.
  rewrite decide_False by (intros ->; apply Hk; left). rewrite IH; [done|].
  intros H; apply Hk; by right.
Qed.

Lemma index_insert_end k v acc :
  Forall (fun kv => is_array_index kv.1 && (index_value kv.1 <=? index_value k) = true) acc ->
  index_insert k v acc = acc ++ [(k, v)].
Proof. induction 1 as [|[k' v'] ps Hk _ IH]; [done|]. simpl. simpl in Hk. by rewrite Hk, IH. Qed.

Lemma obj_insert_end acc k v rest :
  keys_canon (map fst acc ++ k :: rest) = true -> k ∉ map fst acc ->
  obj_insert k v acc = acc ++ [(k, v)].
Proof.
  intros Hc Hk. unfold obj_insert. rewrite obj_update_none by done.
  destruct (is_array_index k) eqn:Hi; [|done].
  apply index_insert_end. apply keys_canon_app_cons in Hc.
  apply Forall_fmap in Hc. eapply Forall_impl; [|exact Hc].
  intros [a b]. unfold key_before. simpl. rewrite Hi. simpl. done.
Qed.

(** Values as JavaScript has them: strings of 16-bit code units and
    objects in the order of their own keys. *)
Fixpoint json_canonical (v : value) : bool :=
  match v with
  | VString s => units16 s
  | VArray xs => forallb json_canonical xs
  | VObject props =>
      keys_canon (map fst props) && forallb (fun kv => units16 kv.1 && json_canonical kv.2) props
  | _ => true
  end.

(** ** From [JSON.stringify] back to the value

    [jsize] bounds the fuel the parser needs: one unit per value and per
    element or member. *)
Fixpoint jsize (v : value) : nat :=
  match v with
  | VArray xs => S (sum_list_with (fun x => S (jsize x)) xs)
  | VObject props => S (sum_list_with (fun kv => S (jsize kv.2)) props)
  | _ => 1
  end.

(** What may follow a value inside a JSON text. *)
Definition follow (r : jsstr) : Prop :=
  match r with [] => True | c :: _ => c = cu_comma \/ c = cu_rbrack \/ c = cu_rbrace end.

Definition head_ok (t : jsstr) : Prop :=
  exists c t', t = c :: t' /\ is_json_ws c = false /\ c <> cu_rbrack /\ c <> cu_rbrace.

(** [t] is a text for [v]: long enough for the fuel, starting with a
    character that opens a value, and parsed back to [v] before whatever
    may follow it. *)
Definition parses_back (v : value) (t : jsstr) : Prop :=
  (jsize v <= length t)%nat /\ head_ok t
  /\ forall f r, (jsize v <= f)%nat -> follow r -> parse_value f (t ++ r) = Some (v, r).

Lemma follow_skip r : follow r -> skip_ws r = r.
Proof. destruct r as [|c r]; [done|]. simpl. intros [->|[->| ->]]; reflexivity. Qed.

Lemma follow_no_cont r : follow r -> no_number_cont r = true.
Proof. destruct r as [|c r]; [done|]. simpl. intros [->|[->| ->]]; reflexivity. Qed.

Lemma skip_ws_head c t : is_json_ws c = false -> skip_ws (c :: t) = c :: t.
Proof. simpl. by intros ->. Qed.

Lemma strip_prefix_miss a lit c s : a <> c -> strip_prefix (a :: lit) (c :: s) = None.
Proof. intros H. simpl. by rewrite decide_False. Qed.

Lemma num_text_head x r :
  is_finite x = true -> exists c t', num_text x ++ r = c :: t' /\ 45 <= c <= 57.
Proof.
  intros Hf. unfold num_text. rewrite Hf.
  destruct (number_to_string_head x r Hf) as (c & t & E & Hc). exists c, t. split; [done|].
  unfold cu_minus, is_dec_digit in Hc. destruct Hc as [->|Hc]; [lia|].
  apply bool_decide_eq_true in Hc. lia.
Qed.

Lemma parses_back_num x :
  valid x = true -> is_finite x = true -> num_norm x = x -> parses_back (VNumber x) (num_text x).
Proof.
  intros Hv Hf Hn. split; [|split].
  - destruct (num_text_head x [] Hf) as (c & t & E & _). rewrite app_nil_r in E. rewrite E. simpl. lia.
  - destruct (num_text_head x [] Hf) as (c & t & E & Hc). rewrite app_nil_r in E.
    exists c, t. split; [done|]. unfold is_json_ws, cu_rbrack, cu_rbrace.
    split; [apply bool_decide_false; lia|lia].
  - intros [|f] r Hfu Hr; [simpl in Hfu; lia|].
    destruct (num_text_head x r Hf) as (c & t & E & Hc).
    cbn [parse_value]. rewrite E, skip_ws_head by (apply bool_decide_false; lia).
    rewrite !decide_False by (unfold cu_lbrace, cu_lbrack, cu_quote; lia).
    change ‹"null"› with [110; 117; 108; 108]. change ‹"true"› with [116; 114; 117; 101].
    change ‹"false"› with [102; 97; 108; 115; 101].
    rewrite !strip_prefix_miss by lia. rewrite <- E. unfold num_text. rewrite Hf.
    rewrite number_to_string_parse by (done || by apply follow_no_cont). by rewrite Hn.
Qed.

Lemma parses_back_string s : units16 s = true -> parses_back (VString s) (quote s).
Proof.
  intros Hs. split; [|split].
  - unfold quote. rewrite !length_app. simpl. lia.
  - eexists _, _. split; [reflexivity|]. done.
  - intros [|f] r Hf Hr; [simpl in Hf; lia|]. unfold quote. rewrite <- !app_assoc.
    pose proof (quote_units_parse s r Hs) as E. cbn [app] in E |- *.
    cbn [parse_value]. rewrite skip_ws_head by reflexivity.
    rewrite !decide_False by (unfold cu_quote, cu_lbrace, cu_lbrack; lia).
    rewrite decide_True by done. by rewrite E.
Qed.

Lemma parses_back_lit v lit :
  (v = VNull /\ lit = ‹"null"›) \/ (v = VBool true /\ lit = ‹"true"›)
  \/ (v = VBool false /\ lit = ‹"false"›) ->
  parses_back v lit.
Proof.
  intros Hv. split; [|split].
  - destruct Hv as [[-> ->]|[[-> ->]|[-> ->]]]; simpl; lia.
  - destruct Hv as [[-> ->]|[[-> ->]|[-> ->]]]; eexists _, _; split; done.
  - intros [|f] r Hf Hr; [destruct Hv as [[-> _]|[[-> _]|[-> _]]]; simpl in Hf; lia|].
    destruct Hv as [[-> ->]|[[-> ->]|[-> ->]]]; reflexivity.
Qed.

Lemma texts_of_values xs :
  Forall (fun x => exists t, serialize x = Some t /\ parses_back x t) xs ->
  exists ts, Forall2 parses_back xs ts
             /\ map (fun x => match serialize x with Some t => t | None => ‹"null"› end) xs = ts.
Proof.
  induction 1 as [|x xs (t & Ht & Hp) _ (ts & H2 & Hm)]; [by exists []|].
  exists (t :: ts). split; [by constructor|]. simpl. by rewrite Ht, Hm.
Qed.

Lemma join_comma_length ts :
  ts <> [] -> S (length (join_comma ts)) = sum_list_with (fun t => S (length t)) ts.
Proof.
  induction ts as [|t ts IH]; [done|]. intros _. destruct ts as [|t' ts'].
  - simpl. lia.
  - change (join_comma (t :: t' :: ts')) with (t ++ [cu_comma] ++ join_comma (t' :: ts')).
    rewrite !length_app. cbn [sum_list_with]. cbn [sum_list_with] in IH.
    rewrite <- IH by done. simpl. lia.
Qed.

Lemma sum_list_le {A B} (f : A -> nat) (g : B -> nat) (P : A -> B -> Prop) xs ys :
  (forall x y, P x y -> f x <= g y)%nat -> Forall2 P xs ys ->
  (sum_list_with f xs <= sum_list_with g ys)%nat.
Proof. intros H. induction 1; simpl; [lia|]. specialize (H _ _ H0). lia. Qed.

Lemma elems_parse xs ts :
  Forall2 parses_back xs ts -> xs <> [] ->
  forall f acc r, (sum_list_with (fun x => S (jsize x)) xs <= f)%nat ->
  parse_elems f acc (join_comma ts ++ cu_rbrack :: r) = Some (VArray (acc ++ xs), r).
Proof.
  induction 1 as [|x t xs ts (_ & _ & Hx) Hxs IH]; [done|]. intros _ [|f] acc r Hf;
    cbn [sum_list_with] in Hf; [lia|].
  destruct Hxs as [|x' t' xs' ts' Hx' Hxs'].
  - cbn [join_comma parse_elems]. rewrite Hx by (simpl; lia || tauto).
    rewrite follow_skip by (simpl; tauto). rewrite decide_False by done.
    rewrite decide_True by done. done.
  - change (join_comma (t :: t' :: ts')) with (t ++ [cu_comma] ++ join_comma (t' :: ts')).
    rewrite <- !app_assoc. cbn [app parse_elems]. rewrite Hx by (simpl; lia || tauto).
    rewrite follow_skip by (simpl; tauto). rewrite decide_True by done.
    rewrite IH; [by rewrite <- app_assoc|done|cbn [sum_list_with] in *; lia].
Qed.

Lemma join_comma_head c t ts : exists rest, join_comma ((c :: t) :: ts) = c :: rest.
Proof. destruct ts; eexists; reflexivity. Qed.

Lemma parses_back_array xs ts :
  Forall2 parses_back xs ts -> parses_back (VArray xs) ([cu_lbrack] ++ join_comma ts ++ [cu_rbrack]).
Proof.
  intros H2. split; [|split].
  - destruct H2 as [|x t xs' ts' Hx H2']; [simpl; lia|].
    rewrite !length_app. cbn [jsize].
    pose proof (join_comma_length (t :: ts') ltac:(done)) as E.
    pose proof (sum_list_le (fun x => S (jsize x)) (fun t => S (length t)) parses_back
                  (x :: xs') (t :: ts') ltac:(intros ? ? [? _]; lia) ltac:(by constructor)).
    simpl in *. lia.
  - eexists _, _. split; [reflexivity|]. done.
  - intros [|f] r Hf Hr; [simpl in Hf; lia|].
    rewrite <- !app_assoc. cbn [app parse_value]. rewrite skip_ws_head by reflexivity.
    rewrite decide_False by done. rewrite decide_True by done.
    destruct H2 as [|x t xs' ts' Hx H2'].
    + cbn [join_comma app]. rewrite skip_ws_head by reflexivity. by rewrite decide_True.
    + pose proof Hx as (_ & (c & t' & Et & Hws & Hb & _) & _). subst t.
      destruct (join_comma_head c t' ts') as [rest E]. rewrite E. cbn [app].
      rewrite skip_ws_head by done. rewrite decide_False by done.
      change (c :: rest ++ cu_rbrack :: r) with ((c :: rest) ++ cu_rbrack :: r). rewrite <- E.
      rewrite (elems_parse (x :: xs') ((c :: t') :: ts')); [done|by constructor|done|].
      cbn [jsize] in Hf. lia.
Qed.

Definition member_ok (kv : jsstr * value) (m : jsstr) : Prop :=
  exists t, m = quote kv.1 ++ [cu_colon] ++ t /\ parses_back kv.2 t /\ units16 kv.1 = true.

(** One member [k:v] of an object text, followed by [X]. *)
Lemma member_step f acc k v t X :
  units16 k = true -> parses_back v t -> (jsize v <= f)%nat -> follow X ->
  parse_members (S f) acc ((quote k ++ [cu_colon] ++ t) ++ X)
  = match X with
    | c3 :: r4 =>
        if decide (c3 = cu_comma) then parse_members f (obj_insert k v acc) r4
        else if decide (c3 = cu_rbrace) then Some (VObject (obj_insert k v acc), r4)
        else None
    | [] => None
    end.
Proof.
  intros Hk (_ & _ & Hv) Hf HX. unfold quote. rewrite <- !app_assoc. cbn [app parse_members].
  rewrite skip_ws_head by reflexivity. rewrite decide_True by done.
  rewrite quote_units_parse by done. rewrite skip_ws_head by reflexivity.
  rewrite decide_True by done. rewrite Hv by done. by rewrite follow_skip.
Qed.

Lemma members_parse props ms :
  Forall2 member_ok props ms -> props <> [] ->
  forall f acc r,
  keys_canon (map fst (acc ++ props)) = true -> NoDup (map fst (acc ++ props)) ->
  (sum_list_with (fun kv => S (jsize kv.2)) props <= f)%nat ->
  parse_members f acc (join_comma ms ++ cu_rbrace :: r) = Some (VObject (acc ++ props), r).
Proof.
  induction 1 as [|[k v] m props ms (t & -> & Hp & Hk) Hms IH]; [done|].
  intros _ [|f] acc r Hc Hnd Hf; cbn [sum_list_with] in Hf; [lia|]. simpl in Hf.
  cbn [fst snd] in Hp, Hk |- *.
  rewrite map_app in Hc, Hnd. cbn [map fst] in Hc, Hnd.
  assert (obj_insert k v acc = acc ++ [(k, v)]) as Hins.
  { apply (obj_insert_end _ _ _ _ Hc). apply list.NoDup_app in Hnd as (_ & Hd & _).
    intros Hin. by apply (Hd k Hin), list_elem_of_here. }
  destruct Hms as [|kv' m' props' ms' Hm' Hms'].
  - cbn [join_comma]. rewrite (member_step f acc k v t) by (done || lia || (simpl; tauto)).
    rewrite decide_False by done. rewrite decide_True by done. by rewrite Hins.
  - change (join_comma ((quote k ++ [cu_colon] ++ t) :: m' :: ms'))
      with ((quote k ++ [cu_colon] ++ t) ++ [cu_comma] ++ join_comma (m' :: ms')).
    rewrite <- (app_assoc (quote k ++ [cu_colon] ++ t)).
    rewrite (member_step f acc k v t) by (done || lia || (simpl; tauto)). cbn [app].
    rewrite decide_True by done. rewrite Hins.
    rewrite IH; [by rewrite <- app_assoc|done|..].
    + by rewrite !map_app, <- app_assoc.
    + by rewrite !map_app, <- app_assoc.
    + cbn [sum_list_with] in *. lia.
Qed.

Lemma parses_back_object props ms :
  Forall2 member_ok props ms -> keys_canon (map fst props) = true -> NoDup (map fst props) ->
  parses_back (VObject props) ([cu_lbrace] ++ join_comma ms ++ [cu_rbrace]).
Proof.
  intros H2 Hc Hnd. split; [|split].
  - destruct H2 as [|kv m props' ms' Hm H2']; [simpl; lia|].
    rewrite !length_app. cbn [jsize].
    pose proof (join_comma_length (m :: ms') ltac:(done)) as E.
    pose proof (sum_list_le (fun kv => S (jsize kv.2)) (fun t => S (length t)) member_ok
                  (kv :: props') (m :: ms')
                  ltac:(intros ? ? (t & -> & [? _] & _); unfold quote; rewrite !length_app; simpl; lia)
                  ltac:(by constructor)).
    simpl in *. lia.
  - eexists _, _. split; [reflexivity|]. done.
  - intros [|f] r Hf Hr; [simpl in Hf; lia|].
    rewrite <- !app_assoc. cbn [app parse_value]. rewrite skip_ws_head by reflexivity.
    rewrite decide_True by done.
    destruct H2 as [|kv m props' ms' Hm H2'].
    + cbn [join_comma app]. rewrite skip_ws_head by reflexivity. by rewrite decide_True.
    + pose proof Hm as (t & -> & _).
      destruct (join_comma_head cu_quote (quote_units kv.1 ++ [cu_quote] ++ [cu_colon] ++ t) ms')
        as [rest E].
      assert (quote kv.1 ++ [cu_colon] ++ t = cu_quote :: (quote_units kv.1 ++ [cu_quote] ++ [cu_colon] ++ t))
        as Eq by (unfold quote; by rewrite <- !app_assoc).
      rewrite Eq, E. cbn [app]. rewrite skip_ws_head by reflexivity. rewrite decide_False by done.
      change (cu_quote :: rest ++ cu_rbrace :: r) with ((cu_quote :: rest) ++ cu_rbrace :: r).
      rewrite <- E, <- Eq.
      rewrite (members_parse (kv :: props') ((quote kv.1 ++ [cu_colon] ++ t) :: ms')); done || (cbn [jsize] in Hf; lia) || by constructor.
Qed.

Lemma texts_of_members props :
  Forall (fun kv => exists t, serialize kv.2 = Some t /\ parses_back kv.2 t /\ units16 kv.1 = true) props ->
  exists ms, Forall2 member_ok props ms
             /\ omap (fun kv => match serialize kv.2 with
                                | Some t => Some (quote kv.1 ++ [cu_colon] ++ t)
                                | None => None
                                end) props = ms.
Proof.
  induction 1 as [|[k v] props (t & Ht & Hp & Hk) _ (ms & H2 & Hm)]; [by exists []|].
  exists ((quote k ++ [cu_colon] ++ t) :: ms). split.
  - constructor; [|done]. by exists t.
  - change ((k, v) :: props) with ([(k, v)] ++ props). rewrite omap_app, Hm.
    simpl in Ht |- *. by rewrite Ht.
Qed.

Lemma serialize_parses_back v :
  is_json v = true -> json_canonical v = true -> numbers_plain v = true ->
  exists t, serialize v = Some t /\ parses_back v t.
Proof.
  induction v as [| |b|z|s|xs IH|props IH] using value_ind';
    cbn [is_json json_canonical numbers_plain serialize]; intros Hj Hc Hn; try discriminate.
  - eexists. split; [reflexivity|]. apply parses_back_lit. by left.
  - eexists. split; [reflexivity|]. apply parses_back_lit. destruct b; right; [left|right]; done.
  - apply andb_prop in Hj as [Hv _]. apply andb_prop in Hn as [Hf Hz].
    apply bool_decide_eq_true in Hz.
    eexists. split; [reflexivity|]. by apply parses_back_num.
  - eexists. split; [reflexivity|]. by apply parses_back_string.
  - destruct (texts_of_values xs) as (ts & H2 & Hm).
    { rewrite list.Forall_forall in IH |- *. intros x Hx. apply list_elem_of_In in Hx.
      apply IH; [by apply list_elem_of_In|eapply (proj1 (forallb_forall _ _) Hj)
        |eapply (proj1 (forallb_forall _ _) Hc)|eapply (proj1 (forallb_forall _ _) Hn)]; done. }
    eexists. split; [reflexivity|]. rewrite Hm. by apply parses_back_array.
  - apply andb_prop in Hj as [Hnd Hj]. apply andb_prop in Hc as [Hk Hc].
    destruct (texts_of_members props) as (ms & H2 & Hm).
    { rewrite list.Forall_forall in IH |- *. intros kv Hkv. apply list_elem_of_In in Hkv.
      pose proof (proj1 (forallb_forall _ _) Hc kv Hkv) as [Hu Hcv]%andb_prop.
      destruct (IH kv) as (t & Ht & Hp); [by apply list_elem_of_In|by apply (proj1 (forallb_forall _ _) Hj)
        |done|by apply (proj1 (forallb_forall _ _) Hn)|].
      by exists t. }
    eexists. split; [reflexivity|]. rewrite Hm. apply parses_back_object; [done|done|].
    by apply bool_decide_eq_true in Hnd.
Qed.

(** [JSON.stringify] writes the same text for a value and for what that
    text denotes. *)
Lemma serialize_normalize v : serialize (json_normalize v) = serialize v.
Proof.
  induction v as [| | |x| |xs IH|props IH] using value_ind'; try done.
  - cbn [json_normalize]. destruct (is_finite x) eqn:Hf; cbn [serialize]; unfold num_text;
      rewrite Hf; [|done]. destruct x; try discriminate; reflexivity.
  - rewrite json_normalize_array. cbn [serialize]. rewrite map_map. do 3 f_equal.
    f_equal. apply map_ext_in. intros x Hx. rewrite List.Forall_forall in IH.
    destruct (undefined_or x) as [->|Hu]; [done|]. by rewrite norm_elem_def, IH.
  - rewrite json_normalize_object. cbn [serialize]. do 4 f_equal.
    induction IH as [|[k x] ps Hx _ IHps]; [done|].
    change ((k, x) :: ps) with ([(k, x)] ++ ps). rewrite !omap_app, IHps. f_equal.
    cbn in Hx. destruct (undefined_or x) as [->|Hu]; [done|].
    cbn. rewrite (norm_member_def k x Hu). cbn. by rewrite Hx.
Qed.

Lemma json_normalize_canonical v :
  is_json v = true -> json_canonical v = true -> json_canonical (json_normalize v) = true.
Proof.
  induction v as [| | |x| |xs IH|props IH] using value_ind'; cbn [is_json json_canonical];
    intros Hj Hc; try done.
  - cbn. by destruct (is_finite x).
  - rewrite json_normalize_array. cbn [json_canonical]. apply forallb_forall.
    intros y Hy. apply list_elem_of_In, list_elem_of_fmap in Hy as (x & -> & Hx).
    apply list_elem_of_In in Hx as Hx'.
    pose proof (proj1 (forallb_forall _ _) Hj x Hx') as Hjx.
    pose proof (proj1 (forallb_forall _ _) Hc x Hx') as Hcx.
    rewrite norm_elem_def by (by apply is_json_defined).
    rewrite list.Forall_forall in IH. by apply IH.
  - apply andb_prop in Hj as [_ Hj]. apply andb_prop in Hc as [Hk Hc].
    rewrite json_normalize_object, omap_norm_member by (by apply is_json_members).
    cbn [json_canonical]. apply andb_true_intro. split.
    { rewrite map_map. erewrite map_ext; [exact Hk|]. by intros []. }
    apply forallb_forall. intros kv Hkv. apply list_elem_of_In, list_elem_of_fmap in Hkv as ([k x] & -> & Hx).
    apply list_elem_of_In in Hx as Hx'. cbn.
    pose proof (proj1 (forallb_forall _ _) Hc _ Hx') as [Hu Hcx]%andb_prop. cbn in Hu, Hcx.
    rewrite Hu. cbn.
    rewrite list.Forall_forall in IH. apply (IH (k, x) Hx); [|done].
    apply (proj1 (forallb_forall _ _) Hj _ Hx').
Qed.

(** The text of a value whose numbers are plain parses back to the value
    itself. *)
Lemma json_text_plain v :
  is_json v = true -> json_canonical v = true -> numbers_plain v = true ->
  exists t, json_stringify v = Some t /\ json_parse t = Some v.
Proof.
  intros Hj Hc Hn. destruct (serialize_parses_back v Hj Hc Hn) as (t & Ht & Hl & _ & Hp).
  exists t. split; [done|]. unfold json_parse.
  rewrite <- (app_nil_r t) at 2. rewrite Hp by (done || lia). reflexivity.
Qed.

(** [JSON.parse(JSON.stringify(v))] is the value the text denotes,
    [json_normalize v], for every JSON value whose strings are JavaScript
    strings and whose objects list their keys in JavaScript's order: the
    text is valid JSON, numbers come back as the same doubles except that
    an infinity comes back as [null] and [-0] as [0]. *)
Lemma json_roundtrip v :
  is_json v = true -> json_canonical v = true ->
  exists t, json_stringify v = Some t /\ json_parse t = Some (json_normalize v).
Proof.
  intros Hj Hc.
  destruct (json_text_plain (json_normalize v)) as (t & Ht & Hp);
    [by apply json_normalize_is_json|by apply json_normalize_canonical|apply json_normalize_plain|].
  exists t. split; [|done]. unfold json_stringify in *. by rewrite <- serialize_normalize.
Qed.

(** ** What [JSON.parse] returns *)

Lemma forallb_perm {A} (f : A -> bool) l1 l2 : l1 ≡ₚ l2 -> forallb f l1 = forallb f l2.
Proof.
  intros Hp. apply Bool.eq_iff_eq_true. rewrite !forallb_forall. split; intros H x Hx; apply H.
  - by apply (Permutation_in x (Permutation_sym Hp)).
  - by apply (Permutation_in x Hp).
Qed.

Lemma index_insert_keys k v acc : map fst (index_insert k v acc) ≡ₚ k :: map fst acc.
Proof.
  induction acc as [|[k' v'] ps IH]; [done|]. simpl.
  destruct (_ && _); simpl; [|done]. rewrite IH. apply perm_swap.
Qed.

Lemma index_insert_elems k v acc kv : kv ∈ index_insert k v acc -> kv ∈ acc \/ kv = (k, v).
Proof.
  induction acc as [|[k' v'] ps IH]; simpl.
  - intros ->%list_elem_of_singleton. by right.
  - destruct (_ && _); intros [->|Hin]%elem_of_cons.
    + left. apply list_elem_of_here.
    + destruct (IH Hin) as [H|H]; [left; by apply list_elem_of_further|by right].
    + by right.
    + by left.
Qed.

Lemma index_insert_canon k v acc :
  is_array_index k = true -> keys_canon (map fst acc) = true ->
  keys_canon (map fst (index_insert k v acc)) = true.
Proof.
  intros Hk. induction acc as [|[k' v'] ps IH]; [done|]. cbn [map fst keys_canon index_insert].
  intros [Hb Hc]%andb_prop. destruct (is_array_index k' && _) eqn:Hcond.
  - cbn [map fst keys_canon]. rewrite IH by done. rewrite andb_true_r.
    rewrite (forallb_perm _ _ _ (index_insert_keys k v ps)). cbn [forallb]. rewrite Hb, andb_true_r.
    unfold key_before. by rewrite Hcond, orb_true_r.
  - cbn [map fst keys_canon forallb]. rewrite Hb, Hc. rewrite !andb_true_r.
    apply andb_true_intro. split.
    + unfold key_before. rewrite Hk. simpl.
      destruct (is_array_index k'); simpl in *; [|done]. apply N.leb_le. apply N.leb_gt in Hcond. lia.
    + apply forallb_forall. intros b Hb'. pose proof (proj1 (forallb_forall _ _) Hb b Hb') as Hkb.
      unfold key_before in *. rewrite Hk. simpl.
      destruct (is_array_index b); [|done]. simpl in *. apply andb_prop in Hkb as [Hk' Hle].
      rewrite Hk' in Hcond. simpl in Hcond. apply N.leb_gt in Hcond. apply N.leb_le in Hle.
      apply N.leb_le. lia.
Qed.

Lemma keys_canon_snoc ks k :
  keys_canon ks = true -> is_array_index k = false -> keys_canon (ks ++ [k]) = true.
Proof.
  intros Hc Hk. induction ks as [|a ks IH]; [done|]. cbn [keys_canon app] in *.
  apply andb_prop in Hc as [Ha Hc]. rewrite forallb_app, Ha, IH by done. simpl.
  unfold key_before. by rewrite Hk.
Qed.

Lemma obj_update_some k v acc ps :
  obj_update k v acc = Some ps ->
  map fst ps = map fst acc /\ (forall kv, kv ∈ ps -> kv ∈ acc \/ kv = (k, v)).
Proof.
  revert ps. induction acc as [|[k' v'] acc IH]; intros ps; simpl; [done|].
  case_decide as Hk.
  - intros [= <-]. subst. split; [done|]. intros kv [->|Hin]%elem_of_cons; [by right|].
    left. by apply list_elem_of_further.
  - destruct (obj_update k v acc) as [ps'|] eqn:E; [|done]. intros [= <-].
    destruct (IH ps' eq_refl) as [Hk' Hin]. simpl. rewrite Hk'. split; [done|].
    intros kv [->|Hkv]%elem_of_cons; [left; apply list_elem_of_here|].
    destruct (Hin kv Hkv) as [H|H]; [left; by apply list_elem_of_further|by right].
Qed.

Lemma obj_update_none_notin k v acc : obj_update k v acc = None -> k ∉ map fst acc.
Proof.
  induction acc as [|[k' v'] acc IH]; simpl; [intros _; apply not_elem_of_nil|].
  case_decide as Hk; [done|]. destruct (obj_update k v acc); [done|]. intros _.
  apply not_elem_of_cons. split; [done|]. by apply IH.
Qed.

(** The objects [JSON.parse] builds: distinct keys in canonical order. *)
Definition obj_ok (P : value -> Prop) (acc : list (jsstr * value)) : Prop :=
  NoDup (map fst acc) /\ keys_canon (map fst acc) = true
  /\ Forall (fun kv => units16 kv.1 = true /\ P kv.2) acc.

Lemma obj_insert_ok (P : value -> Prop) k v acc :
  obj_ok P acc -> units16 k = true -> P v -> obj_ok P (obj_insert k v acc).
Proof.
  intros (Hnd & Hc & Hall) Hk Hv. unfold obj_insert, obj_ok.
  destruct (obj_update k v acc) as [ps|] eqn:E.
  - destruct (obj_update_some _ _ _ _ E) as [Hkeys Hin]. rewrite Hkeys.
    split; [done|]. split; [done|]. apply list.Forall_forall. intros kv Hkv.
    destruct (Hin kv Hkv) as [H| ->]; [|done]. exact (proj1 (list.Forall_forall _ _) Hall _ H).
  - apply obj_update_none_notin in E. destruct (is_array_index k) eqn:Hi.
    + split; [|split].
      * rewrite (index_insert_keys k v acc). by apply NoDup_cons_2.
      * by apply index_insert_canon.
      * apply list.Forall_forall. intros kv Hkv.
        destruct (index_insert_elems _ _ _ _ Hkv) as [H| ->]; [|done].
        exact (proj1 (list.Forall_forall _ _) Hall _ H).
    + rewrite map_app. cbn [map fst]. split; [|split].
      * apply list.NoDup_app. split; [done|]. split; [|apply NoDup_singleton].
        intros x Hx ->%list_elem_of_singleton. done.
      * by apply keys_canon_snoc.
      * apply Forall_app. split; [done|]. by constructor.
Qed.

Lemma units16_suffix s r : r `suffix_of` s -> units16 s = true -> units16 r = true.
Proof. intros [u ->]. unfold units16. rewrite forallb_app. by intros [_ ?]%andb_prop. Qed.

Lemma skip_ws_suffix s : skip_ws s `suffix_of` s.
Proof.
  induction s as [|c s IH]; simpl; [done|].
  destruct (is_json_ws c); [by apply suffix_cons_r|done].
Qed.

Lemma strip_prefix_suffix lit s r : strip_prefix lit s = Some r -> r `suffix_of` s.
Proof.
  revert s. induction lit as [|a lit IH]; intros [|c s]; simpl; try done.
  - by intros [= ->].
  - by intros [= ->].
  - case_decide; [|done]. intros Hs. apply suffix_cons_r. by apply IH.
Qed.

Lemma hex_val_lt c x : hex_val c = Some x -> x < 16.
Proof. unfold hex_val. case_bools; intros [= <-]; lia || done. Qed.

Lemma hex4_val_lt a b c d x : hex4_val a b c d = Some x -> x < 65536.
Proof.
  unfold hex4_val.
  destruct (hex_val a) as [a'|] eqn:Ea, (hex_val b) as [b'|] eqn:Eb,
    (hex_val c) as [c'|] eqn:Ec, (hex_val d) as [d'|] eqn:Ed; try done.
  intros [= <-]. apply hex_val_lt in Ea, Eb, Ec, Ed. lia.
Qed.

Lemma cons_fst_some u r t r' :
  cons_fst u r = Some (t, r') -> exists t0, r = Some (t0, r') /\ t = u :: t0.
Proof. destruct r as [[t0 r0]|]; simpl; [intros [= <- <-]; by exists t0|done]. Qed.

Lemma parse_chars_ok s t r :
  units16 s = true -> parse_chars s = Some (t, r) -> units16 t = true /\ r `suffix_of` s.
Proof.
  remember (length s) as n eqn:Hn. revert s t Hn. induction (lt_wf n) as [n _ IH].
  intros s t Hn Hs Hp.
  destruct s as [|c0 s0]; [done|]. rename c0 into c. cbn [parse_chars] in Hp.
  unfold units16 in Hs. cbn [forallb] in Hs. apply andb_prop in Hs as [Hc Hs].
  case_decide; [injection Hp as <- <-; split; [done|by apply suffix_cons_r]|].
  case_decide.
  - destruct s0 as [|e s1]; [done|]. cbn [forallb] in Hs. apply andb_prop in Hs as [He Hs].
    case_decide.
    + destruct s1 as [|a [|b [|c2 [|d r0]]]]; try done.
      destruct (hex4_val a b c2 d) as [u|] eqn:Eu; [|done].
      apply cons_fst_some in Hp as (t0 & Ht0 & ->).
      cbn [forallb] in Hs. repeat (apply andb_prop in Hs as [_ Hs]).
      destruct (IH (length r0) ltac:(simpl in *; lia) r0 t0 eq_refl Hs Ht0) as [Hu Hsuf].
      split; [|by do 6 apply suffix_cons_r].
      unfold units16 in Hu |- *. cbn [forallb]. rewrite Hu, andb_true_r. apply N.ltb_lt. by eapply hex4_val_lt.
    + destruct (simple_escape e) as [u|] eqn:Eu; [|done].
      apply cons_fst_some in Hp as (t0 & Ht0 & ->).
      destruct (IH (length s1) ltac:(simpl in *; lia) s1 t0 eq_refl Hs Ht0) as [Hu Hsuf].
      split; [|by do 2 apply suffix_cons_r].
      unfold units16 in Hu |- *. cbn [forallb]. rewrite Hu, andb_true_r. apply N.ltb_lt.
      unfold simple_escape in Eu. repeat case_decide; injection Eu as <- || done; done.
  - destruct (c <? 32); [done|]. apply cons_fst_some in Hp as (t0 & Ht0 & ->).
    destruct (IH (length s0) ltac:(simpl in *; lia) s0 t0 eq_refl Hs Ht0) as [Hu Hsuf].
    split; [|by apply suffix_cons_r]. unfold units16 in Hu |- *. cbn [forallb]. by rewrite Hc, Hu.
Qed.

Definition wf_json (v : value) : Prop := is_json v = true /\ json_canonical v = true.

Lemma wf_json_array xs : Forall wf_json xs -> wf_json (VArray xs).
Proof.
  intros H. split; cbn [is_json json_canonical]; apply forallb_forall; intros x Hx;
    apply (proj1 (list.Forall_forall _ _) H x); by apply list_elem_of_In.
Qed.

Lemma wf_json_object props : obj_ok wf_json props -> wf_json (VObject props).
Proof.
  intros (Hnd & Hc & H). split; cbn [is_json json_canonical].
  - apply andb_true_intro. split; [by apply bool_decide_eq_true|].
    apply forallb_forall. intros kv Hkv.
    apply (proj1 (list.Forall_forall _ _) H kv); by apply list_elem_of_In.
  - rewrite Hc. apply forallb_forall. intros kv Hkv.
    destruct (proj1 (list.Forall_forall _ _) H kv) as (Hk & _ & Hv); [by apply list_elem_of_In|].
    by rewrite Hk, Hv.
Qed.

Lemma obj_ok_nil P : obj_ok P [].
Proof. split; [constructor|]. split; [done|constructor]. Qed.

Lemma units16_cons c s : units16 (c :: s) = true -> units16 s = true.
Proof. unfold units16. cbn [forallb]. by intros [_ ?]%andb_prop. Qed.

Section parse_wf_step.
Variable f : nat.
Hypothesis IHv : forall s v r, units16 s = true -> parse_value f s = Some (v, r) ->
  wf_json v /\ r `suffix_of` s.
Hypothesis IHe : forall acc s v r, Forall wf_json acc -> units16 s = true ->
  parse_elems f acc s = Some (v, r) -> wf_json v /\ r `suffix_of` s.
Hypothesis IHm : forall acc s v r, obj_ok wf_json acc -> units16 s = true ->
  parse_members f acc s = Some (v, r) -> wf_json v /\ r `suffix_of` s.

Lemma skip_ws_units s : units16 s = true -> units16 (skip_ws s) = true.
Proof. apply units16_suffix, skip_ws_suffix. Qed.

Lemma parse_value_wf_step s v r :
  units16 s = true -> parse_value (S f) s = Some (v, r) -> wf_json v /\ r `suffix_of` s.
Proof.
  intros Hs H. cbn [parse_value] in H. pose proof (skip_ws_suffix s) as S0.
  pose proof (skip_ws_units s Hs) as U0.
  destruct (skip_ws s) as [|c r0] eqn:E0; [done|]. apply units16_cons in U0.
  assert (r0 `suffix_of` s) as S1 by (etrans; [apply suffix_cons_r; reflexivity|exact S0]).
  case_decide; [|case_decide; [|case_decide]].
  - pose proof (skip_ws_suffix r0) as S2. pose proof (skip_ws_units r0 U0) as U2.
    destruct (skip_ws r0) as [|c' r'] eqn:E1; [done|]. case_decide.
    + injection H as <- <-. split; [apply wf_json_object, obj_ok_nil|].
      etrans; [|exact S1]. etrans; [|exact S2]. by apply suffix_cons_r.
    + destruct (IHm [] _ _ _ (obj_ok_nil _) U2 H) as [Hv Hr]. split; [done|].
      etrans; [exact Hr|]. by etrans.
  - pose proof (skip_ws_suffix r0) as S2. pose proof (skip_ws_units r0 U0) as U2.
    destruct (skip_ws r0) as [|c' r'] eqn:E1; [done|]. case_decide.
    + injection H as <- <-. split; [apply wf_json_array; constructor|].
      etrans; [|exact S1]. etrans; [|exact S2]. by apply suffix_cons_r.
    + destruct (IHe [] _ _ _ (Forall_nil_2 _) U2 H) as [Hv Hr]. split; [done|].
      etrans; [exact Hr|]. by etrans.
  - destruct (parse_chars r0) as [[t r']|] eqn:E; [|done]. injection H as <- <-.
    destruct (parse_chars_ok r0 t r' U0 E) as [Ht Hr]. split; [by split|]. by etrans.
  - destruct (strip_prefix ‹"null"› (c :: r0)) as [r'|] eqn:E1;
      [injection H as <- <-; split; [done|]; etrans; [eapply strip_prefix_suffix; exact E1|done]|].
    destruct (strip_prefix ‹"true"› (c :: r0)) as [r'|] eqn:E2;
      [injection H as <- <-; split; [done|]; etrans; [eapply strip_prefix_suffix; exact E2|done]|].
    destruct (strip_prefix ‹"false"› (c :: r0)) as [r'|] eqn:E3;
      [injection H as <- <-; split; [done|]; etrans; [eapply strip_prefix_suffix; exact E3|done]|].
    destruct (parse_number (c :: r0)) as [[z r']|] eqn:E4; [|done]. injection H as <- <-.
    destruct (parse_number_valid _ _ _ E4) as [Hv Hnan].
    split; [split; cbn; [by rewrite Hv, Hnan|done]|].
    etrans; [eapply parse_number_suffix; exact E4|done].
Qed.

Lemma parse_elems_wf_step acc s v r :
  Forall wf_json acc -> units16 s = true -> parse_elems (S f) acc s = Some (v, r) ->
  wf_json v /\ r `suffix_of` s.
Proof.
  intros Hacc Hs H. cbn [parse_elems] in H.
  destruct (parse_value f s) as [[x r1]|] eqn:E; [|done].
  destruct (IHv s x r1 Hs E) as [Hx S1].
  pose proof (skip_ws_suffix r1) as S2. pose proof (skip_ws_units r1 (units16_suffix _ _ S1 Hs)) as U2.
  destruct (skip_ws r1) as [|c r'] eqn:E1; [done|]. apply units16_cons in U2.
  assert (r' `suffix_of` s) as S3 by (etrans; [apply suffix_cons_r; reflexivity|]; by do 2 (etrans; [eassumption|])).
  assert (Forall wf_json (acc ++ [x])) as Hacc' by (apply Forall_app; split; [done|by constructor]).
  case_decide; [destruct (IHe _ _ _ _ Hacc' U2 H) as [Hv Hr]; split; [done|by etrans]|].
  case_decide; [|done]. injection H as <- <-. split; [by apply wf_json_array|done].
Qed.

Lemma parse_members_wf_step acc s v r :
  obj_ok wf_json acc -> units16 s = true -> parse_members (S f) acc s = Some (v, r) ->
  wf_json v /\ r `suffix_of` s.
Proof.
  intros Hacc Hs H. cbn [parse_members] in H. pose proof (skip_ws_suffix s) as S0.
  pose proof (skip_ws_units s Hs) as U0.
  destruct (skip_ws s) as [|c r0] eqn:E0; [done|]. apply units16_cons in U0.
  case_decide; [|done].
  destruct (parse_chars r0) as [[k r1]|] eqn:Ek; [|done].
  destruct (parse_chars_ok r0 k r1 U0 Ek) as [Hk S1].
  pose proof (skip_ws_suffix r1) as S2. pose proof (skip_ws_units r1 (units16_suffix _ _ S1 U0)) as U2.
  destruct (skip_ws r1) as [|c1 r2] eqn:E1; [done|]. apply units16_cons in U2.
  case_decide; [|done].
  destruct (parse_value f r2) as [[x r3]|] eqn:Ex; [|done].
  destruct (IHv r2 x r3 U2 Ex) as [Hx S3].
  pose proof (skip_ws_suffix r3) as S4. pose proof (skip_ws_units r3 (units16_suffix _ _ S3 U2)) as U4.
  destruct (skip_ws r3) as [|c3 r4] eqn:E3; [done|]. apply units16_cons in U4.
  assert (r4 `suffix_of` s) as S5.
  { etrans; [apply suffix_cons_r; reflexivity|]. etrans; [exact S4|]. etrans; [exact S3|].
    etrans; [apply suffix_cons_r; reflexivity|]. etrans; [exact S2|]. etrans; [exact S1|].
    etrans; [apply suffix_cons_r; reflexivity|]. exact S0. }
  pose proof (obj_insert_ok wf_json k x acc Hacc Hk Hx) as Hins.
  case_decide; [destruct (IHm _ _ _ _ Hins U4 H) as [Hv Hr]; split; [done|by etrans]|].
  case_decide; [|done]. injection H as <- <-. split; [by apply wf_json_object|done].
Qed.

End parse_wf_step.

Lemma parse_wf f :
  (forall s v r, units16 s = true -> parse_value f s = Some (v, r) -> wf_json v /\ r `suffix_of` s)
  /\ (forall acc s v r, Forall wf_json acc -> units16 s = true ->
      parse_elems f acc s = Some (v, r) -> wf_json v /\ r `suffix_of` s)
  /\ (forall acc s v r, obj_ok wf_json acc -> units16 s = true ->
      parse_members f acc s = Some (v, r) -> wf_json v /\ r `suffix_of` s).
Proof.
  induction f as [|f (IHv & IHe & IHm)]; [split; [|split]; done|].
  split; [|split].
  - by apply parse_value_wf_step.
  - by apply parse_elems_wf_step.
  - by apply parse_members_wf_step.
Qed.

(** Every value [JSON.parse] returns on a JavaScript string is a
    JSON value (no [undefined], distinct keys) with JavaScript strings and
    objects in JavaScript's key order: what [response.json()] hands to the
    client satisfies [is_json]. *)
Lemma json_parse_wf t v : units16 t = true -> json_parse t = Some v -> wf_json v.
Proof.
  unfold json_parse. intros Ht H.
  destruct (parse_value (S (length t)) t) as [[v' r]|] eqn:E; [|done].
  destruct (bool_decide _); [|done]. injection H as <-. exact (proj1 (proj1 (parse_wf (S (length t))) t v' r Ht E)).
Qed.

(** ** The request body on the wire *)

(** The body of a request, [JSON.stringify({message, context})] for a
    JavaScript string and a context the client can hold (a JSON value from
    a reply, or [undefined]), is a JSON text that parses back to exactly
    that object. *)
Lemma request_body_roundtrip (message : jsstr) (context : value) :
  units16 message = true -> wf_json context \/ context = VUndefined ->
  exists t, json_stringify (request_body message context) = Some t
            /\ json_parse t = Some (request_body message context).
Proof.
  intros Hm Hc. apply json_text_plain.
  - apply request_body_is_json. destruct Hc as [[Hj _]| ->]; [by left|by right].
  - destruct Hc as [[Hj Hcan]| ->].
    + rewrite request_body_json by done. cbn [json_canonical map fst].
      change (keys_canon [‹"message"›; ‹"context"›]) with true. cbn [forallb snd fst json_canonical].
      rewrite Hm, json_normalize_canonical by done. reflexivity.
    + rewrite request_body_undefined. cbn [json_canonical forallb snd fst json_canonical].
      by rewrite Hm.
  - destruct Hc as [[Hj _]| ->].
    + rewrite request_body_json by done. cbn. by rewrite json_normalize_plain.
    + by rewrite request_body_undefined.
Qed.

