(* ===== verification/Regex.v ===== *)
(** * ECMAScript regular expressions and [String.prototype.replace]

    [addMessage] ([src/static/script.js] lines 71-73) formats a message
    with two calls [text.replace(/re/g, template)].  Their meaning is the
    ECMAScript one, which this file models for the fragment of regular
    expressions the source writes: literal characters, [.] (any code unit
    but a line terminator), greedy and lazy [*] on a single character,
    capturing groups and sequencing.

    - [matcher] is the continuation-passing matcher of the ECMAScript
      specification (22.2.2, "Pattern Semantics"): a matcher takes the
      remaining input, the captures so far and a continuation, and
      backtracks by returning [None] to its caller.  Positions are kept as
      suffixes of the input, so a capture is the part of the input between
      two suffixes.
    - [search] is the scan of [RegExpBuiltinExec]: try to match at each
      position from the current one on.
    - [get_substitution] is [GetSubstitution] (22.1.3.19.1): the
      replacement template with [$$], [$&], [$`], [$'], [$n] and [$nn].
    - [replace_loop] is [String.prototype.replace] with a global regex
      (22.1.3.19 with [RegExp.prototype[@@replace]]): collect every match
      from left to right, advancing by one code unit after an empty match,
      and splice in the substitutions.  It runs on fuel; [replace_all]
      gives it one more unit than the input's length, which
      [replace_loop_fuel] shows is always enough. *)

From S2P Require Import Prelude.

(** ** Syntax *)

Inductive atom := ALit (c : N) | ADot.

Definition atom_matches (a : atom) (c : N) : bool :=
  match a with
  | ALit d => bool_decide (c = d)
  | ADot => negb (is_line_terminator c)
  end.

Inductive regex :=
| REmpty
| RAtom (a : atom)
| RSeq (r1 r2 : regex)
| RGroup (n : nat) (r : regex)
| RStar (greedy : bool) (a : atom).

Fixpoint count_groups (r : regex) : nat :=
  match r with
  | REmpty | RAtom _ | RStar _ _ => 0
  | RSeq r1 r2 => count_groups r1 + count_groups r2
  | RGroup _ r1 => S (count_groups r1)
  end.

(** Captures, newest binding first. *)
Abbreviation captures := (list (nat * jsstr)).

Fixpoint lookup_cap (n : nat) (cs : captures) : option jsstr :=
  match cs with
  | [] => None
  | (m, s) :: cs' => if Nat.eqb n m then Some s else lookup_cap n cs'
  end.

(** A continuation receives the remaining input and the captures. *)
Abbreviation cont := (jsstr -> captures -> option (jsstr * captures)).

(** ** Matching *)

(** [a*] (greedy) and [a*?] (lazy) for a single-character atom: the
    greedy form tries one more character before the continuation, the
    lazy form the continuation first (RepeatMatcher, with [min = 0] and
    [max = +oo]; the atom always consumes a character, so the empty-check
    never fires). *)
Fixpoint star_match (greedy : bool) (a : atom) (k : cont) (t : jsstr) (cs : captures)
    : option (jsstr * captures) :=
  if greedy then
    match t with
    | c :: t' =>
        if atom_matches a c then
          match star_match greedy a k t' cs with
          | Some x => Some x
          | None => k t cs
          end
        else k t cs
    | [] => k t cs
    end
  else
    match k t cs with
    | Some x => Some x
    | None =>
        match t with
        | c :: t' => if atom_matches a c then star_match greedy a k t' cs else None
        | [] => None
        end
    end.

Fixpoint matcher (r : regex) (t : jsstr) (cs : captures) (k : cont)
    : option (jsstr * captures) :=
  match r with
  | REmpty => k t cs
  | RAtom a =>
      match t with
      | c :: t' => if atom_matches a c then k t' cs else None
      | [] => None
      end
  | RSeq r1 r2 => matcher r1 t cs (fun t' cs' => matcher r2 t' cs' k)
  | RGroup n r1 =>
      matcher r1 t cs (fun t' cs' => k t' ((n, take (length t - length t') t) :: cs'))
  | RStar g a => star_match g a k t cs
  end.

(** A match starting exactly here: the rest of the input and the captures. *)
Definition match_here (r : regex) (t : jsstr) : option (jsstr * captures) :=
  matcher r t [] (fun t' cs => Some (t', cs)).

Record match_result := MatchResult {
  mr_pre : jsstr;       (* the input skipped before the match *)
  mr_matched : jsstr;   (* the matched text *)
  mr_rest : jsstr;      (* the input after the match *)
  mr_caps : captures
}.

Definition mr_cons (c : N) (mr : match_result) : match_result :=
  MatchResult (c :: mr_pre mr) (mr_matched mr) (mr_rest mr) (mr_caps mr).

(** The first position from here on where the regex matches. *)
Fixpoint search (r : regex) (t : jsstr) : option match_result :=
  match match_here r t with
  | Some (t', cs) => Some (MatchResult [] (take (length t - length t') t) t' cs)
  | None =>
      match t with
      | [] => None
      | c :: t'' => mr_cons c <$> search r t''
      end
  end.

(** ** Replacement templates *)

Definition is_digit (c : N) : bool := bool_decide (48 <= c <= 57)%N.
Definition digit_val (c : N) : nat := N.to_nat (c - 48).

(** [$n] or [$nn] with index [idx]: the capture when [1 <= idx <= m]
    ([""] for a group that did not participate), the reference text
    itself otherwise. *)
Definition capture_ref (ncap : nat) (cs : captures) (idx : nat) (ref : jsstr) : jsstr :=
  if decide (1 <= idx <= ncap) then
    match lookup_cap idx cs with Some s => s | None => [] end
  else ref.

Fixpoint get_substitution (ncap : nat) (matched before after : jsstr)
    (cs : captures) (tmpl : jsstr) : jsstr :=
  match tmpl with
  | [] => []
  | c :: r =>
      if N.eqb c 36 then
        match r with
        | [] => [36%N]
        | d :: r' =>
            if N.eqb d 36 then 36%N :: get_substitution ncap matched before after cs r'
            else if N.eqb d 38 then matched ++ get_substitution ncap matched before after cs r'
            else if N.eqb d 96 then before ++ get_substitution ncap matched before after cs r'
            else if N.eqb d 39 then after ++ get_substitution ncap matched before after cs r'
            else if is_digit d then
              match r' with
              | e :: r'' =>
                  if is_digit e && Nat.leb (10 * digit_val d + digit_val e) ncap then
                    capture_ref ncap cs (10 * digit_val d + digit_val e) [36%N; d; e]
                      ++ get_substitution ncap matched before after cs r''
                  else
                    capture_ref ncap cs (digit_val d) [36%N; d]
                      ++ get_substitution ncap matched before after cs r'
              | [] => capture_ref ncap cs (digit_val d) [36%N; d]
              end
            else 36%N :: get_substitution ncap matched before after cs r
        end
      else c :: get_substitution ncap matched before after cs r
  end.

(** ** Global replace *)

(** [before] is the part of the subject already consumed ([$`] needs it);
    [t] is what is left. *)
Fixpoint replace_loop (fuel : nat) (r : regex) (tmpl : jsstr) (before t : jsstr) : jsstr :=
  match fuel with
  | 0 => t
  | S f =>
      match search r t with
      | None => t
      | Some (MatchResult pre m rest cs) =>
          let sub := get_substitution (count_groups r) m (before ++ pre) rest cs tmpl in
          match m with
          | [] =>
              pre ++ sub ++
                match rest with
                | [] => []
                | c :: rest' => c :: replace_loop f r tmpl (before ++ pre ++ [c]) rest'
                end
          | _ :: _ => pre ++ sub ++ replace_loop f r tmpl (before ++ pre ++ m) rest
          end
      end
  end.

(** [s.replace(r, tmpl)] for a regex [r] with the [g] flag. *)
Definition replace_all (r : regex) (tmpl s : jsstr) : jsstr :=
  replace_loop (S (length s)) r tmpl [] s.

(** ** Matching only consumes input *)

Lemma star_match_suffix g a k t cs x :
  star_match g a k t cs = Some x ->
  exists t' cs', t' `suffix_of` t /\ k t' cs' = Some x.
Proof.
  revert x. induction t as [|c t IH]; intros x; destruct g; simpl; intros H.
  - exists [], cs. split; [apply suffix_nil|done].
  - destruct (k [] cs) eqn:Hk; [|done]. exists [], cs. split; [apply suffix_nil|congruence].
  - destruct (atom_matches a c); [|exists (c :: t), cs; split; [reflexivity|done]].
    destruct (star_match true a k t cs) eqn:Hs; [|exists (c :: t), cs; split; [reflexivity|done]].
    destruct (IH _ eq_refl) as (t' & cs' & Hsuf & Hk). inv_clear H.
    exists t', cs'. split; [by apply suffix_cons_r|done].
  - destruct (k (c :: t) cs) eqn:Hk; [exists (c :: t), cs; split; [reflexivity|congruence]|].
    destruct (atom_matches a c); [|done].
    destruct (IH _ H) as (t' & cs' & Hsuf & Hk').
    exists t', cs'. split; [by apply suffix_cons_r|done].
Qed.

Lemma matcher_suffix r t cs k x :
  matcher r t cs k = Some x ->
  exists t' cs', t' `suffix_of` t /\ k t' cs' = Some x.
Proof.
  revert t cs k. induction r as [|a|r1 IH1 r2 IH2|n r1 IH|g a]; intros t cs k H; simpl in H.
  - exists t, cs. split; [reflexivity|done].
  - destruct t as [|c t]; [done|]. destruct (atom_matches a c); [|done].
    exists t, cs. split; [by apply suffix_cons_r|done].
  - destruct (IH1 _ _ _ H) as (t1 & cs1 & Hs1 & H1).
    destruct (IH2 _ _ _ H1) as (t2 & cs2 & Hs2 & H2).
    exists t2, cs2. split; [by trans t1|done].
  - destruct (IH _ _ _ H) as (t1 & cs1 & Hs1 & H1). eauto.
  - by apply star_match_suffix in H.
Qed.

Lemma match_here_suffix r t t' cs :
  match_here r t = Some (t', cs) -> t' `suffix_of` t.
Proof.
  unfold match_here. intros (t1 & cs1 & Hs & [= -> ->])%matcher_suffix. done.
Qed.

(** ** The scan for the first match *)

Lemma search_eq r t :
  search r t =
    match match_here r t with
    | Some (t', cs) => Some (MatchResult [] (take (length t - length t') t) t' cs)
    | None => match t with [] => None | c :: t'' => mr_cons c <$> search r t'' end
    end.
Proof. by destruct t. Qed.

(** A match found by [search] splits the input into the skipped part,
    the matched text and the rest, and the regex matches there. *)
Lemma search_spec r t mr :
  search r t = Some mr ->
  t = mr_pre mr ++ mr_matched mr ++ mr_rest mr
  /\ match_here r (mr_matched mr ++ mr_rest mr) = Some (mr_rest mr, mr_caps mr).
Proof.
  revert mr. induction t as [|c t IH]; intros mr; rewrite search_eq;
    destruct (match_here r _) as [[t' cs]|] eqn:Hm; intros H.
  - inv_clear H. apply match_here_suffix in Hm as Hs.
    apply suffix_nil_inv in Hs as ->. done.
  - done.
  - inv_clear H. cbn [mr_pre mr_matched mr_rest mr_caps app]. apply match_here_suffix in Hm as Hs.
    pose proof (suffix_take _ _ Hs) as E. simpl in E. rewrite E. done.
  - destruct (search r t) as [mr'|] eqn:Hs; [|done]. inv_clear H.
    destruct (IH _ eq_refl) as [Ht Hmh]. simpl. by rewrite Ht.
Qed.

Lemma search_length r t mr :
  search r t = Some mr ->
  length t = length (mr_pre mr) + length (mr_matched mr) + length (mr_rest mr).
Proof. intros [-> _]%search_spec. rewrite !length_app. lia. Qed.

(** ** The replace loop *)

(** Fuel beyond the input's length changes nothing, so the fuel
    [S (length s)] of [replace_all] always computes the complete result of
    the global replace loop: every round consumes at least one code unit
    or stops. *)
Lemma replace_loop_fuel f1 f2 r tmpl before t :
  length t < f1 -> length t < f2 ->
  replace_loop f1 r tmpl before t = replace_loop f2 r tmpl before t.
Proof.
  revert f2 before t. induction f1 as [|f1 IH]; intros [|f2] before t H1 H2; try lia.
  simpl. destruct (search r t) as [[pre m rest cs]|] eqn:Hs; [|done].
  apply search_length in Hs. simpl in Hs.
  destruct m as [|x m].
  - destruct rest as [|c rest]; [done|]. simpl in Hs. do 3 f_equal. apply IH; lia.
  - do 2 f_equal. simpl in Hs. apply IH; lia.
Qed.

(** No match at the head: the first code unit is copied. *)
Lemma replace_loop_skip f r tmpl before c t :
  match_here r (c :: t) = None ->
  replace_loop (S f) r tmpl before (c :: t)
  = c :: replace_loop (S f) r tmpl (before ++ [c]) t.
Proof.
  intros Hm. simpl. rewrite Hm. destruct (search r t) as [[pre m rest cs]|]; [|done].
  simpl. destruct m; [destruct rest|]; rewrite <- ?app_assoc; done.
Qed.

(** A non-empty match at the head: its substitution, then the rest. *)
Lemma replace_loop_hit f r tmpl before u rest cs :
  match_here r (u ++ rest) = Some (rest, cs) -> u <> [] ->
  replace_loop (S f) r tmpl before (u ++ rest)
  = get_substitution (count_groups r) u before rest cs tmpl
      ++ replace_loop f r tmpl (before ++ u) rest.
Proof.
  intros Hm Hu. simpl. rewrite search_eq, Hm, suffix_take_eq.
  destruct u as [|x u]; [done|]. simpl. rewrite app_nil_r. done.
Qed.

Lemma replace_loop_nil f r tmpl before :
  match_here r [] = None -> replace_loop (S f) r tmpl before [] = [].
Proof. intros Hm. simpl. rewrite Hm. done. Qed.

Lemma get_substitution_literal ncap m b a cs tmpl :
  Forall (fun c => c <> 36%N) tmpl -> get_substitution ncap m b a cs tmpl = tmpl.
Proof.
  induction 1 as [|c tmpl Hc _ IH]; simpl; [done|].
  destruct (N.eqb_spec c 36); [done|]. by rewrite IH.
Qed.

#[export] Hint Resolve match_here_suffix get_substitution_literal : medigate.

