(* ===== verification/Markdown.v ===== *)
(** * The Markdown rewrite of [addMessage]

    [src/static/script.js] lines 71-73:
<<
        let formattedText = text
            .replace(/\*\*(.*?)\*\*/g, '<strong>$1</strong>') // Bold
            .replace(/\n/g, '<br>'); // Newlines
>>
    [format_text] is this expression, built from the regex model of
    [Regex].  [bold_scan] is a direct recursive reading of the bold rule
    (find the next [**], close at the nearest [**] on the same line), and
    [bold_replace_scan] proves the regex replace computes it; the
    newline rule is a plain per-character map ([newline_replace_map]).
    The properties of the formatted text follow from these two
    characterisations. *)

From S2P Require Import Prelude Regex.
From Equations Require Import Equations.

(** ** The source's expression *)

(** [/\*\*(.*?)\*\*/g] *)
Definition bold_re : regex :=
  RSeq (RAtom (ALit cu_star))
    (RSeq (RAtom (ALit cu_star))
      (RSeq (RGroup 1 (RStar false ADot))
        (RSeq (RAtom (ALit cu_star)) (RAtom (ALit cu_star))))).

Definition bold_tmpl : jsstr := ‹"<strong>$1</strong>"›.

(** [/\n/g] *)
Definition newline_re : regex := RAtom (ALit cu_lf).

Definition br_tmpl : jsstr := ‹"<br>"›.

Definition format_text (text : jsstr) : jsstr :=
  replace_all newline_re br_tmpl (replace_all bold_re bold_tmpl text).

(** ** A direct reading of the bold rule *)

(** The text up to the nearest [**], if no line terminator comes first,
    and what follows that [**]. *)
Fixpoint find_close (t : jsstr) : option (jsstr * jsstr) :=
  match t with
  | [] => None
  | c :: t' =>
      match t' with
      | [] => None
      | d :: t'' =>
          if N.eqb c cu_star && N.eqb d cu_star then Some ([], t'')
          else if is_line_terminator c then None
          else prod_map (cons c) id <$> find_close t'
      end
  end.

Definition strong (x : jsstr) : jsstr := ‹"<strong>"› ++ x ++ ‹"</strong>"›.

(** An opening [**] at the head, with its content and what follows the
    closing [**]. *)
Definition open_bold (c d : N) (u : jsstr) : option (jsstr * jsstr) :=
  if N.eqb c cu_star && N.eqb d cu_star then find_close u else None.

Lemma find_close_length t x r : find_close t = Some (x, r) -> length r < length t.
Proof.
  revert x. induction t as [|c t IH]; intros x; simpl; [done|].
  destruct t as [|d t]; [done|].
  destruct (N.eqb c cu_star && N.eqb d cu_star); [intros [= _ <-]; simpl; lia|].
  destruct (is_line_terminator c); [done|].
  destruct (find_close (d :: t)) as [[x' r']|] eqn:E; [|done].
  intros [= _ <-]. specialize (IH _ eq_refl). simpl in *. lia.
Qed.

Equations? bold_scan (t : jsstr) : jsstr by wf (length t) lt :=
  bold_scan [] := [];
  bold_scan [c] := [c];
  bold_scan (c :: d :: u) with inspect (open_bold c d u) := {
    | Some (x, r) eqn: E := strong x ++ bold_scan r;
    | None eqn: _ := c :: bold_scan (d :: u) }.
Proof.
  unfold open_bold in E. destruct (N.eqb c cu_star && N.eqb d cu_star); [|done].
  apply find_close_length in E. simpl. lia.
Qed.

Lemma bold_scan_cons2 c d u :
  bold_scan (c :: d :: u) =
    match open_bold c d u with
    | Some (x, r) => strong x ++ bold_scan r
    | None => c :: bold_scan (d :: u)
    end.
Proof.
  simp bold_scan. destruct (inspect (open_bold c d u)) as [[[x r]|] E].
  - simpl. rewrite E. done.
  - simpl. rewrite E. done.
Qed.

(** The newline rule, one code unit at a time. *)
Definition newline_map (t : jsstr) : jsstr :=
  flat_map (fun c => if N.eqb c cu_lf then br_tmpl else [c]) t.

(** ** The regex matcher on [bold_re] *)

(** The continuation after the group: [**], then success. *)
Definition close2 (t : jsstr) (cs : captures) : option (jsstr * captures) :=
  match t with
  | c :: d :: r => if N.eqb c cu_star && N.eqb d cu_star then Some (r, cs) else None
  | _ => None
  end.

Lemma find_close_spec t x r :
  find_close t = Some (x, r) ->
  t = x ++ cu_star :: cu_star :: r /\ Forall (fun c => is_line_terminator c = false) x.
Proof.
  revert x r. induction t as [|c t IH]; intros x r; simpl; [done|].
  destruct t as [|d t]; [done|].
  destruct (N.eqb c cu_star && N.eqb d cu_star) eqn:Hcd.
  { intros [= <- <-]. apply andb_prop in Hcd as [Hc Hd].
    apply N.eqb_eq in Hc, Hd. subst. done. }
  destruct (is_line_terminator c) eqn:Hc; [done|].
  destruct (find_close (d :: t)) as [[x' r']|]; simpl; [|done].
  intros [= <- <-]. destruct (IH _ _ eq_refl) as [Ht Hx]. rewrite Ht. auto.
Qed.

Lemma find_close_cons2 c d v :
  find_close (c :: d :: v) =
    if N.eqb c cu_star && N.eqb d cu_star then Some ([], v)
    else if is_line_terminator c then None
    else prod_map (cons c) id <$> find_close (d :: v).
Proof. reflexivity. Qed.

(** The lazy [(.*?)] stops at the first [**] and fails at a line
    terminator: it computes [find_close]. *)
Lemma star_close (w p v : jsstr) (K : cont) :
  w = p ++ v ->
  (forall t cs, K t cs = close2 t ((1, take (length w - length t) w) :: cs)) ->
  star_match false ADot K v [] = (fun '(x, r) => (r, [(1, p ++ x)])) <$> find_close v.
Proof.
  intros Hw HK. revert p Hw. induction v as [|c v IH]; intros p Hw; simpl star_match; rewrite HK; [done|].
  destruct v as [|d v].
  - simpl. destruct (is_line_terminator c); [done|]. simpl. by rewrite HK.
  - cbn [close2]. rewrite find_close_cons2. destruct (N.eqb c cu_star && N.eqb d cu_star).
    + subst w. rewrite (suffix_take_eq p (c :: d :: v)). simpl. by rewrite app_nil_r.
    + destruct (is_line_terminator c); cbn [negb]; [done|].
      rewrite (IH (p ++ [c])) by (subst; rewrite <- app_assoc; done).
      destruct (find_close (d :: v)) as [[x r]|]; simpl; [|done].
      rewrite <- app_assoc. done.
Qed.

Lemma match_here_bold t :
  match_here bold_re t =
    match t with
    | c :: d :: u => (fun '(x, r) => (r, [(1, x)])) <$> open_bold c d u
    | _ => None
    end.
Proof.
  destruct t as [|c [|d u]]; unfold match_here, bold_re, open_bold; simpl; [done| |].
  - by case_bools.
  - destruct (N.eqb_spec c cu_star), (N.eqb_spec d cu_star); case_bools; try done; simpl.
    apply (star_close u [] u); [done|]. intros t cs.
    destruct t as [|x [|y t]]; simpl; [done|by case_bools|].
    case_bools; destruct (N.eqb_spec x cu_star), (N.eqb_spec y cu_star); simpl; congruence.
Qed.

Lemma bold_substitution (m before r x : jsstr) :
  get_substitution (count_groups bold_re) m before r [(1, x)] bold_tmpl = strong x.
Proof. reflexivity. Qed.

(** ** The two rewrites compute the direct readings *)

Lemma replace_loop_bold n f before t :
  length t = n -> length t < f ->
  replace_loop f bold_re bold_tmpl before t = bold_scan t.
Proof.
  revert f before t. induction n as [n IH] using lt_wf_ind.
  intros [|f] before t Hn Hf; [lia|].
  destruct t as [|c [|d u]].
  - simp bold_scan. by apply replace_loop_nil.
  - simp bold_scan. rewrite replace_loop_skip by (rewrite match_here_bold; done).
    rewrite replace_loop_nil by done. done.
  - rewrite bold_scan_cons2. destruct (open_bold c d u) as [[x r]|] eqn:E.
    + pose proof (match_here_bold (c :: d :: u)) as Hm. cbv beta iota in Hm.
      rewrite E in Hm. simpl in Hm.
      unfold open_bold in E.
      destruct (N.eqb_spec c cu_star), (N.eqb_spec d cu_star); try done. subst c d.
      destruct (find_close_spec _ _ _ E) as [Hu _]. subst u.
      replace (cu_star :: cu_star :: x ++ cu_star :: cu_star :: r)
        with ((cu_star :: cu_star :: x ++ [cu_star; cu_star]) ++ r) in *
        by (simpl; rewrite <- app_assoc; done).
      rewrite (replace_loop_hit _ _ _ _ _ _ _ Hm) by done. rewrite bold_substitution.
      f_equal. apply (IH (length r)); simpl in *; rewrite ?length_app in *; simpl in *; lia.
    + rewrite replace_loop_skip by (rewrite match_here_bold, E; done).
      f_equal. apply (IH (length (d :: u))); simpl in *; lia.
Qed.

Lemma replace_loop_newline f before t :
  length t < f -> replace_loop f newline_re br_tmpl before t = newline_map t.
Proof.
  revert f before. induction t as [|c t IH]; intros [|f] before Hf; simpl in Hf; try lia.
  - by apply replace_loop_nil.
  - change (newline_map (c :: t))
      with ((if N.eqb c cu_lf then br_tmpl else [c]) ++ newline_map t).
    destruct (N.eqb_spec c cu_lf) as [->|Hc].
    + change (cu_lf :: t) with ([cu_lf] ++ t).
      rewrite (replace_loop_hit f newline_re br_tmpl before [cu_lf] t []) by done.
      rewrite get_substitution_literal by (repeat constructor; done).
      f_equal. apply IH. lia.
    + rewrite replace_loop_skip by (unfold match_here; simpl; by case_bools).
      f_equal. apply IH. lia.
Qed.

(** ** Helper lemmas on the two readings *)

Lemma newline_map_app t1 t2 : newline_map (t1 ++ t2) = newline_map t1 ++ newline_map t2.
Proof. apply flat_map_app. Qed.

Lemma newline_map_id t : Forall (fun c => c <> cu_lf) t -> newline_map t = t.
Proof.
  induction 1 as [|c t Hc _ IH]; [done|].
  change (newline_map (c :: t)) with ((if N.eqb c cu_lf then br_tmpl else [c]) ++ newline_map t).
  destruct (N.eqb_spec c cu_lf); [done|]. by rewrite IH.
Qed.

Lemma newline_map_no_lf t : Forall (fun c => c <> cu_lf) (newline_map t).
Proof.
  induction t as [|c t IH]; [constructor|].
  change (newline_map (c :: t)) with ((if N.eqb c cu_lf then br_tmpl else [c]) ++ newline_map t).
  apply Forall_app; split; [|done].
  destruct (N.eqb_spec c cu_lf); repeat constructor; done.
Qed.

Lemma bold_scan_plain t : Forall (fun c => c <> cu_star) t -> bold_scan t = t.
Proof.
  induction t as [|c t IH]; intros Ht; [by simp bold_scan|].
  destruct t as [|d u]; [by simp bold_scan|].
  inv_clear Ht. rewrite bold_scan_cons2. unfold open_bold.
  destruct (N.eqb_spec c cu_star); [done|]. simpl. by rewrite IH.
Qed.

Lemma find_close_plain x r :
  Forall (fun c => c <> cu_star /\ is_line_terminator c = false) x ->
  find_close (x ++ cu_star :: cu_star :: r) = Some (x, r).
Proof.
  induction 1 as [|c x [Hc Hlt] _ IH]; [done|].
  destruct x as [|c' x]; simpl app in *; rewrite find_close_cons2;
    destruct (N.eqb_spec c cu_star); try done; simpl andb; rewrite Hlt; [done|].
  rewrite IH. done.
Qed.

Lemma strong_no_lf x :
  Forall (fun c => is_line_terminator c = false) x ->
  Forall (fun c => c <> cu_lf) (strong x).
Proof.
  intros Hx. unfold strong. repeat (apply Forall_app; split); try by repeat constructor.
  eapply Forall_impl; [|exact Hx]. intros c Hc ->. done.
Qed.

(** ** Properties of [format_text] *)

(** C10: the bold rewrite [.replace(/\*\*(.*?)\*\*/g, '<strong>$1</strong>')]
    computes the direct scanner [bold_scan]. *)
Theorem bold_replace_scan (s : jsstr) :
  replace_all bold_re bold_tmpl s = bold_scan s.
Proof. unfold replace_all. apply (replace_loop_bold (length s)); lia. Qed.

(** C11: the newline rewrite [.replace(/\n/g, '<br>')] replaces each line
    feed by [<br>] and keeps every other code unit. *)
Theorem newline_replace_map (s : jsstr) :
  replace_all newline_re br_tmpl s = newline_map s.
Proof. apply replace_loop_newline. lia. Qed.

Lemma format_text_spec (s : jsstr) : format_text s = newline_map (bold_scan s).
Proof.
  unfold format_text, replace_all. rewrite (replace_loop_bold (length s)) by lia.
  apply replace_loop_newline. lia.
Qed.

(** C12: no line feed survives formatting: every one became [<br>]. *)
Theorem format_text_no_lf (s : jsstr) : cu_lf ∉ format_text s.
Proof.
  rewrite format_text_spec. intros Hin.
  pose proof (newline_map_no_lf (bold_scan s)) as H.
  rewrite Forall_forall in H. apply list_elem_of_In in Hin. exact (H cu_lf Hin eq_refl).
Qed.

(** C13: text with neither [*] nor a line feed is rendered unchanged. *)
Theorem format_text_plain (s : jsstr) :
  Forall (fun c => c <> cu_star /\ c <> cu_lf) s -> format_text s = s.
Proof.
  intros Hs. rewrite format_text_spec, bold_scan_plain.
  - apply newline_map_id. eapply Forall_impl; [|exact Hs]. by intros ? [? ?].
  - eapply Forall_impl; [|exact Hs]. by intros ? [? ?].
Qed.

(** C14: a span [**x**] whose content has no [*] and stays on one line
    becomes [<strong>x</strong>], and formatting goes on after it. *)
Theorem format_text_bold (x r : jsstr) :
  Forall (fun c => c <> cu_star /\ is_line_terminator c = false) x ->
  format_text (‹"**"› ++ x ++ ‹"**"› ++ r) = strong x ++ format_text r.
Proof.
  intros Hx. rewrite !format_text_spec.
  change (‹"**"› ++ x ++ ‹"**"› ++ r) with (cu_star :: cu_star :: x ++ cu_star :: cu_star :: r).
  rewrite bold_scan_cons2. unfold open_bold. simpl andb.
  rewrite find_close_plain by done. rewrite newline_map_app, newline_map_id; [done|].
  apply strong_no_lf. eapply Forall_impl; [|exact Hx]. by intros ? [? ?].
Qed.

(** ** Formatting is line by line *)

(** The search for the closing [**] stops at a line feed. *)
Lemma find_close_lf u y :
  find_close (u ++ cu_lf :: y) = (fun '(a, r) => (a, r ++ cu_lf :: y)) <$> find_close u.
Proof.
  induction u as [|c u IH]; [by destruct y|].
  destruct u as [|d v].
  - cbn [app]. rewrite find_close_cons2. replace (N.eqb cu_lf cu_star) with false by done.
    rewrite andb_false_r. destruct (is_line_terminator c); [done|]. by destruct y.
  - cbn [app] in IH |- *. rewrite !find_close_cons2, IH.
    destruct (N.eqb c cu_star && N.eqb d cu_star); [done|].
    destruct (is_line_terminator c); [done|]. by destruct (find_close (d :: v)) as [[]|].
Qed.

(** A bold span never reaches across a line feed. *)
Lemma bold_scan_lf x y : bold_scan (x ++ cu_lf :: y) = bold_scan x ++ cu_lf :: bold_scan y.
Proof.
  assert (Hlf : forall y, bold_scan (cu_lf :: y) = cu_lf :: bold_scan y).
  { intros [|d u]; [by simp bold_scan|]. rewrite bold_scan_cons2. done. }
  remember (length x) as n eqn:Hn. revert x Hn. induction (lt_wf n) as [n _ IH].
  intros [|c [|d u]] Hn; cbn [app].
  - apply Hlf.
  - rewrite bold_scan_cons2. unfold open_bold. replace (N.eqb cu_lf cu_star) with false by done.
    rewrite andb_false_r, Hlf. by simp bold_scan.
  - rewrite !bold_scan_cons2. unfold open_bold.
    destruct (N.eqb c cu_star && N.eqb d cu_star) eqn:Hcd.
    + rewrite find_close_lf. destruct (find_close u) as [[a r]|] eqn:E; cbn [fmap option_fmap option_map].
      * apply find_close_length in E as Hl. rewrite <- app_assoc. f_equal.
        apply (IH (length r)); [cbn in Hn |- *; lia|done].
      * cbn [app]. f_equal. exact (IH (length (d :: u)) ltac:(cbn in Hn |- *; lia) (d :: u) eq_refl).
    + cbn [app]. f_equal. exact (IH (length (d :: u)) ltac:(cbn in Hn |- *; lia) (d :: u) eq_refl).
Qed.

(** C19: the formatting works line by line: the text around a line feed
    is formatted as two separate texts joined by [<br>]; in particular a
    [**...**] span that crosses a line is not rendered bold ([.] does not
    match a line terminator) and keeps its asterisks. *)
Theorem format_text_lines (s1 s2 : jsstr) :
  format_text (s1 ++ cu_lf :: s2) = format_text s1 ++ br_tmpl ++ format_text s2.
Proof. rewrite !format_text_spec, bold_scan_lf, newline_map_app. done. Qed.

(** Witness of C13. *)
Lemma format_text_plain_witness :
  Forall (fun c => c <> cu_star /\ c <> cu_lf) ‹"ok"› /\ format_text ‹"ok"› = ‹"ok"›.
Proof.
  assert (H : Forall (fun c => c <> cu_star /\ c <> cu_lf) ‹"ok"›)
    by (repeat constructor; discriminate).
  split; [exact H|]. exact (format_text_plain ‹"ok"› H).
Defined.

(** Witness of C14. *)
Lemma format_text_bold_witness :
  format_text (‹"**"› ++ ‹"hi"› ++ ‹"**"› ++ ‹"!"›) = strong ‹"hi"› ++ format_text ‹"!"›.
Proof.
  apply format_text_bold. repeat constructor; discriminate.
Defined.
