(* ===== verification/Dom.v ===== *)
(** * The transcript renderer: [addMessage], the typing indicator, scrolling

    [src/static/script.js] lines 58-114.  The chat window ([#chat-window])
    is modelled by its list of child nodes and its [scrollTop].  Each
    function builds exactly the elements the source builds:
    - [addMessage] (lines 59-82): a [div.message.<sender>-message] holding
      a [div.avatar] with the sender's emoji and a [div.content] whose
      [innerHTML] is [format_text text]; it throws (a [TypeError] from
      [text.replace]) before touching the DOM when [text] is not a string;
    - [showTypingIndicator] (lines 85-105): a
      [div#typing-<Date.now()>.message.bot-message.typing-indicator-msg]
      with three empty [span]s, and returns its id;
    - [removeTypingIndicator] (lines 107-110): [getElementById] returns the
      first element with that id in document order, which is removed;
      nothing happens when there is none;
    - [scrollToBottom] (lines 112-114).

    The controller sees the window only through the [Renderer] interface
    (the transcript of entries it shows) and its laws [RendererLaws]; the
    instance [dom_renderer_laws] discharges them for this model.

    Modelling choices: an element's content is kept as the HTML source
    assigned to [innerHTML] ([NHtml]) rather than a parsed tree, since the
    client never reads it back; [scrollHeight] is measured in entries,
    which is all [scrollToBottom]'s contract needs. *)

From S2P Require Import Prelude JsValue Regex Markdown.

(** ** Data *)

Inductive sender := User | Bot.

#[export] Instance sender_eq_dec : EqDecision sender.
Proof. solve_decision. Defined.

(** The [sender] argument of [addMessage]: the strings ['user'], ['bot']. *)
Definition sender_name (s : sender) : jsstr :=
  match s with User => ‹"user"› | Bot => ‹"bot"› end.

(** UTF-16 code units of the emoji: U+1F464 and U+1F916 (line 65). *)
Definition icon_user : jsstr := [55357; 56420]%N.
Definition icon_bot : jsstr := [55358; 56598]%N.

Inductive node :=
| NText (s : jsstr)                                      (* textContent *)
| NHtml (src : jsstr)                                    (* innerHTML *)
| NDiv (id : jsstr) (classes : list jsstr) (children : list node).

Record chat_window := ChatWindow {
  cw_children : list node;
  cw_scroll_top : nat
}.

Definition scroll_height (cw : chat_window) : nat := length (cw_children cw).

(** ** Operations *)

Definition scrollToBottom (cw : chat_window) : chat_window :=
  ChatWindow (cw_children cw) (scroll_height cw).

Definition append_child (n : node) (cw : chat_window) : chat_window :=
  ChatWindow (cw_children cw ++ [n]) (cw_scroll_top cw).

Definition avatar (s : sender) : node :=
  NDiv [] [‹"avatar"›] [NText (if decide (s = User) then icon_user else icon_bot)].

Definition message_div (s : sender) (formatted : jsstr) : node :=
  NDiv [] [‹"message"›; sender_name s ++ ‹"-message"›]
    [avatar s; NDiv [] [‹"content"›] [NHtml formatted]].

(** [addMessage(text, sender)]: on a value that is not a string,
    [text.replace] throws before the DOM is touched. *)
Definition addMessage (text : value) (s : sender) (cw : chat_window) : js_error + chat_window :=
  match text with
  | VString t => inr (scrollToBottom (append_child (message_div s (format_text t)) cw))
  | _ => inl (method_call_error text ‹"replace"›)
  end.

Definition typing_id (now : N) : jsstr := ‹"typing-"› ++ dec_N now.

Definition typing_div (id : jsstr) : node :=
  NDiv id [‹"message"›; ‹"bot-message"›; ‹"typing-indicator-msg"›]
    [NDiv [] [‹"avatar"›] [NText icon_bot];
     NDiv [] [‹"content"›; ‹"typing-indicator"›]
       [NHtml ‹"<span></span><span></span><span></span>"›]].

Definition showTypingIndicator (now : N) (cw : chat_window) : jsstr * chat_window :=
  let id := typing_id now in
  (id, scrollToBottom (append_child (typing_div id) cw)).

Definition node_has_id (id : jsstr) (n : node) : bool :=
  match n with NDiv id' _ _ => bool_decide (id' = id) | _ => false end.

Definition removeTypingIndicator (id : jsstr) (cw : chat_window) : chat_window :=
  ChatWindow (remove_first (node_has_id id) (cw_children cw)) (cw_scroll_top cw).

(** The window shows its last line: [scrollTop] at or past
    [scrollHeight] (a browser clamps it to the largest valid value). *)
Definition pinned (cw : chat_window) : Prop := scroll_height cw <= cw_scroll_top cw.

(** ** The interface the controller relies on *)

(** What the window shows, entry by entry. *)
Inductive entry :=
| EMsg (s : sender) (html : jsstr)
| ETyping (id : jsstr)
| EOther.

Definition is_typing (id : jsstr) (e : entry) : bool :=
  match e with ETyping id' => bool_decide (id' = id) | _ => false end.

Definition is_placeholder (e : entry) : bool :=
  match e with ETyping _ => true | _ => false end.

Class Renderer (W : Type) := {
  add_message : value -> sender -> W -> js_error + W;
  show_typing : N -> W -> jsstr * W;
  remove_typing : jsstr -> W -> W;
  transcript : W -> list entry;
  window_ok : W -> Prop
}.

(** The promises of the renderer: a string is always rendered as one
    formatted entry, any other value makes [text.replace] throw, the
    placeholder is named by the clock, and removal takes out the first
    placeholder with that name. *)
Class RendererLaws (W : Type) `{!Renderer W} := {
  add_message_string t s w :
    exists w', add_message (VString t) s w = inr w'
               /\ transcript w' = transcript w ++ [EMsg s (format_text t)];
  add_message_other v s w :
    (forall t, v <> VString t) -> add_message v s w = inl (method_call_error v ‹"replace"›);
  show_typing_id now w : (show_typing now w).1 = typing_id now;
  show_typing_transcript now w :
    transcript (show_typing now w).2 = transcript w ++ [ETyping (typing_id now)];
  remove_typing_transcript now w :
    window_ok w ->
    transcript (remove_typing (typing_id now) w)
    = remove_first (is_typing (typing_id now)) (transcript w);
  add_message_ok v s w w' : window_ok w -> add_message v s w = inr w' -> window_ok w';
  show_typing_ok now w : window_ok w -> window_ok (show_typing now w).2;
  remove_typing_ok id w : window_ok w -> window_ok (remove_typing id w)
}.

(** ** The DOM instance *)

Definition content_html (children : list node) : option jsstr :=
  match children with
  | [_; NDiv _ _ [NHtml h]] => Some h
  | _ => None
  end.

Definition entry_of_node (n : node) : entry :=
  match n with
  | NDiv id cls children =>
      if bool_decide (‹"typing-indicator-msg"› ∈ cls) then ETyping id
      else match content_html children with
           | Some h =>
               if bool_decide (‹"user-message"› ∈ cls) then EMsg User h
               else if bool_decide (‹"bot-message"› ∈ cls) then EMsg Bot h
               else EOther
           | None => EOther
           end
  | _ => EOther
  end.

Definition dom_transcript (cw : chat_window) : list entry :=
  map entry_of_node (cw_children cw).

(** A child is well formed when removal by a [typing-<n>] id finds it
    exactly when it shows as the placeholder of that id: message divs
    have no id, placeholders carry theirs. *)
Definition node_ok (n : node) : Prop :=
  forall now, node_has_id (typing_id now) n = is_typing (typing_id now) (entry_of_node n).

Definition dom_window_ok (cw : chat_window) : Prop := Forall node_ok (cw_children cw).

#[export] Instance dom_renderer : Renderer chat_window := {
  add_message := addMessage;
  show_typing := showTypingIndicator;
  remove_typing := removeTypingIndicator;
  transcript := dom_transcript;
  window_ok := dom_window_ok
}.

(** ** Lemmas of the DOM model *)

Lemma typing_id_inj (n m : N) : typing_id n = typing_id m -> n = m.
Proof. unfold typing_id. intros H%app_inv_head. by apply dec_N_inj. Qed.

Lemma typing_id_nonempty (now : N) : typing_id now <> [].
Proof. done. Qed.

Lemma entry_of_message_div (s : sender) (h : jsstr) :
  entry_of_node (message_div s h) = EMsg s h.
Proof. destruct s; reflexivity. Qed.

Lemma entry_of_typing_div (id : jsstr) : entry_of_node (typing_div id) = ETyping id.
Proof. reflexivity. Qed.

Lemma node_ok_message_div s h : node_ok (message_div s h).
Proof.
  intros now. rewrite entry_of_message_div. unfold node_has_id, message_div, is_typing.
  rewrite bool_decide_false; [done|]. intros H. by apply (typing_id_nonempty now).
Qed.

Lemma node_ok_typing_div id : node_ok (typing_div id).
Proof. intros now. reflexivity. Qed.

Lemma dom_window_ok_append n cw :
  node_ok n -> dom_window_ok cw -> dom_window_ok (append_child n cw).
Proof. intros Hn Hw. apply Forall_app. auto. Qed.

Lemma remove_first_map_ok now (ns : list node) :
  Forall node_ok ns ->
  map entry_of_node (remove_first (node_has_id (typing_id now)) ns)
  = remove_first (is_typing (typing_id now)) (map entry_of_node ns).
Proof.
  induction 1 as [|n ns Hn _ IH]; [done|]. simpl. rewrite (Hn now).
  destruct (is_typing _ _); simpl; [done|]. by rewrite IH.
Qed.

#[export] Instance dom_renderer_laws : RendererLaws chat_window.
Proof.
  split.
  - intros t s w. eexists. split; [reflexivity|]. cbn [transcript dom_renderer].
    unfold dom_transcript, scrollToBottom, append_child. cbn [cw_children].
    rewrite map_app. cbn [map]. rewrite entry_of_message_div. done.
  - intros v s w Hv. destruct v; try done. by destruct (Hv s0).
  - done.
  - intros now w. simpl. unfold dom_transcript. simpl. rewrite map_app. done.
  - intros now w Hw. apply remove_first_map_ok, Hw.
  - intros v s w w' Hw. destruct v; simpl; try done. intros [= <-].
    apply dom_window_ok_append; [apply node_ok_message_div|done].
  - intros now w Hw. apply dom_window_ok_append; [apply node_ok_typing_div|done].
  - intros id w Hw. apply Forall_remove_first, Hw.
Qed.

(** C20: every entry added by [addMessage] or [showTypingIndicator] is
    followed by [scrollToBottom], so the window is left showing its last
    line; [removeTypingIndicator] does not scroll, but a window showing
    its last line still does after a removal. *)
Theorem renderer_scroll (v : value) (s : sender) (now : N) (id : jsstr) (cw : chat_window) :
  (forall cw', addMessage v s cw = inr cw' -> pinned cw')
  /\ pinned (showTypingIndicator now cw).2
  /\ (pinned cw -> pinned (removeTypingIndicator id cw)).
Proof.
  unfold pinned, scroll_height. split; [|split].
  - destruct v; try done. intros cw' [= <-]. unfold scrollToBottom.
    cbn [cw_children cw_scroll_top]. apply le_n.
  - unfold showTypingIndicator, scrollToBottom. cbn [snd cw_children cw_scroll_top]. apply le_n.
  - simpl. pose proof (remove_first_length_le (node_has_id id) (cw_children cw)). lia.
Qed.

(** Witness of C20 on the empty window. *)
Lemma renderer_scroll_witness :
  pinned (ChatWindow [] 0)
  /\ (forall cw', addMessage (VString ‹"hi"›) User (ChatWindow [] 0) = inr cw' -> pinned cw')
  /\ pinned (removeTypingIndicator (typing_id 0) (ChatWindow [] 0)).
Proof.
  assert (pinned (ChatWindow [] 0)) as H0 by (unfold pinned, scroll_height; simpl; lia).
  split; [exact H0|]. split.
  - apply (renderer_scroll (VString ‹"hi"›) User 0 (typing_id 0) (ChatWindow [] 0)).
  - apply (renderer_scroll (VString ‹"hi"›) User 0 (typing_id 0) (ChatWindow [] 0)), H0.
Defined.

