(* ===== verification/Controller.v ===== *)
(** * The conversation controller: [sendMessage] and the event handlers

    [src/static/script.js] lines 7-56 and 116-123.  The page's state is a
    [page]: the [context] (line 7), the chat window (through the
    [Renderer] interface of [Dom]), the input field, the start button,
    the theme (lines 10-13), the clock read by [Date.now()], the calls of
    [sendMessage] suspended at their [await], and the errors passed to
    [console.error] (line 52), in order.

    [sendMessage] is an [async] function: everything up to [await fetch]
    runs at once ([sendMessage_dispatch], lines 25-43: the guard, the user
    entry, clearing the input, the placeholder, the request carrying the
    current context); the rest runs when the network answers
    ([sendMessage_complete], lines 44-55: replace the context, remove the
    placeholder, render the reply, or fall into the [catch] block).  The
    two [await]s of the success path are merged: nothing observable happens
    between them.  Other events may run while a call is suspended, so the
    suspended calls are kept in [pg_inflight] and [step] lets the
    environment resume any of them ([EvResponse]).

    Everything here is generic in the renderer [W]; the theorems use only
    the laws of [RendererLaws]. *)

From S2P Require Import Prelude JsValue Regex Markdown Dom.

(** A call of [sendMessage] suspended at its [await]: the placeholder's id
    ([loadingId], line 33) and the body it sent. *)
Record request := Request { rq_loading_id : jsstr; rq_body : value }.

(** How the two [await]s of lines 36-45 ended: the promise of [fetch]
    rejected (network failure), the response with HTTP [status] arrived
    but [response.json()] rejected (a body that is not JSON), or the body
    parsed to [data].  The status is carried because the response has one;
    the code never reads it ([response.ok] is not consulted). *)
Inductive fetch_outcome :=
| FetchFailed
| FetchNotJson (status : N)
| FetchResolved (status : N) (data : value).

(** The theme button's icons (line 12): U+2600 U+FE0F and U+1F319. *)
Definition icon_sun : jsstr := [9728; 65039]%N.
Definition icon_moon : jsstr := [55356; 57113]%N.

Definition fallback_text : jsstr := ‹"Sorry, I encountered an error. Please try again."›.

Record page (W : Type) := Page {
  pg_context : value;
  pg_window : W;
  pg_input : jsstr;
  pg_start_btn : bool;
  pg_dark : bool;
  pg_theme_icon : jsstr;
  pg_now : N;
  pg_inflight : list request;
  pg_log : list js_error
}.
Arguments Page {W}.
Arguments pg_context {W}. Arguments pg_window {W}. Arguments pg_input {W}.
Arguments pg_start_btn {W}. Arguments pg_dark {W}. Arguments pg_theme_icon {W}.
Arguments pg_now {W}. Arguments pg_inflight {W}. Arguments pg_log {W}.

Inductive event :=
| EvType (s : jsstr)                 (* the user edits the input field *)
| EvClickSend                        (* click on #send-btn, line 117 *)
| EvKeyPress (key : jsstr)           (* keypress in #user-input, lines 119-123 *)
| EvStartChat                        (* window.startChat(), lines 16-22 *)
| EvThemeToggle                      (* click on #theme-toggle, lines 10-13 *)
| EvTick (dt : N)                    (* Date.now() advances by dt *)
| EvResponse (i : nat) (o : fetch_outcome).  (* the i-th suspended call resumes *)

Section controller.
Context {W : Type} `{!Renderer W}.

(** ** Field updates *)

Definition set_context (c : value) (p : page W) : page W :=
  Page c (pg_window p) (pg_input p) (pg_start_btn p) (pg_dark p) (pg_theme_icon p)
    (pg_now p) (pg_inflight p) (pg_log p).
Definition set_window (w : W) (p : page W) : page W :=
  Page (pg_context p) w (pg_input p) (pg_start_btn p) (pg_dark p) (pg_theme_icon p)
    (pg_now p) (pg_inflight p) (pg_log p).
Definition set_input (s : jsstr) (p : page W) : page W :=
  Page (pg_context p) (pg_window p) s (pg_start_btn p) (pg_dark p) (pg_theme_icon p)
    (pg_now p) (pg_inflight p) (pg_log p).
Definition set_inflight (rs : list request) (p : page W) : page W :=
  Page (pg_context p) (pg_window p) (pg_input p) (pg_start_btn p) (pg_dark p)
    (pg_theme_icon p) (pg_now p) rs (pg_log p).

(** ** [sendMessage] *)

(** Lines 25-43, up to [await fetch(...)]: [if (!message && !isSystemTrigger) return;],
    the user's entry and the cleared input (lines 28-31), the placeholder
    (line 33) and the request with the current [context]. *)
Definition sendMessage_dispatch (message : jsstr) (isSystemTrigger : bool) (p : page W)
    : page W :=
  if bool_decide (message = []) && negb isSystemTrigger then p else
  let w_user :=
    if isSystemTrigger then inr (pg_window p)
    else add_message (VString message) User (pg_window p) in
  match w_user with
  | inl _ => p
  | inr w1 =>
      let '(loadingId, w2) := show_typing (pg_now p) w1 in
      Page (pg_context p) w2 (if isSystemTrigger then pg_input p else [])
        (pg_start_btn p) (pg_dark p) (pg_theme_icon p) (pg_now p)
        (pg_inflight p ++ [Request loadingId (request_body message (pg_context p))])
        (pg_log p)
  end.

(** The [catch] block, lines 51-55: log the error, remove the
    placeholder, show the apology (which, a string, cannot throw). *)
Definition sendMessage_catch (error : js_error) (loadingId : jsstr) (p : page W) : page W :=
  let w1 := remove_typing loadingId (pg_window p) in
  let w2 := match add_message (VString fallback_text) Bot w1 with
            | inr w => w
            | inl _ => w1
            end in
  Page (pg_context p) w2 (pg_input p) (pg_start_btn p) (pg_dark p) (pg_theme_icon p)
    (pg_now p) (pg_inflight p) (pg_log p ++ [error]).

(** Lines 44-55, when the awaited promises settle: [context =
    data.context] (a [TypeError] on [null] goes to [catch] before the
    assignment), the placeholder removed, the reply rendered; an exception
    from [addMessage] goes to [catch] with the context already replaced. *)
Definition sendMessage_complete (rq : request) (o : fetch_outcome) (p : page W) : page W :=
  let loadingId := rq_loading_id rq in
  match o with
  | FetchFailed => sendMessage_catch ErrNetwork loadingId p
  | FetchNotJson _ => sendMessage_catch ErrSyntax loadingId p
  | FetchResolved _ data =>
      match get_prop_exn data ‹"context"› with
      | inl err => sendMessage_catch err loadingId p
      | inr ctx =>
          let p1 := set_context ctx p in
          let w1 := remove_typing loadingId (pg_window p1) in
          match get_prop_exn data ‹"response"› with
          | inl err => sendMessage_catch err loadingId (set_window w1 p1)
          | inr resp =>
              match add_message resp Bot w1 with
              | inr w2 => set_window w2 p1
              | inl err => sendMessage_catch err loadingId (set_window w1 p1)
              end
          end
      end
  end.

(** ** Event handlers *)

(** [window.startChat], lines 16-22. *)
Definition startChat (p : page W) : page W :=
  sendMessage_dispatch [] true
    (Page (pg_context p) (pg_window p) (pg_input p) false (pg_dark p) (pg_theme_icon p)
       (pg_now p) (pg_inflight p) (pg_log p)).

(** Line 117: [sendMessage(userInput.value)]. *)
Definition onSendClick (p : page W) : page W :=
  sendMessage_dispatch (pg_input p) false p.

(** Lines 119-123. *)
Definition onKeyPress (key : jsstr) (p : page W) : page W :=
  if bool_decide (key = ‹"Enter"›) then sendMessage_dispatch (pg_input p) false p else p.

(** Lines 10-13: toggle [dark-mode], then show the icon of the new mode. *)
Definition onThemeToggle (p : page W) : page W :=
  let dark := negb (pg_dark p) in
  Page (pg_context p) (pg_window p) (pg_input p) (pg_start_btn p) dark
    (if dark then icon_sun else icon_moon) (pg_now p) (pg_inflight p) (pg_log p).

Definition tick (dt : N) (p : page W) : page W :=
  Page (pg_context p) (pg_window p) (pg_input p) (pg_start_btn p) (pg_dark p)
    (pg_theme_icon p) (pg_now p + dt) (pg_inflight p) (pg_log p).

(** One event of the page's event loop; [None] when the event is not
    possible (no suspended call with that index). *)
Definition step (e : event) (p : page W) : option (page W) :=
  match e with
  | EvType s => Some (set_input s p)
  | EvClickSend => Some (onSendClick p)
  | EvKeyPress key => Some (onKeyPress key p)
  | EvStartChat => Some (startChat p)
  | EvThemeToggle => Some (onThemeToggle p)
  | EvTick dt => Some (tick dt p)
  | EvResponse i o =>
      match pg_inflight p !! i with
      | Some rq => Some (sendMessage_complete rq o (set_inflight (delete i (pg_inflight p)) p))
      | None => None
      end
  end.

Fixpoint run (es : list event) (p : page W) : option (page W) :=
  match es with
  | [] => Some p
  | e :: es' => step e p ≫= run es'
  end.

(** The page after [DOMContentLoaded] (line 7 and the static markup):
    the initial context, the start button shown, light theme. *)
Definition init_page (w0 : W) (t0 : N) : page W :=
  Page initial_context w0 [] true false icon_moon t0 [] [].
End controller.

(** ** What the controller guarantees, from the renderer's laws *)

(** How the completion handler reads a settled request: a rendered reply
    with its context, a failure before the context is read, or a reply
    whose [response] is not a string after the context was replaced. *)
Inductive turn_result :=
| TROk (ctx : value) (text : jsstr)
| TRFail (err : js_error)
| TRBad (ctx : value) (err : js_error).

Definition classify (o : fetch_outcome) : turn_result :=
  match o with
  | FetchFailed => TRFail ErrNetwork
  | FetchNotJson _ => TRFail ErrSyntax
  | FetchResolved _ data =>
      match get_prop data ‹"context"› with
      | None => TRFail (ErrReadProp data ‹"context"›)
      | Some ctx =>
          match get_prop data ‹"response"› with
          | Some (VString t) => TROk ctx t
          | Some v => TRBad ctx (method_call_error v ‹"replace"›)
          | None => TRBad ctx (ErrReadProp data ‹"response"›)
          end
      end
  end.

(** A context is only ever taken from a reply's [context] field. *)
Lemma classify_ctx o ctx :
  (exists t, classify o = TROk ctx t) \/ (exists err, classify o = TRBad ctx err) ->
  exists st data, o = FetchResolved st data /\ get_prop data ‹"context"› = Some ctx.
Proof.
  destruct o as [| |st data]; simpl; [by intros [[]|[]]..|].
  destruct (get_prop data ‹"context"›) as [c|] eqn:Hc; [|by intros [[]|[]]].
  intros H. exists st, data. split; [done|]. rewrite Hc. f_equal.
  destruct (get_prop data ‹"response"›) as [[]|];
    destruct H as [[? H]|[? H]]; congruence.
Qed.

Section controller_laws.
Context {W : Type} `{!Renderer W} `{!RendererLaws W}.

Lemma catch_spec err n p :
  window_ok (pg_window p) ->
  transcript (pg_window (sendMessage_catch err (typing_id n) p))
  = remove_first (is_typing (typing_id n)) (transcript (pg_window p))
      ++ [EMsg Bot (format_text fallback_text)]
  /\ window_ok (pg_window (sendMessage_catch err (typing_id n) p)).
Proof.
  intros Hok. unfold sendMessage_catch. simpl.
  destruct (add_message_string fallback_text Bot (remove_typing (typing_id n) (pg_window p)))
    as (w' & Ew & Hw').
  rewrite Ew, Hw', remove_typing_transcript by done.
  split; [done|]. eapply add_message_ok; [|exact Ew]. by apply remove_typing_ok.
Qed.

(** Every run of the synchronous part of [sendMessage]: the guard returns
    at once, or one user entry (not for the start trigger), one
    placeholder and one request are added. *)
Lemma sendMessage_dispatch_spec m sys p :
  window_ok (pg_window p) ->
  (bool_decide (m = []) && negb sys = true /\ sendMessage_dispatch m sys p = p)
  \/ (bool_decide (m = []) && negb sys = false
      /\ transcript (pg_window (sendMessage_dispatch m sys p))
         = transcript (pg_window p)
             ++ (if sys then [] else [EMsg User (format_text m)])
             ++ [ETyping (typing_id (pg_now p))]
      /\ pg_inflight (sendMessage_dispatch m sys p)
         = pg_inflight p ++ [Request (typing_id (pg_now p)) (request_body m (pg_context p))]
      /\ pg_input (sendMessage_dispatch m sys p) = (if sys then pg_input p else [])
      /\ pg_context (sendMessage_dispatch m sys p) = pg_context p
      /\ pg_now (sendMessage_dispatch m sys p) = pg_now p
      /\ pg_log (sendMessage_dispatch m sys p) = pg_log p
      /\ window_ok (pg_window (sendMessage_dispatch m sys p))).
Proof.
  intros Hok. unfold sendMessage_dispatch.
  destruct (bool_decide (m = []) && negb sys) eqn:Hg; [by left|right].
  assert (exists w1, (if sys then inr (pg_window p)
                      else add_message (VString m) User (pg_window p)) = inr w1
          /\ transcript w1 = transcript (pg_window p)
                               ++ (if sys then [] else [EMsg User (format_text m)])
          /\ window_ok w1) as (w1 & -> & Hw1 & Hok1).
  { destruct sys; [exists (pg_window p); by rewrite app_nil_r|].
    destruct (add_message_string m User (pg_window p)) as (w1 & E & Hw1).
    exists w1. split; [done|]. split; [done|]. by eapply add_message_ok. }
  rewrite (surjective_pairing (show_typing _ _)), show_typing_id. simpl.
  rewrite show_typing_transcript, Hw1, <- app_assoc.
  repeat split; try done. by apply show_typing_ok.
Qed.

(** Every completion of a suspended call, by what the reply was: the
    error logged is the one the [try] block threw. *)
Lemma sendMessage_complete_spec rq n o p :
  rq_loading_id rq = typing_id n -> window_ok (pg_window p) ->
  let p' := sendMessage_complete rq o p in
  let rm := remove_first (is_typing (typing_id n)) in
  window_ok (pg_window p')
  /\ pg_inflight p' = pg_inflight p /\ pg_now p' = pg_now p /\ pg_input p' = pg_input p
  /\ match classify o with
     | TROk ctx t =>
         pg_context p' = ctx
         /\ transcript (pg_window p') = rm (transcript (pg_window p)) ++ [EMsg Bot (format_text t)]
         /\ pg_log p' = pg_log p
     | TRFail err =>
         pg_context p' = pg_context p
         /\ transcript (pg_window p')
            = rm (transcript (pg_window p)) ++ [EMsg Bot (format_text fallback_text)]
         /\ pg_log p' = pg_log p ++ [err]
     | TRBad ctx err =>
         pg_context p' = ctx
         /\ transcript (pg_window p')
            = rm (rm (transcript (pg_window p))) ++ [EMsg Bot (format_text fallback_text)]
         /\ pg_log p' = pg_log p ++ [err]
     end.
Proof.
  intros Hid Hok. cbv zeta. unfold sendMessage_complete, classify, get_prop_exn. rewrite Hid.
  destruct o as [|st|st data].
  { destruct (catch_spec ErrNetwork n p Hok). by repeat split. }
  { destruct (catch_spec ErrSyntax n p Hok). by repeat split. }
  destruct (get_prop data ‹"context"›) as [ctx|] eqn:Hc.
  2:{ destruct (catch_spec (ErrReadProp data ‹"context"›) n p Hok). by repeat split. }
  set (w1 := remove_typing (typing_id n) (pg_window (set_context ctx p))).
  assert (window_ok w1) as Hok1 by (by apply remove_typing_ok).
  destruct (get_prop data ‹"response"›) as [resp|] eqn:Hr.
  2:{ apply get_prop_nullish in Hr as [->| ->]; done. }
  destruct resp as [| |b|z|t|xs|ps].
  5:{ destruct (add_message_string t Bot w1) as (w2 & E & Hw2). rewrite E.
      repeat split; try done; [by eapply add_message_ok|].
      simpl. rewrite Hw2. unfold w1. by rewrite remove_typing_transcript. }
  all: rewrite add_message_other by (intros ? ?; discriminate);
    match goal with |- context [sendMessage_catch ?e] =>
      destruct (catch_spec e n (set_window w1 (set_context ctx p)) Hok1) as [Ht Hok2] end;
    repeat split; try done; rewrite Ht; simpl; unfold w1; by rewrite remove_typing_transcript.
Qed.

(** C4: a non-empty message typed by the user is shown as one user
    entry, then the placeholder; the input is cleared, one request
    carrying the message and the current context is sent, and the context
    is not touched. *)
Theorem sendMessage_dispatch_user (m : jsstr) (p : page W) :
  window_ok (pg_window p) -> m <> [] ->
  transcript (pg_window (sendMessage_dispatch m false p))
    = transcript (pg_window p) ++ [EMsg User (format_text m); ETyping (typing_id (pg_now p))]
  /\ pg_input (sendMessage_dispatch m false p) = []
  /\ pg_context (sendMessage_dispatch m false p) = pg_context p
  /\ pg_inflight (sendMessage_dispatch m false p)
     = pg_inflight p ++ [Request (typing_id (pg_now p)) (request_body m (pg_context p))].
Proof.
  intros Hok Hm.
  destruct (sendMessage_dispatch_spec m false p Hok) as [[Hg _]|(_ & Ht & Hi & Hin & Hc & _)].
  - rewrite bool_decide_false in Hg by done. done.
  - by rewrite Ht, Hi, Hin, Hc.
Qed.

(** C5: an empty message from the user is dropped (nothing changes),
    while the start trigger's empty message adds only the placeholder and
    sends one request whose message is empty. *)
Theorem sendMessage_dispatch_blank (p : page W) :
  window_ok (pg_window p) ->
  sendMessage_dispatch [] false p = p
  /\ transcript (pg_window (sendMessage_dispatch [] true p))
     = transcript (pg_window p) ++ [ETyping (typing_id (pg_now p))]
  /\ pg_input (sendMessage_dispatch [] true p) = pg_input p
  /\ pg_inflight (sendMessage_dispatch [] true p)
     = pg_inflight p ++ [Request (typing_id (pg_now p)) (request_body [] (pg_context p))].
Proof.
  intros Hok. split; [done|].
  destruct (sendMessage_dispatch_spec [] true p Hok) as [[Hg _]|(_ & Ht & Hi & Hin & _)];
    [done|]. by rewrite Ht, Hi, Hin.
Qed.

(** C6: a reply that is an object with a string [response], whatever
    its HTTP status, replaces the context by the reply's [context],
    removes the placeholder and shows the reply, formatted; nothing is
    logged. *)
Theorem sendMessage_complete_success rq n st data ctx t p :
  rq_loading_id rq = typing_id n -> window_ok (pg_window p) ->
  get_prop data ‹"context"› = Some ctx -> get_prop data ‹"response"› = Some (VString t) ->
  pg_context (sendMessage_complete rq (FetchResolved st data) p) = ctx
  /\ transcript (pg_window (sendMessage_complete rq (FetchResolved st data) p))
     = remove_first (is_typing (typing_id n)) (transcript (pg_window p))
         ++ [EMsg Bot (format_text t)]
  /\ pg_log (sendMessage_complete rq (FetchResolved st data) p) = pg_log p.
Proof.
  intros Hid Hok Hc Hr.
  destruct (sendMessage_complete_spec rq n (FetchResolved st data) p Hid Hok) as (_ & _ & _ & _ & H).
  unfold classify in H. by rewrite Hc, Hr in H.
Qed.

(** C7: when the request fails before the context is read (the [fetch]
    promise rejects, the body is not JSON, or the reply is [null]), the
    context is kept, the placeholder is removed, the fixed apology is
    shown and exactly the error thrown is logged: the network error, the
    [SyntaxError] of [response.json()], or the [TypeError] of reading
    [context] of [null]. *)
Theorem sendMessage_complete_failure rq n o err p :
  rq_loading_id rq = typing_id n -> window_ok (pg_window p) ->
  (o = FetchFailed /\ err = ErrNetwork)
  \/ (exists st, o = FetchNotJson st /\ err = ErrSyntax)
  \/ (exists st data, o = FetchResolved st data /\ get_prop data ‹"context"› = None
                      /\ err = ErrReadProp data ‹"context"›) ->
  pg_context (sendMessage_complete rq o p) = pg_context p
  /\ transcript (pg_window (sendMessage_complete rq o p))
     = remove_first (is_typing (typing_id n)) (transcript (pg_window p))
         ++ [EMsg Bot (format_text fallback_text)]
  /\ pg_log (sendMessage_complete rq o p) = pg_log p ++ [err].
Proof.
  intros Hid Hok Ho.
  destruct (sendMessage_complete_spec rq n o p Hid Hok) as (_ & _ & _ & _ & H).
  destruct Ho as [[-> ->]|[(st & -> & ->)|(st & data & -> & Hc & ->)]]; [done|done|].
  unfold classify in H. by rewrite Hc in H.
Qed.

(** C8: a reply that parses but whose [response] is not a string (a
    JSON error body, a missing field) still overwrites the context with
    its [context] field before [addMessage] throws; the [catch] block then
    removes a placeholder with the same id a second time, shows the
    apology and logs the [TypeError] of [text.replace]. *)
Theorem sendMessage_complete_bad_reply rq n st data ctx v p :
  rq_loading_id rq = typing_id n -> window_ok (pg_window p) ->
  get_prop data ‹"context"› = Some ctx -> get_prop data ‹"response"› = Some v ->
  (forall t, v <> VString t) ->
  pg_context (sendMessage_complete rq (FetchResolved st data) p) = ctx
  /\ transcript (pg_window (sendMessage_complete rq (FetchResolved st data) p))
     = remove_first (is_typing (typing_id n))
         (remove_first (is_typing (typing_id n)) (transcript (pg_window p)))
         ++ [EMsg Bot (format_text fallback_text)]
  /\ pg_log (sendMessage_complete rq (FetchResolved st data) p)
     = pg_log p ++ [method_call_error v ‹"replace"›].
Proof.
  intros Hid Hok Hc Hr Hv.
  destruct (sendMessage_complete_spec rq n (FetchResolved st data) p Hid Hok) as (_ & _ & _ & _ & H).
  unfold classify in H. rewrite Hc, Hr in H.
  destruct v; try exact H. by destruct (Hv s).
Qed.

(** After a successful turn the context is the reply's, and the next
    user message is sent with it. *)
Lemma next_request_body rq n st data ctx t m p :
  rq_loading_id rq = typing_id n -> window_ok (pg_window p) ->
  get_prop data ‹"context"› = Some ctx -> get_prop data ‹"response"› = Some (VString t) ->
  m <> [] ->
  let p' := sendMessage_complete rq (FetchResolved st data) p in
  pg_context p' = ctx
  /\ pg_inflight (sendMessage_dispatch m false p')
     = pg_inflight p' ++ [Request (typing_id (pg_now p')) (request_body m ctx)].
Proof.
  intros Hid Hok Hc Hr Hm p'.
  destruct (sendMessage_complete_spec rq n (FetchResolved st data) p Hid Hok)
    as (Hok' & _ & _ & _ & H). unfold classify in H. rewrite Hc, Hr in H. destruct H as [Hctx _].
  split; [done|].
  destruct (sendMessage_dispatch_spec m false p' Hok') as [[Hg _]|(_ & _ & -> & _)].
  - rewrite bool_decide_false in Hg by done. done.
  - subst p'. by rewrite Hctx.
Qed.

(** C9: the context returned by a successful turn is sent back as the
    [context] field of the very next request, as [JSON.stringify] writes
    it: unchanged, except that a number out of the double range
    (an infinity) becomes [null] and [-0] becomes [0]. *)
Theorem context_roundtrip rq n st data ctx t m p :
  rq_loading_id rq = typing_id n -> window_ok (pg_window p) ->
  get_prop data ‹"context"› = Some ctx -> get_prop data ‹"response"› = Some (VString t) ->
  is_json ctx = true -> m <> [] ->
  let p' := sendMessage_complete rq (FetchResolved st data) p in
  pg_inflight (sendMessage_dispatch m false p')
  = pg_inflight p'
    ++ [Request (typing_id (pg_now p'))
          (VObject [(‹"message"›, VString m); (‹"context"›, json_normalize ctx)])].
Proof.
  intros Hid Hok Hc Hr Hj Hm.
  destruct (next_request_body rq n st data ctx t m p Hid Hok Hc Hr Hm) as [_ H].
  cbv zeta in *. rewrite H. by rewrite request_body_json.
Qed.

(** C22: a reply without a [context] field sets the context to
    [undefined]; [JSON.stringify] then leaves the field out, and the next
    request carries the message alone. *)
Theorem context_missing_dropped rq n st props t m p :
  rq_loading_id rq = typing_id n -> window_ok (pg_window p) ->
  lookup_prop ‹"context"› props = None ->
  lookup_prop ‹"response"› props = Some (VString t) -> m <> [] ->
  let p' := sendMessage_complete rq (FetchResolved st (VObject props)) p in
  pg_context p' = VUndefined
  /\ pg_inflight (sendMessage_dispatch m false p')
     = pg_inflight p' ++ [Request (typing_id (pg_now p')) (VObject [(‹"message"›, VString m)])].
Proof.
  intros Hid Hok Hc Hr Hm.
  assert (get_prop (VObject props) ‹"context"› = Some VUndefined) as Hc' by (simpl; by rewrite Hc).
  destruct (next_request_body rq n st (VObject props) VUndefined t m p Hid Hok Hc'
              (get_prop_object _ _ _ Hr) Hm) as [Hctx H].
  cbv zeta in *. by rewrite H.
Qed.
End controller_laws.

(** ** The theme toggle *)

Lemma theme_dispatch {W} `{!Renderer W} m sys (p : page W) :
  sendMessage_dispatch m sys (onThemeToggle p) = onThemeToggle (sendMessage_dispatch m sys p).
Proof.
  unfold sendMessage_dispatch. destruct (_ && _); [done|].
  destruct sys; simpl; [|destruct (add_message _ _ _); [done|]];
    destruct (show_typing _ _); done.
Qed.

Lemma theme_complete {W} `{!Renderer W} rq o (p : page W) :
  sendMessage_complete rq o (onThemeToggle p) = onThemeToggle (sendMessage_complete rq o p).
Proof.
  unfold sendMessage_complete, sendMessage_catch, get_prop_exn.
  destruct o as [| |st data]; [done|done|].
  destruct (get_prop data _); [|done]. simpl.
  destruct (get_prop data _); [|done]. destruct (add_message _ _ _); done.
Qed.

(** C21: the theme is independent of the conversation: toggling it
    commutes with every event of the page. *)
Theorem theme_toggle_commutes {W} `{!Renderer W} (e : event) (p : page W) :
  step e (onThemeToggle p) = onThemeToggle <$> step e p.
Proof.
  destruct e as [s| |key| | |dt|i o]; cbn [step fmap option_fmap option_map]; try reflexivity.
  - unfold onSendClick. rewrite theme_dispatch. reflexivity.
  - unfold onKeyPress. case_bools; [rewrite theme_dispatch|]; reflexivity.
  - unfold startChat. rewrite <- theme_dispatch. reflexivity.
  - change (pg_inflight (onThemeToggle p)) with (pg_inflight p).
    destruct (pg_inflight p !! i) as [rq|]; [|reflexivity].
    cbn [fmap option_fmap option_map]. rewrite <- theme_complete. reflexivity.
Qed.

(** ** Witnesses on the DOM model

    The page after the user sent "hi" on the empty window at time 0, and
    replies of the service to its request. *)

Definition demo_page : page chat_window :=
  sendMessage_dispatch ‹"hi"› false (init_page (ChatWindow [] 0) 0).
Definition demo_rq : request := Request (typing_id 0) (request_body ‹"hi"› initial_context).
Definition demo_ctx : value := VObject [(‹"state"›, VString ‹"GREETED"›)].
Definition demo_reply : value :=
  VObject [(‹"response"›, VString ‹"Hello"›); (‹"context"›, demo_ctx)].
Definition demo_bad_reply : value := VObject [(‹"context"›, demo_ctx)].

Lemma demo_page_ok : window_ok (pg_window demo_page).
Proof. repeat constructor; intros n; reflexivity. Qed.

Lemma init_ok : window_ok (pg_window (init_page (ChatWindow [] 0) 0)).
Proof. constructor. Qed.

(** Witness of C4. *)
Lemma sendMessage_dispatch_user_witness :
  ‹"hi"› <> []
  /\ pg_input (sendMessage_dispatch ‹"hi"› false (init_page (ChatWindow [] 0) 0)) = [].
Proof.
  assert (Hm : ‹"hi"› <> []) by discriminate. split; [exact Hm|].
  exact (proj1 (proj2 (sendMessage_dispatch_user ‹"hi"› _ init_ok Hm))).
Defined.

(** Witness of C5. *)
Lemma sendMessage_dispatch_blank_witness :
  sendMessage_dispatch [] false demo_page = demo_page.
Proof. exact (proj1 (sendMessage_dispatch_blank demo_page demo_page_ok)). Defined.

(** Witness of C6: the reply comes with the status 500. *)
Lemma sendMessage_complete_success_witness :
  pg_context (sendMessage_complete demo_rq (FetchResolved 500 demo_reply) demo_page) = demo_ctx.
Proof.
  exact (proj1 (sendMessage_complete_success demo_rq 0 500 demo_reply demo_ctx ‹"Hello"› demo_page
                  eq_refl demo_page_ok eq_refl eq_refl)).
Defined.

(** Witness of C7: the network error. *)
Lemma sendMessage_complete_failure_witness :
  pg_log (sendMessage_complete demo_rq FetchFailed demo_page) = [ErrNetwork].
Proof.
  exact (proj2 (proj2 (sendMessage_complete_failure demo_rq 0 FetchFailed ErrNetwork demo_page
                         eq_refl demo_page_ok (or_introl (conj eq_refl eq_refl))))).
Defined.

(** Witness of C8: the reply without [response]. *)
Lemma sendMessage_complete_bad_reply_witness :
  pg_context (sendMessage_complete demo_rq (FetchResolved 200 demo_bad_reply) demo_page) = demo_ctx.
Proof.
  assert (Hv : forall t, VUndefined <> VString t) by discriminate.
  exact (proj1 (sendMessage_complete_bad_reply demo_rq 0 200 demo_bad_reply demo_ctx VUndefined
                  demo_page eq_refl demo_page_ok eq_refl eq_refl Hv)).
Defined.

(** Witness of C9 (context round trip). *)
Lemma context_roundtrip_witness :
  pg_inflight (sendMessage_dispatch ‹"more"› false
                 (sendMessage_complete demo_rq (FetchResolved 200 demo_reply) demo_page))
  = pg_inflight (sendMessage_complete demo_rq (FetchResolved 200 demo_reply) demo_page)
    ++ [Request (typing_id (pg_now (sendMessage_complete demo_rq (FetchResolved 200 demo_reply) demo_page)))
          (VObject [(‹"message"›, VString ‹"more"›); (‹"context"›, demo_ctx)])].
Proof.
  assert (Hm : ‹"more"› <> []) by discriminate.
  exact (context_roundtrip demo_rq 0 200 demo_reply demo_ctx ‹"Hello"› ‹"more"› demo_page
           eq_refl demo_page_ok eq_refl eq_refl eq_refl Hm).
Defined.

(** Witness of C22: the reply [{response: "Hello"}]. *)
Lemma context_missing_dropped_witness :
  pg_context (sendMessage_complete demo_rq
                (FetchResolved 200 (VObject [(‹"response"›, VString ‹"Hello"›)])) demo_page)
  = VUndefined.
Proof.
  assert (Hm : ‹"more"› <> []) by discriminate.
  exact (proj1 (context_missing_dropped demo_rq 0 200 [(‹"response"›, VString ‹"Hello"›)]
                  ‹"Hello"› ‹"more"› demo_page eq_refl demo_page_ok eq_refl eq_refl Hm)).
Defined.
