(* ===== verification/Protocol.v ===== *)
(** * The page as a state machine

    The page runs one event at a time ([Controller.step]).  This file
    studies its executions from the initial page ([init_page]):
    - [reachable]: any sequence of events, as the code allows;
    - [reachable_fresh]: as [reachable], but a send is only taken when no
      suspended call has a placeholder named by the current millisecond
      (two sends in the same millisecond give two placeholders the same
      id, [typing-<Date.now()>]);
    - [reachable_single]: the discipline the specification asks of the UI
      (section 5): no send while a call is suspended.
    The theorems are proved by rule induction on these relations, using
    only the laws of the renderer and the [*_spec] lemmas of [Controller],
    including what the code allows beyond the specification on any
    reached page; the witnesses run concrete executions on the DOM model.
    The refinement section relates the client to an abstract
    specification in which a turn is one atomic step: [turns_reach]
    records the turns of a single-flight run, and the page is [spec_run]
    of them. *)

From S2P Require Import Prelude JsValue Regex Markdown Dom Controller.

(** Events whose handler calls [sendMessage]: a click, an Enter press,
    the start trigger. *)
Definition sends (e : event) : bool :=
  match e with
  | EvClickSend | EvStartChat => true
  | EvKeyPress key => bool_decide (key = ‹"Enter"›)
  | _ => false
  end.

Definition placeholders {W} `{!Renderer W} (p : page W) : list entry :=
  filter (fun e => is_placeholder e = true) (transcript (pg_window p)).

Definition inflight_ids {W} (p : page W) : list jsstr := map rq_loading_id (pg_inflight p).

(** ** The abstract specification: a turn is one atomic step

    The specification (section 4.1 of the repository's spec) describes a
    conversation as the current state token and the sequence of transcript
    entries; a turn adds the user's entry (not for the start trigger) and
    then either the reply with its new state, or the fallback text with the
    state unchanged.  Placeholders are not part of it. *)
Record conv := Conv { cv_state : value; cv_entries : list entry }.

Inductive spec_reply :=
| SReply (ctx : value) (text : jsstr)
| SFailure.

Definition user_part (m : jsstr) (sys : bool) : list entry :=
  if sys then [] else [EMsg User (format_text m)].

Definition spec_turn (m : jsstr) (sys : bool) (r : spec_reply) (c : conv) : conv :=
  let es := cv_entries c ++ user_part m sys in
  match r with
  | SReply ctx t => Conv ctx (es ++ [EMsg Bot (format_text t)])
  | SFailure => Conv (cv_state c) (es ++ [EMsg Bot (format_text fallback_text)])
  end.

(** The reply the specification sees in a settled request; a reply whose
    [response] is not a string has no counterpart. *)
Definition spec_reply_of (o : fetch_outcome) : option spec_reply :=
  match classify o with
  | TROk ctx t => Some (SReply ctx t)
  | TRFail _ => Some SFailure
  | TRBad _ _ => None
  end.

(** The abstraction of a page: its context and the entries it shows,
    placeholders left out. *)
Definition visible {W} `{!Renderer W} (p : page W) : list entry :=
  filter (fun e => is_placeholder e = false) (transcript (pg_window p)).

Definition abs_page {W} `{!Renderer W} (p : page W) : conv :=
  Conv (pg_context p) (visible p).

(** Removing the one placeholder with [id] leaves the other entries and
    no placeholder. *)
Lemma remove_only_placeholder id (l : list entry) :
  filter (fun e => is_placeholder e = true) l = [ETyping id] ->
  filter (fun e => is_placeholder e = false) (remove_first (is_typing id) l)
  = filter (fun e => is_placeholder e = false) l
  /\ filter (fun e => is_placeholder e = true) (remove_first (is_typing id) l) = [].
Proof.
  set (ph := fun e => is_placeholder e = true). set (nph := fun e => is_placeholder e = false).
  induction l as [|x l IH]; [done|]. intros H.
  destruct x as [s h|id'|]; cbn [remove_first is_typing].
  1,3: rewrite (filter_cons_False ph) in H by done;
       rewrite !(filter_cons_True nph), (filter_cons_False ph) by done;
       destruct (IH H) as [-> ->]; done.
  rewrite (filter_cons_True ph) in H by done. injection H as -> Hl.
  rewrite bool_decide_true by done. rewrite (filter_cons_False nph) by done. done.
Qed.

Section protocol.
Context {W : Type} `{!Renderer W} `{!RendererLaws W}.
Variables (w0 : W) (t0 : N).

(** The executions from the initial page in which every event taken
    satisfies [allowed] on the page it is taken from. *)
Inductive reach (allowed : page W -> event -> Prop) : page W -> Prop :=
| reach_init : reach allowed (init_page w0 t0)
| reach_step e p p' :
    reach allowed p -> allowed p e -> step e p = Some p' -> reach allowed p'.

(** Any sequence of events, as the code allows. *)
Definition reachable : page W -> Prop := reach (fun _ _ => True).

Definition fresh_clock (p : page W) : Prop :=
  Forall (fun rq => rq_loading_id rq <> typing_id (pg_now p)) (pg_inflight p).

(** A send only when no suspended call's placeholder is named by the
    current millisecond. *)
Definition fresh_ok (p : page W) (e : event) : Prop := sends e = true -> fresh_clock p.
Definition reachable_fresh : page W -> Prop := reach fresh_ok.

(** A send only when no call is suspended. *)
Definition single_ok (p : page W) (e : event) : Prop := sends e = true -> pg_inflight p = [].
Definition reachable_single : page W -> Prop := reach single_ok.

Lemma reach_mono (A B : page W -> event -> Prop) p :
  (forall q e, A q e -> B q e) -> reach A p -> reach B p.
Proof. intros HAB. induction 1; [constructor|]. eapply reach_step; eauto. Qed.

Lemma single_ok_fresh q e : single_ok q e -> fresh_ok q e.
Proof. intros H He. unfold fresh_clock. by rewrite H. Qed.

(** The window is well formed and every suspended call's id is a
    placeholder id. *)
Definition wf_page (p : page W) : Prop :=
  window_ok (pg_window p)
  /\ Forall (fun rq => exists n, rq_loading_id rq = typing_id n) (pg_inflight p).

(** The placeholders shown are those of the suspended calls, in order,
    and their ids are distinct. *)
Definition ph_inv (p : page W) : Prop :=
  placeholders p = map (fun rq => ETyping (rq_loading_id rq)) (pg_inflight p)
  /\ NoDup (inflight_ids p).

Hypothesis w0_ok : window_ok w0.
Hypothesis w0_clean : filter (fun e => is_placeholder e = true) (transcript w0) = [].

Lemma run_reachable es p p' : reachable p -> run es p = Some p' -> reachable p'.
Proof.
  revert p. induction es as [|e es IH]; intros p Hp Hr; simpl in Hr; [by injection Hr as <-|].
  destruct (step e p) as [p1|] eqn:E; [|done]. apply (IH p1); [|done].
  by apply (reach_step _ e p).
Qed.

(** Every event either leaves the conversation alone, calls
    [sendMessage] on the page (possibly with the start button removed), or
    resumes one suspended call. *)
Lemma step_cases e p p' :
  step e p = Some p' ->
  (pg_window p' = pg_window p /\ pg_inflight p' = pg_inflight p /\ pg_context p' = pg_context p)
  \/ (sends e = true /\ exists m sys q, p' = sendMessage_dispatch m sys q
        /\ pg_window q = pg_window p /\ pg_inflight q = pg_inflight p
        /\ pg_context q = pg_context p /\ pg_now q = pg_now p)
  \/ (exists i rq o, e = EvResponse i o /\ pg_inflight p !! i = Some rq
        /\ p' = sendMessage_complete rq o (set_inflight (delete i (pg_inflight p)) p)).
Proof.
  destruct e as [s| |key| | |dt|i o]; cbn [step]; intros Hs.
  - injection Hs as <-. by left.
  - injection Hs as <-. right; left. split; [done|]. by exists (pg_input p), false, p.
  - injection Hs as <-. unfold onKeyPress. case_bool_decide as Hk; [|by left].
    right; left. split; [cbn; by rewrite bool_decide_true|]. by exists (pg_input p), false, p.
  - injection Hs as <-. right; left. split; [done|]. eexists [], true, _. by split.
  - injection Hs as <-. by left.
  - injection Hs as <-. by left.
  - destruct (pg_inflight p !! i) as [rq|] eqn:E; [|done]. injection Hs as <-.
    right; right. by exists i, rq, o.
Qed.

Lemma remove_first_typing_delete (rqs : list request) i rq :
  NoDup (map rq_loading_id rqs) -> rqs !! i = Some rq ->
  remove_first (is_typing (rq_loading_id rq)) (map (fun r => ETyping (rq_loading_id r)) rqs)
  = map (fun r => ETyping (rq_loading_id r)) (delete i rqs)
  /\ Forall (fun e => is_typing (rq_loading_id rq) e = false)
       (map (fun r => ETyping (rq_loading_id r)) (delete i rqs)).
Proof.
  revert i. induction rqs as [|r rqs IH]; intros [|i] Hnd Hi; try done;
    simpl in Hi, Hnd; simpl; apply list.NoDup_cons in Hnd as [Hr Hnd].
  - injection Hi as <-. rewrite bool_decide_true by done. split; [done|].
    apply Forall_forall. intros e He. apply (proj2 (list_elem_of_In _ _)) in He.
    apply list_elem_of_fmap in He as (r' & -> & Hr'). simpl.
    apply bool_decide_false. intros Heq. apply Hr. rewrite <- Heq.
    apply list_elem_of_fmap. eauto.
  - assert (rq_loading_id r <> rq_loading_id rq) as Hne.
    { intros Heq. apply Hr. rewrite Heq. apply list_elem_of_fmap. exists rq.
      split; [done|]. by eapply list_elem_of_lookup_2. }
    rewrite bool_decide_false by done. destruct (IH i Hnd Hi) as [-> Hf].
    split; [done|]. constructor; [|done]. simpl. by apply bool_decide_false.
Qed.

Lemma dispatch_preserves m sys q :
  wf_page q -> ph_inv q -> fresh_clock q ->
  wf_page (sendMessage_dispatch m sys q) /\ ph_inv (sendMessage_dispatch m sys q).
Proof.
  intros [Hok Hids] [Hph Hnd] Hfresh.
  destruct (sendMessage_dispatch_spec m sys q Hok)
    as [[_ ->]|(_ & Ht & Hi & _ & _ & _ & _ & Hok')]; [done|].
  split; [split|split].
  - done.
  - rewrite Hi. apply Forall_app. split; [done|]. repeat constructor. eauto.
  - unfold placeholders. rewrite Ht, Hi, !list.filter_app. fold (placeholders q). rewrite Hph.
    rewrite map_app. f_equal. by destruct sys.
  - unfold inflight_ids. rewrite Hi, map_app. apply list.NoDup_app. split; [done|].
    split; [|apply NoDup_singleton]. intros id Hid ->%list_elem_of_singleton.
    apply list_elem_of_fmap in Hid as (rq & Heq & Hrq).
    unfold fresh_clock in Hfresh. rewrite list.Forall_forall in Hfresh. by apply (Hfresh rq).
Qed.

Lemma complete_preserves i rq o p :
  wf_page p -> ph_inv p -> pg_inflight p !! i = Some rq ->
  let p' := sendMessage_complete rq o (set_inflight (delete i (pg_inflight p)) p) in
  wf_page p' /\ ph_inv p' /\ pg_now p' = pg_now p.
Proof.
  intros [Hok Hids] [Hph Hnd] Hi p'.
  assert (exists n, rq_loading_id rq = typing_id n) as [n Hid].
  { rewrite list.Forall_forall in Hids. apply Hids. by eapply list_elem_of_lookup_2. }
  destruct (sendMessage_complete_spec rq n o (set_inflight (delete i (pg_inflight p)) p) Hid Hok)
    as (Hok' & Hin & Hnow & _ & H).
  destruct (remove_first_typing_delete _ i rq Hnd Hi) as [Hrm Hnone]. rewrite Hid in Hrm, Hnone.
  assert (placeholders p' = map (fun r => ETyping (rq_loading_id r)) (delete i (pg_inflight p))) as Hph'.
  { unfold p', placeholders.
    assert (forall l, filter (fun e => is_placeholder e = true)
                        (remove_first (is_typing (typing_id n)) l)
                      = remove_first (is_typing (typing_id n))
                          (filter (fun e => is_placeholder e = true) l)) as Hf.
    { intros l. apply remove_first_filter. by intros [] . }
    destruct (classify o) as [ctx t|err|ctx err]; destruct H as (_ & -> & _);
      rewrite list.filter_app, ?Hf; cbn [pg_window set_inflight]; fold (placeholders p); simpl; rewrite Hph;
      rewrite ?Hrm, ?(remove_first_none _ _ Hnone); simpl; by rewrite app_nil_r. }
  subst p'. split; [split|split; [split|]]; [done| | | |].
  - rewrite Hin. by apply Forall_delete.
  - rewrite Hph', Hin. done.
  - unfold inflight_ids. rewrite Hin. simpl.
    eapply sublist_NoDup; [exact Hnd|]. change (map rq_loading_id (delete i (pg_inflight p))) with (rq_loading_id <$> delete i (pg_inflight p)). rewrite list_fmap_delete. apply sublist_delete.
  - by rewrite Hnow.
Qed.

(** Whatever the events allowed, every page reached has a well-formed
    window, and every suspended call carries a placeholder id. *)
Lemma reach_wf (A : page W -> event -> Prop) (p : page W) : reach A p -> wf_page p.
Proof.
  induction 1 as [|e p p' _ IH _ Hs]; [by split|].
  destruct (step_cases e p p' Hs) as [(Hw & Hi & _)|[(_ & m & sys & q & -> & Hw & Hi & _)|(i & rq & o & _ & Hrq & ->)]].
  - destruct IH as [Hok Hids]. split; [by rewrite Hw|by rewrite Hi].
  - destruct IH as [Hok Hids]. destruct (sendMessage_dispatch_spec m sys q)
      as [[_ ->]|(_ & _ & Hi' & _ & _ & Hnow & _ & Hok')]; [by rewrite Hw| |].
    + split; [by rewrite Hw|by rewrite Hi].
    + split; [done|]. rewrite Hi', Hi. apply Forall_app. split; [done|]. repeat constructor. eauto.
  - destruct IH as [Hok Hids].
    assert (exists n, rq_loading_id rq = typing_id n) as [n Hid]
      by (rewrite list.Forall_forall in Hids; apply Hids; by eapply list_elem_of_lookup_2).
    destruct (sendMessage_complete_spec rq n o (set_inflight (delete i (pg_inflight p)) p) Hid Hok)
      as (Hok' & Hin & _). split; [done|]. rewrite Hin. by apply Forall_delete.
Qed.

Lemma reachable_fresh_inv (p : page W) : reachable_fresh p -> wf_page p /\ ph_inv p.
Proof.
  induction 1 as [|e p p' _ [IHwf IHph] Hfr Hs].
  - split; [by split|]. split; [done|constructor].
  - destruct (step_cases e p p' Hs) as [(Hw & Hi & _)|[(Hse & m & sys & q & -> & Hw & Hi & Hc & Hn)|(i & rq & o & _ & Hrq & ->)]].
    + destruct IHwf, IHph. unfold wf_page, ph_inv, placeholders, inflight_ids in *.
      rewrite Hw, Hi. done.
    + apply dispatch_preserves.
      * destruct IHwf. split; [by rewrite Hw|by rewrite Hi].
      * destruct IHph. unfold ph_inv, placeholders, inflight_ids in *. by rewrite Hw, Hi.
      * unfold fresh_clock. rewrite Hi, Hn. by apply Hfr.
    + by destruct (complete_preserves i rq o p IHwf IHph Hrq) as (? & ? & _).
Qed.

(** C2: as long as no two sends share a millisecond, the placeholders
    on screen are exactly those of the suspended calls, in the order the
    calls were made: one placeholder per request in flight, none
    otherwise. *)
Theorem placeholder_invariant (p : page W) :
  reachable_fresh p ->
  placeholders p = map (fun rq => ETyping (rq_loading_id rq)) (pg_inflight p).
Proof. intros H. apply reachable_fresh_inv, H. Qed.

Lemma single_fresh (p : page W) :
  reachable_single p -> reachable_fresh p /\ length (pg_inflight p) <= 1.
Proof.
  intros H. split; [by eapply reach_mono; [apply single_ok_fresh|]|].
  induction H as [|e p p' Hp IHlen Hsg Hs]; [simpl; lia|].
  pose proof (reach_mono _ _ p single_ok_fresh Hp) as Hfr.
  destruct (reachable_fresh_inv p Hfr) as [[Hok Hids] Hph].
  destruct (step_cases e p p' Hs) as [(_ & Hi & _)|[(Hse & m & sys & q & -> & Hw & Hi & Hc & Hn)|(i & rq & o & _ & Hrq & ->)]].
  - by rewrite Hi.
  - rewrite <- Hw in Hok.
    destruct (sendMessage_dispatch_spec m sys q Hok) as [[_ ->]|(_ & _ & Hi' & _)].
    + by rewrite Hi.
    + rewrite Hi', Hi, Hsg by done. simpl. lia.
  - assert (exists n, rq_loading_id rq = typing_id n) as [n Hid]
      by (rewrite list.Forall_forall in Hids; apply Hids; by eapply list_elem_of_lookup_2).
    destruct (sendMessage_complete_spec rq n o (set_inflight (delete i (pg_inflight p)) p) Hid Hok)
      as (_ & -> & _). simpl. rewrite length_delete by eauto. lia.
Qed.

(** C3: under the single-flight discipline the specification asks for
    (no send while a call is suspended), at most one request is in flight
    and at most one placeholder is shown. *)
Theorem single_flight (p : page W) :
  reachable_single p -> length (pg_inflight p) <= 1 /\ length (placeholders p) <= 1.
Proof.
  intros H. destruct (single_fresh p H) as [Hfr Hlen]. split; [done|].
  destruct (reachable_fresh_inv p Hfr) as [_ [-> _]]. by rewrite length_map.
Qed.

(** ** Every suspended call can complete *)

(** C23: from any page reached with fresh placeholder ids, whatever the
    network answers, resuming the suspended calls one by one takes the
    page to a state with no call suspended and no placeholder shown:
    every turn can end, whatever the interleaving before. *)
Theorem pending_calls_complete (p : page W) (os : list fetch_outcome) :
  reachable_fresh p -> length os = length (pg_inflight p) ->
  exists p', run (map (EvResponse 0) os) p = Some p'
             /\ pg_inflight p' = [] /\ placeholders p' = [] /\ reachable_fresh p'.
Proof.
  revert p. induction os as [|o os IH]; intros p Hp Hlen.
  - exists p. destruct (pg_inflight p) eqn:Hi; [|done].
    destruct (reachable_fresh_inv p Hp) as [_ [Hph _]]. rewrite Hi in Hph. done.
  - destruct (pg_inflight p) as [|rq rqs] eqn:Hi; [done|]. simpl in Hlen.
    destruct (reachable_fresh_inv p Hp) as [[Hok Hids] _].
    rewrite Hi in Hids. apply list.Forall_cons in Hids as [[n Hid] _].
    set (p1 := sendMessage_complete rq o (set_inflight rqs p)).
    assert (step (EvResponse 0 o) p = Some p1) as Hs by (simpl; by rewrite Hi).
    assert (reachable_fresh p1) as Hp1 by (apply (reach_step _ (EvResponse 0 o) p); [done|by intros ?|exact Hs]).
    destruct (sendMessage_complete_spec rq n o (set_inflight rqs p) Hid Hok) as (_ & Hin & _).
    destruct (IH p1 Hp1) as (p' & Hr & Hrest); [unfold p1; rewrite Hin; simpl; lia|].
    exists p'. cbn [map run]. rewrite Hs. exact (conj Hr Hrest).
Qed.

(** ** Refinement of the atomic-turn specification *)

(** The message a user action submits to [sendMessage]: the input field
    on a click or an Enter press (lines 117, 119-123), the empty system
    message on the start trigger (line 21). *)
Definition submitted (e : event) (p : page W) : option (jsstr * bool) :=
  match e with
  | EvClickSend => Some (pg_input p, false)
  | EvKeyPress key => if bool_decide (key = ‹"Enter"›) then Some (pg_input p, false) else None
  | EvStartChat => Some ([], true)
  | _ => None
  end.

Definition conv0 : conv := abs_page (init_page w0 t0).

(** The conversation of the specification after a sequence of turns,
    each a message, whether it is the start trigger, and its reply. *)
Definition spec_run (ts : list (jsstr * bool * spec_reply)) : conv :=
  fold_left (fun c '(m, sys, r) => spec_turn m sys r c) ts conv0.

(** The runs of the page under the specification's discipline, with the
    turns they perform: [ts] the finished turns, [pend] the turn waiting
    for its reply.  A turn is the message the event submits, taken only
    when no turn is waiting (single flight); it ends when its call
    resumes, with the reply the network gave it, which must be well
    formed.  Nothing in the turns is chosen: they are read off the events
    and the page. *)
Inductive turns_reach :
    page W -> list (jsstr * bool * spec_reply) -> option (jsstr * bool) -> Prop :=
| turns_init : turns_reach (init_page w0 t0) [] None
| turns_other e p p' ts pend :
    turns_reach p ts pend -> submitted e p = None -> (forall i o, e <> EvResponse i o) ->
    step e p = Some p' -> turns_reach p' ts pend
| turns_blank e p p' ts :
    turns_reach p ts None -> submitted e p = Some ([], false) -> step e p = Some p' ->
    turns_reach p' ts None
| turns_send e p p' ts m sys :
    turns_reach p ts None -> submitted e p = Some (m, sys) -> (m <> [] \/ sys = true) ->
    step e p = Some p' -> turns_reach p' ts (Some (m, sys))
| turns_reply i o r p p' ts m sys :
    turns_reach p ts (Some (m, sys)) -> spec_reply_of o = Some r ->
    step (EvResponse i o) p = Some p' -> turns_reach p' (ts ++ [(m, sys, r)]) None.

(** The page shows the conversation of its finished turns; while a turn
    waits, its user entry follows, the context is still the
    conversation's, and the one request in flight carries the message and
    that context. *)
Definition refines (p : page W) (ts : list (jsstr * bool * spec_reply))
    (pend : option (jsstr * bool)) : Prop :=
  match pend with
  | None => pg_inflight p = [] /\ abs_page p = spec_run ts
  | Some (m, sys) =>
      exists rq, pg_inflight p = [rq] /\ pg_context p = cv_state (spec_run ts)
      /\ visible p = cv_entries (spec_run ts) ++ user_part m sys
      /\ rq_body rq = request_body m (cv_state (spec_run ts))
  end.

Lemma spec_run_snoc ts m sys r : spec_run (ts ++ [(m, sys, r)]) = spec_turn m sys r (spec_run ts).
Proof. unfold spec_run. by rewrite fold_left_app. Qed.

Lemma submitted_none e p : submitted e p = None -> sends e = false.
Proof. destruct e; cbn; try done. by case_bool_decide. Qed.

Lemma submitted_step e p p' m sys :
  submitted e p = Some (m, sys) -> step e p = Some p' ->
  exists q, p' = sendMessage_dispatch m sys q /\ pg_window q = pg_window p
            /\ pg_inflight q = pg_inflight p /\ pg_context q = pg_context p /\ pg_now q = pg_now p.
Proof.
  destruct e as [s| |key| | |dt|i o]; cbn [submitted step]; try done; intros Hsub Hs.
  - injection Hsub as <- <-. injection Hs as <-. by exists p.
  - case_bool_decide as Hk; [|done]. injection Hsub as <- <-. injection Hs as <-.
    exists p. unfold onKeyPress. by rewrite bool_decide_true.
  - injection Hsub as <- <-. injection Hs as <-. by eexists.
Qed.

Lemma refines_congr p p' ts pend :
  pg_window p' = pg_window p -> pg_inflight p' = pg_inflight p ->
  pg_context p' = pg_context p -> refines p ts pend -> refines p' ts pend.
Proof. intros Hw Hi Hc. unfold refines, abs_page, visible. rewrite Hw, Hi, Hc. done. Qed.

Lemma refines_dispatch m sys q ts :
  window_ok (pg_window q) -> pg_inflight q = [] -> abs_page q = spec_run ts ->
  (m <> [] \/ sys = true) -> refines (sendMessage_dispatch m sys q) ts (Some (m, sys)).
Proof.
  intros Hok Hi Hr Hg.
  destruct (sendMessage_dispatch_spec m sys q Hok) as [[Hb _]|(_ & Ht & Hin & _ & Hc & _)].
  { exfalso. destruct Hg as [Hm| ->]; [|by rewrite andb_false_r in Hb]. apply Hm. apply andb_prop in Hb as [Hb _].
    by apply bool_decide_eq_true in Hb. }
  exists (Request (typing_id (pg_now q)) (request_body m (pg_context q))).
  rewrite Hin, Hi, Hc, <- Hr. split; [done|]. split; [done|]. split; [|done].
  unfold visible. rewrite Ht, !list.filter_app. by destruct sys.
Qed.

Lemma visible_after_removal (p p' : page W) id b :
  placeholders p = [ETyping id] ->
  transcript (pg_window p') = remove_first (is_typing id) (transcript (pg_window p)) ++ [b] ->
  is_placeholder b = false ->
  visible p' = visible p ++ [b] /\ placeholders p' = [].
Proof.
  intros Hph Ht Hb. unfold visible, placeholders in *. rewrite Ht, !list.filter_app.
  destruct (remove_only_placeholder id _ Hph) as [-> ->].
  rewrite (filter_cons_True (fun e => is_placeholder e = false)),
    (filter_cons_False (fun e => is_placeholder e = true)) by (by rewrite Hb). done.
Qed.

Lemma refines_reply i o r p ts m sys :
  wf_page p -> ph_inv p -> refines p ts (Some (m, sys)) -> spec_reply_of o = Some r ->
  forall p', step (EvResponse i o) p = Some p' -> refines p' (ts ++ [(m, sys, r)]) None.
Proof.
  intros [Hok Hids] [Hph _] (rq0 & Hi & Hc & Hv & _) Ho p' Hs. cbn [step] in Hs. rewrite Hi in Hs.
  destruct i as [|i]; [|done]. injection Hs as <-. cbn [delete list_delete].
  rewrite Hi in Hids. apply Forall_singleton in Hids as [n Hid].
  assert (placeholders p = [ETyping (typing_id n)]) as Hph1 by (rewrite Hph, Hi; simpl; by rewrite Hid).
  destruct (sendMessage_complete_spec rq0 n o (set_inflight [] p) Hid Hok) as (_ & Hin & _ & _ & H).
  unfold spec_reply_of in Ho. cbn [pg_window pg_context set_inflight] in H.
  unfold refines. rewrite spec_run_snoc.
  destruct (classify o) as [ctx t|err|ctx err]; [| |done]; injection Ho as <-;
    destruct H as (Hc' & Ht' & _);
    destruct (visible_after_removal p _ _ _ Hph1 Ht' eq_refl) as [Hv' _];
    (split; [by rewrite Hin|]); unfold abs_page, spec_turn; by rewrite Hc', Hv', Hv, ?Hc.
Qed.

(** The runs of [turns_reach] keep single flight, and the page refines
    the specification at every point. *)
Lemma turns_reach_inv p ts pend :
  turns_reach p ts pend -> reachable_single p /\ refines p ts pend.
Proof.
  induction 1 as [|e p p' ts pend Hr [Hsg IH] Hsub Hnr Hs|e p p' ts Hr [Hsg IH] Hsub Hs
                 |e p p' ts m sys Hr [Hsg IH] Hsub Hg Hs|i o r p p' ts m sys Hr [Hsg IH] Ho Hs].
  - split; [apply reach_init|]. by split.
  - split; [eapply reach_step; [exact Hsg| |exact Hs]; intros He; by rewrite (submitted_none e p Hsub) in He|].
    destruct (step_cases e p p' Hs) as [(Hw & Hi & Hc)|[(Hse & _)|(i & _ & o & -> & _)]].
    + by apply (refines_congr p).
    + by rewrite (submitted_none e p Hsub) in Hse.
    + by destruct (Hnr i o).
  - destruct IH as [Hi Habs].
    split; [eapply reach_step; [exact Hsg|by intros _|exact Hs]|].
    destruct (submitted_step e p p' [] false Hsub Hs) as (q & -> & Hw & Hiq & Hc & _).
    unfold sendMessage_dispatch. rewrite bool_decide_true by done. cbn [andb negb].
    apply (refines_congr p); [done|done|done|by split].
  - destruct IH as [Hi Habs].
    split; [eapply reach_step; [exact Hsg|by intros _|exact Hs]|].
    destruct (submitted_step e p p' m sys Hsub Hs) as (q & -> & Hw & Hiq & Hc & _).
    destruct (reachable_fresh_inv p (proj1 (single_fresh p Hsg))) as [[Hok _] _].
    apply refines_dispatch; [by rewrite Hw|by rewrite Hiq|by rewrite <- Habs; unfold abs_page, visible; rewrite Hw, Hc|done].
  - split; [apply (reach_step _ (EvResponse i o) p p'); [exact Hsg|intros H; discriminate H|exact Hs]|].
    destruct (reachable_fresh_inv p (proj1 (single_fresh p Hsg))) as [Hwf Hph].
    by apply (refines_reply i o r p ts m sys Hwf Hph IH Ho).
Qed.

(** C1: the client refines the atomic-turn specification: on every run
    that keeps single flight and gets well-formed replies, the page shows
    exactly the conversation [spec_run ts] of the turns it performed,
    each with the message the user submitted and the reply the network
    gave: the context after a reply is the reply's [context], after a
    failure the previous one, and the entries are the user's messages
    and the formatted replies in turn order; while a turn waits, its
    request carries the message and the conversation's context. *)
Theorem client_refines_spec p ts pend : turns_reach p ts pend -> refines p ts pend.
Proof. intros H. exact (proj2 (turns_reach_inv p ts pend H)). Qed.

(** ** What the code allows beyond the specification *)

Lemma placeholders_after_send (p : page W) :
  window_ok (pg_window p) -> pg_input p <> [] ->
  placeholders (onSendClick p) = placeholders p ++ [ETyping (typing_id (pg_now p))]
  /\ pg_inflight (onSendClick p)
     = pg_inflight p ++ [Request (typing_id (pg_now p)) (request_body (pg_input p) (pg_context p))].
Proof.
  intros Hok Hm. unfold onSendClick.
  destruct (sendMessage_dispatch_spec (pg_input p) false p Hok) as [[Hb _]|(_ & Ht & Hin & _)].
  { exfalso. apply Hm. rewrite andb_true_r in Hb. by apply bool_decide_eq_true in Hb. }
  split; [|done]. unfold placeholders. rewrite Ht, !list.filter_app.
  rewrite (filter_cons_False (fun e => is_placeholder e = true)) by done.
  by rewrite (filter_cons_True (fun e => is_placeholder e = true)) by done.
Qed.

(** C15: nothing in the code stops a send while a call is pending: on
    every page reached with fresh ids with one call in flight, a click
    with a non-empty input shows a second placeholder and sends a second
    request, against the specification's invariant of at most one
    placeholder. *)
Theorem send_while_pending (p : page W) (rq : request) :
  reachable_fresh p -> pg_inflight p = [rq] -> pg_input p <> [] ->
  length (placeholders (onSendClick p)) = 2 /\ length (pg_inflight (onSendClick p)) = 2.
Proof.
  intros Hr Hi Hm. destruct (reachable_fresh_inv p Hr) as [[Hok _] [Hph _]].
  destruct (placeholders_after_send p Hok Hm) as [-> ->].
  rewrite Hph, Hi. done.
Qed.

(** C16: two calls whose placeholders share an id (two sends in one
    millisecond): when the first is answered with a [context] but no
    string [response], the placeholder is removed at line 48 and again in
    the [catch] block, which takes the second call's: the second request
    stays in flight with no placeholder, and the context is the failed
    reply's. *)
Theorem orphan_request (p : page W) rq1 rq2 o ctx err n :
  reachable p -> pg_inflight p = [rq1; rq2] ->
  rq_loading_id rq1 = typing_id n -> rq_loading_id rq2 = typing_id n ->
  placeholders p = [ETyping (typing_id n); ETyping (typing_id n)] -> classify o = TRBad ctx err ->
  exists p', step (EvResponse 0 o) p = Some p'
             /\ pg_inflight p' = [rq2] /\ placeholders p' = [] /\ pg_context p' = ctx.
Proof.
  intros Hr Hi H1 H2 Hph Ho. destruct (reach_wf _ p Hr) as [Hok _].
  cbn [step]. rewrite Hi. eexists. split; [reflexivity|]. cbn [delete list_delete].
  destruct (sendMessage_complete_spec rq1 n o (set_inflight [rq2] p) H1 Hok) as (_ & -> & _ & _ & H).
  rewrite Ho in H. destruct H as (-> & Ht & _). split; [done|]. split; [|done].
  unfold placeholders in *. cbn [pg_window set_inflight] in Ht. rewrite Ht, list.filter_app.
  rewrite !remove_first_filter by (intros [] ?; done). rewrite Hph.
  cbn [remove_first is_typing]. rewrite bool_decide_true by done. cbn [remove_first is_typing].
  rewrite bool_decide_true by done. done.
Qed.

(** C17: the context follows the order in which replies arrive, not the
    order of the requests: on every reached page with two calls in
    flight, when the later request is answered first, the page ends with
    the earlier request's reply context, and no call is left. *)
Theorem replies_in_arrival_order (p : page W) rq0 rq1 o0 o1 ctx0 ctx1 x0 x1 :
  reachable p -> pg_inflight p = [rq0; rq1] ->
  classify o0 = TROk ctx0 x0 -> classify o1 = TROk ctx1 x1 ->
  exists p', run [EvResponse 1 o1; EvResponse 0 o0] p = Some p'
             /\ pg_context p' = ctx0 /\ pg_inflight p' = [].
Proof.
  intros Hr Hi C0 C1. destruct (reach_wf _ p Hr) as [Hok Hids]. rewrite Hi in Hids.
  apply list.Forall_cons in Hids as [[n0 Hid0] Hids]. apply Forall_singleton in Hids as [n1 Hid1].
  cbn [run step]. rewrite Hi. cbn [lookup list_lookup delete list_delete mbind option_bind].
  destruct (sendMessage_complete_spec rq1 n1 o1 (set_inflight [rq0] p) Hid1 Hok)
    as (Hok1 & Hin1 & _). cbn [pg_inflight set_inflight] in Hin1. rewrite Hin1.
  cbn [lookup list_lookup delete list_delete mbind option_bind].
  destruct (sendMessage_complete_spec rq0 n0 o0
              (set_inflight [] (sendMessage_complete rq1 o1 (set_inflight [rq0] p))) Hid0 Hok1)
    as (_ & Hin0 & _ & _ & H). rewrite C0 in H. destruct H as (Hc & _).
  eexists. split; [reflexivity|]. done.
Qed.

(** C18: [window.startChat] has no one-shot guard: on every page, also
    after the start button has been removed, it sends a new system turn
    carrying the current context and shows a new placeholder. *)
Theorem start_chat_resends (p : page W) :
  window_ok (pg_window p) ->
  pg_start_btn (startChat p) = false
  /\ pg_inflight (startChat p)
     = pg_inflight p ++ [Request (typing_id (pg_now p)) (request_body [] (pg_context p))]
  /\ transcript (pg_window (startChat p)) = transcript (pg_window p) ++ [ETyping (typing_id (pg_now p))].
Proof.
  intros Hok. unfold startChat.
  destruct (sendMessage_dispatch_spec [] true
    (Page (pg_context p) (pg_window p) (pg_input p) false (pg_dark p) (pg_theme_icon p)
       (pg_now p) (pg_inflight p) (pg_log p)) Hok) as [[Hb _]|(_ & Ht & Hin & _)]; [done|].
  rewrite Ht, Hin. split; [|done].
  unfold sendMessage_dispatch. cbn. by destruct (show_typing _ _).
Qed.

End protocol.

(** ** Executions on the DOM model

    The page of [init_page] over the empty chat window at time 0, driven
    by concrete events; these runs are the witnesses of the theorems
    above. *)

Definition w_empty : chat_window := ChatWindow [] 0.
Definition page0 : page chat_window := init_page w_empty 0.
Definition enter : event := EvKeyPress ‹"Enter"›.

(** A reply of the dialogue service, [{response, context}]. *)
Definition reply (text : jsstr) (ctx : value) : fetch_outcome :=
  FetchResolved 200 (VObject [(‹"response"›, VString text); (‹"context"›, ctx)]).

Definition ctx_a : value := VObject [(‹"state"›, VString ‹"A"›)].
Definition ctx_b : value := VObject [(‹"state"›, VString ‹"B"›)].

Lemma w_empty_ok : window_ok w_empty.
Proof. constructor. Qed.

Lemma w_empty_clean : filter (fun e => is_placeholder e = true) (transcript w_empty) = [].
Proof. reflexivity. Qed.

(** A run from [page0] reaches a page of [reachable]. *)
Lemma run_page0_reachable es p : run es page0 = Some p -> reachable w_empty 0 p.
Proof. apply run_reachable, reach_init. Qed.

Definition page_start : page chat_window := startChat page0.

Definition page_welcome : page chat_window :=
  default page0 (run [EvStartChat; EvResponse 0 (reply ‹"Welcome"› ctx_a)] page0).

(** The opening call pending and the user typing. *)
Definition page_typed : page chat_window := set_input ‹"hi"› page_start.

(** Two sends in the same millisecond. *)
Definition page_twin : page chat_window :=
  default page0 (run [EvType ‹"a"›; enter; EvType ‹"b"›; enter] page0).

(** Two sends one millisecond apart. *)
Definition page_two : page chat_window :=
  default page0 (run [EvType ‹"a"›; enter; EvTick 1; EvType ‹"b"›; enter] page0).

Lemma page_start_fresh : reachable_fresh w_empty 0 page_start.
Proof. apply (reach_step w_empty 0 _ EvStartChat page0); [apply reach_init|intros _; constructor|reflexivity]. Qed.

(** Witness of C1: the opening turn, answered. *)
Lemma client_refines_spec_witness :
  refines w_empty 0 page_welcome [([], true, SReply ctx_a ‹"Welcome"›)] None.
Proof.
  apply (client_refines_spec w_empty 0 w_empty_ok w_empty_clean).
  apply (turns_reply w_empty 0 0 (reply ‹"Welcome"› ctx_a) _ page_start page_welcome [] [] true);
    [|reflexivity|vm_compute; reflexivity].
  apply (turns_send w_empty 0 EvStartChat page0); [apply turns_init|reflexivity|by right|reflexivity].
Defined.

(** Witness of C2. *)
Lemma placeholder_invariant_witness :
  placeholders page_start = map (fun rq => ETyping (rq_loading_id rq)) (pg_inflight page_start).
Proof. exact (placeholder_invariant w_empty 0 w_empty_ok w_empty_clean page_start page_start_fresh). Defined.

(** Witness of C3. *)
Lemma single_flight_witness :
  length (pg_inflight page_start) <= 1 /\ length (placeholders page_start) <= 1.
Proof.
  apply (single_flight w_empty 0 w_empty_ok w_empty_clean page_start).
  apply (reach_step w_empty 0 _ EvStartChat page0); [apply reach_init|intros _; reflexivity|reflexivity].
Defined.

(** Witness of C15: the user sends while the opening call is pending. *)
Lemma send_while_pending_witness :
  length (placeholders (onSendClick page_typed)) = 2 /\ length (pg_inflight (onSendClick page_typed)) = 2.
Proof.
  apply (send_while_pending w_empty 0 w_empty_ok w_empty_clean page_typed
           (Request (typing_id 0) (request_body [] initial_context)));
    [|vm_compute; reflexivity|vm_compute; discriminate].
  apply (reach_step w_empty 0 _ (EvType ‹"hi"›) page_start);
    [exact page_start_fresh|intros E; discriminate E|reflexivity].
Defined.

(** Witness of C16: two sends in the same millisecond, then a reply to
    the first without a [response] field. *)
Lemma orphan_request_witness :
  exists p', step (EvResponse 0 (FetchResolved 200 (VObject [(‹"context"›, ctx_a)]))) page_twin = Some p'
             /\ pg_inflight p' = [Request (typing_id 0) (request_body ‹"b"› initial_context)]
             /\ placeholders p' = [] /\ pg_context p' = ctx_a.
Proof.
  apply (orphan_request w_empty 0 w_empty_ok page_twin
           (Request (typing_id 0) (request_body ‹"a"› initial_context)) _ _ ctx_a
           (method_call_error VUndefined ‹"replace"›) 0);
    [|vm_compute; reflexivity|reflexivity|reflexivity|vm_compute; reflexivity|reflexivity].
  apply (run_page0_reachable [EvType ‹"a"›; enter; EvType ‹"b"›; enter]). vm_compute. reflexivity.
Defined.

(** Witness of C17: the second request is answered first. *)
Lemma replies_in_arrival_order_witness :
  exists p', run [EvResponse 1 (reply ‹"B"› ctx_b); EvResponse 0 (reply ‹"A"› ctx_a)] page_two = Some p'
             /\ pg_context p' = ctx_a /\ pg_inflight p' = [].
Proof.
  apply (replies_in_arrival_order w_empty 0 w_empty_ok page_two
           (Request (typing_id 0) (request_body ‹"a"› initial_context))
           (Request (typing_id 1) (request_body ‹"b"› initial_context)) _ _ ctx_a ctx_b ‹"A"› ‹"B"›);
    [|vm_compute; reflexivity|reflexivity|reflexivity].
  apply (run_page0_reachable [EvType ‹"a"›; enter; EvTick 1; EvType ‹"b"›; enter]). vm_compute. reflexivity.
Defined.

(** Witness of C18: [startChat] again after the opening turn. *)
Lemma start_chat_resends_witness :
  pg_start_btn (startChat page_welcome) = false
  /\ pg_inflight (startChat page_welcome)
     = pg_inflight page_welcome
       ++ [Request (typing_id (pg_now page_welcome)) (request_body [] (pg_context page_welcome))]
  /\ transcript (pg_window (startChat page_welcome))
     = transcript (pg_window page_welcome) ++ [ETyping (typing_id (pg_now page_welcome))].
Proof.
  apply start_chat_resends.
  apply (reach_wf w_empty 0 w_empty_ok (fun _ _ => True) page_welcome).
  apply (run_page0_reachable [EvStartChat; EvResponse 0 (reply ‹"Welcome"› ctx_a)]).
  vm_compute. reflexivity.
Defined.

(** Witness of C23: the opening call, answered by a network failure. *)
Lemma pending_calls_complete_witness :
  exists p', run [EvResponse 0 FetchFailed] page_start = Some p'
             /\ pg_inflight p' = [] /\ placeholders p' = [] /\ reachable_fresh w_empty 0 p'.
Proof.
  exact (pending_calls_complete w_empty 0 w_empty_ok w_empty_clean page_start [FetchFailed]
           page_start_fresh eq_refl).
Defined.
