(* ===== verification/Wire.v ===== *)
(** * The exchange with the service, as text

    The client and the dialogue service exchange JSON texts: the body of
    the [POST /chat] of [sendMessage] is [JSON.stringify({message,
    context})] ([src/static/script.js] lines 39-42), and what comes back is
    read by [await response.json()] (line 45), [JSON.parse] of the body
    text.  Controller.v takes the parsed outcome of a call as given; this
    file composes it with Json.v: the network answers with a text
    ([answer]), [response_json] turns the answer into the outcome the
    controller resumes with, and [request_text] is the text a suspended
    request put on the wire.

    The example at the end runs the page on texts: a context whose
    numbers a double cannot hold exactly reaches the service changed
    ([wire_context_numbers]), because the context is kept as the value
    [JSON.parse] made of the reply and written again by [JSON.stringify]. *)

From S2P Require Import Prelude JsValue Json Dom Controller Protocol.

(** ** The network's answers *)

(** What the network gives back to the [fetch] of lines 36-43: nothing
    (the promise rejects), or a response with its status and its body
    decoded to a JavaScript string. *)
Inductive answer :=
| NoAnswer
| Answer (status : N) (body : jsstr).

(** [await fetch(...)] then [await response.json()], lines 36-45: the body
    is [JSON.parse]d; a text that is not JSON rejects with a
    [SyntaxError]. *)
Definition response_json (a : answer) : fetch_outcome :=
  match a with
  | NoAnswer => FetchFailed
  | Answer st body =>
      match json_parse body with
      | Some data => FetchResolved st data
      | None => FetchNotJson st
      end
  end.

(** The body text of a suspended request, [JSON.stringify({message:
    message, context: context})] of lines 39-42. *)
Definition request_text (rq : request) : option jsstr := json_stringify (rq_body rq).

(** ** Events with their texts *)

(** An event of the page's event loop in which a call resumes with the
    network's answer itself. *)
Inductive wire_event :=
| WType (s : jsstr)
| WClickSend
| WKeyPress (key : jsstr)
| WStartChat
| WThemeToggle
| WTick (dt : N)
| WAnswer (i : nat) (a : answer).

Definition to_event (we : wire_event) : event :=
  match we with
  | WType s => EvType s
  | WClickSend => EvClickSend
  | WKeyPress key => EvKeyPress key
  | WStartChat => EvStartChat
  | WThemeToggle => EvThemeToggle
  | WTick dt => EvTick dt
  | WAnswer i a => EvResponse i (response_json a)
  end.

(** A JSON text written with [''] for the double quote. *)
Definition squote (s : jsstr) : jsstr := map (fun c => if N.eqb c 39 then cu_quote else c) s.

(** ** A conversation on the wire *)

(** The texts of the requests in flight. *)
Definition sent_texts {W} (p : page W) : list (option jsstr) := map request_text (pg_inflight p).

(** The start trigger, a welcome whose context holds numbers, then the
    user's first message. *)
Definition welcome_body : jsstr :=
  squote ‹"{'response':'Welcome','context':{'state':'GREETED','n':[1e400,-0,9007199254740993,0.1]}}"›.

Definition wire_trace : list wire_event :=
  [WStartChat; WAnswer 0 (Answer 200 welcome_body); WType ‹"hi"›; WClickSend].

Definition wire_page : page chat_window :=
  default page0 (run (map to_event wire_trace) page0).

(** The context is not sent back as the service wrote it when its
    numbers are not doubles: [1e400] overflows to [Infinity] and goes back
    as [null], [-0] goes back as [0], and [9007199254740993], above
    [2^53], is rounded to the even neighbour [9007199254740992]; [0.1]
    goes back as [0.1]. *)
Example wire_context_numbers :
  option_map sent_texts (run (map to_event wire_trace) page0)
  = Some [Some (squote ‹"{'message':'hi','context':{'state':'GREETED','n':[null,0,9007199254740992,0.1]}}"›)].
Proof. vm_compute. reflexivity. Qed.

